(** * Trust-aware AI risk reports: aggregation, export and form gating

    A shallow embedding of the client-side logic of the dashboard
    application (React/TypeScript): the reducers that group assessment
    records, the weekly window filter, the insight figures, the two
    exporters ([ReportsSection] and [EnhancedReportsSection]) and the
    submit gate of [RiskAssessmentForm].

    ECMAScript values are modelled as follows.
    - A string is a Rocq [string]; a character stands for one UTF-16 code
      unit below 256.
    - A number is a decimal [m * 10^ex] (every finite double has exactly
      one such shortest form), or NaN, or an infinity. Where the program
      divides and multiplies, a double is its exact rational value and
      every operation rounds to the nearest double (module [Double]).
    - An ordinary object is the list of its own enumerable data
      properties in [[OwnPropertyKeys]] order: array-index keys in
      ascending numeric order first, then the other keys in creation
      order. *)

From Stdlib Require Import ZArith NArith List String Ascii Bool Lia.
From Stdlib Require Import Permutation Sorted QArith Qround Qpower Lqa.
Import ListNotations.

Local Close Scope Q_scope.

Local Open Scope string_scope.
Local Open Scope Z_scope.

(** ** ECMAScript values *)

Module JS.

Inductive number : Type :=
| NumFin (m : Z) (ex : Z)
| NumNaN
| NumInf (neg : bool).

#[warnings="-register-all"] Inductive value : Type :=
| JNull
| JBool (b : bool)
| JNum (n : number)
| JStr (s : string)
| JArr (items : list value)
| JObj (props : list (string * value)).

Definition object := list (string * value).

(** The quotation mark. *)
Definition dquote : ascii := ascii_of_N 34.

(** *** Decimal digits *)

Definition digitChar (d : N) : ascii := ascii_of_N (48 + d).

Fixpoint digitsFuel (fuel : nat) (n : N) (acc : list ascii) : list ascii :=
  match fuel with
  | O => acc
  | S f =>
      let acc' := digitChar (n mod 10) :: acc in
      if (n / 10 =? 0)%N then acc' else digitsFuel f (n / 10)%N acc'
  end.

(** The decimal digits of [n], most significant first, without leading
    zeros (["0"] for zero). *)
Definition digits (n : N) : list ascii :=
  digitsFuel (S (N.to_nat (N.log2 n))) n [].

Definition isDigit (c : ascii) : bool :=
  let n := N_of_ascii c in ((48 <=? n) && (n <=? 57))%N.

Definition digitVal (c : ascii) : N := (N_of_ascii c - 48)%N.

Fixpoint digitsValue (acc : N) (l : list ascii) : N :=
  match l with
  | [] => acc
  | c :: r => digitsValue (10 * acc + digitVal c)%N r
  end.

Definition str (l : list ascii) : string := string_of_list_ascii l.
Definition chars (s : string) : list ascii := list_ascii_of_string s.

Definition zeros (n : nat) : list ascii := repeat "0"%char n.

(** *** Number::toString (radix 10) *)

Definition finiteToChars (m ex : Z) : list ascii :=
  if m =? 0 then ["0"%char] else
  let sign := if m <? 0 then ["-"%char] else [] in
  let ds := digits (Z.to_N (Z.abs m)) in
  let k := Z.of_nat (List.length ds) in
  let n := k + ex in
  sign ++
  (if (k <=? n) && (n <=? 21) then ds ++ zeros (Z.to_nat (n - k))
   else if (0 <? n) && (n <=? 21) then
     firstn (Z.to_nat n) ds ++ "."%char :: skipn (Z.to_nat n) ds
   else if (-6 <? n) && (n <=? 0) then
     "0"%char :: "."%char :: zeros (Z.to_nat (- n)) ++ ds
   else
     let e := n - 1 in
     let es := (if e <? 0 then "-"%char else "+"%char)
                 :: digits (Z.to_N (Z.abs e)) in
     if k =? 1 then ds ++ "e"%char :: es
     else firstn 1 ds ++ "."%char :: skipn 1 ds ++ "e"%char :: es).

Definition numberToString (n : number) : string :=
  match n with
  | NumFin m ex => str (finiteToChars m ex)
  | NumNaN => "NaN"
  | NumInf false => "Infinity"
  | NumInf true => "-Infinity"
  end.

(** *** Property lookup on plain data objects *)

Fixpoint getOwn {A : Type} (k : string) (o : list (string * A)) : option A :=
  match o with
  | [] => None
  | (k', v) :: r => if String.eqb k k' then Some v else getOwn k r
  end.

Definition hasOwn {A : Type} (k : string) (o : list (string * A)) : bool :=
  match getOwn k o with Some _ => true | None => false end.

(** *** ToString / ToPropertyKey

    [None] stands for a thrown TypeError: a plain object whose own
    ["toString"] property shadows [Object.prototype.toString] with a
    value that is not callable (data read from JSON never is) has no
    primitive value. *)

Fixpoint toString (v : value) : option string :=
  match v with
  | JNull => Some "null"
  | JBool true => Some "true"
  | JBool false => Some "false"
  | JNum n => Some (numberToString n)
  | JStr s => Some s
  | JArr items =>
      (fix join (l : list value) : option string :=
         match l with
         | [] => Some ""
         | x :: r =>
             let sx := match x with JNull => Some "" | _ => toString x end in
             match sx, r with
             | None, _ => None
             | Some a, [] => Some a
             | Some a, _ =>
                 match join r with
                 | Some b => Some (a ++ "," ++ b)
                 | None => None
                 end
             end
         end) items
  | JObj props =>
      if hasOwn "toString" props then None else Some "[object Object]"
  end.

(** The key under which [acc[x]] reads and writes; a missing field
    ([undefined]) gives the key ["undefined"]. *)
Definition toPropertyKey (x : option value) : option string :=
  match x with
  | None => Some "undefined"
  | Some v => toString v
  end.

(** *** Array indices and property order *)

Definition allDigits (s : string) : bool := forallb isDigit (chars s).

(** [arrayIndex k] is [Some i] when [k] is the canonical decimal form of
    an integer [0 <= i < 2^32 - 1]. *)
Definition arrayIndex (k : string) : option N :=
  match chars k with
  | [] => None
  | c :: r =>
      if allDigits k
         && (negb (Ascii.eqb c "0") || match r with [] => true | _ => false end)
         && (Nat.leb (String.length k) 10)
      then
        let i := digitsValue 0 (chars k) in
        if (i <? 4294967295)%N then Some i else None
      else None
  end.

(** Creating the own property [k] of an object that lacks it. *)
Fixpoint define {A : Type} (k : string) (v : A) (o : list (string * A))
  : list (string * A) :=
  match o with
  | [] => [(k, v)]
  | (k', v') :: r =>
      match arrayIndex k, arrayIndex k' with
      | Some i, Some i' =>
          if (i <? i')%N then (k, v) :: o else (k', v') :: define k v r
      | Some _, None => (k, v) :: o
      | None, _ => (k', v') :: define k v r
      end
  end.

Fixpoint replace {A : Type} (k : string) (v : A) (o : list (string * A))
  : list (string * A) :=
  match o with
  | [] => []
  | (k', v') :: r =>
      if String.eqb k k' then (k', v) :: r else (k', v') :: replace k v r
  end.

(** [o[k] = v] on own data properties. *)
Definition setOwn {A : Type} (k : string) (v : A) (o : list (string * A))
  : list (string * A) :=
  if hasOwn k o then replace k v o else define k v o.

(** The names [Object.prototype] defines; every object literal inherits
    them. *)
Definition protoNames : list string :=
  [ "constructor"; "hasOwnProperty"; "isPrototypeOf";
    "propertyIsEnumerable"; "toLocaleString"; "toString"; "valueOf";
    "__proto__"; "__defineGetter__"; "__defineSetter__";
    "__lookupGetter__"; "__lookupSetter__" ].

Definition inherited (k : string) : bool :=
  existsb (String.eqb k) protoNames.

(** *** Canonical numbers *)

Fixpoint stripZeros (fuel : nat) (m ex : Z) : Z * Z :=
  match fuel with
  | O => (m, ex)
  | S f => if m mod 10 =? 0 then stripZeros f (m / 10) (ex + 1) else (m, ex)
  end.

(** The number [m * 10^ex] in canonical form: a mantissa that is not a
    multiple of ten, or zero. *)
Definition normalize (m ex : Z) : number :=
  if m =? 0 then NumFin 0 0
  else let '(m', ex') :=
         stripZeros (Z.to_nat (Z.log2 (Z.abs m))) (Z.abs m) ex in
       NumFin (if m <? 0 then - m' else m') ex'.

Definition numOfZ (z : Z) : number := normalize z 0.

Definition canonical (n : number) : bool :=
  match n with
  | NumFin m ex => if m =? 0 then ex =? 0 else negb (m mod 10 =? 0)
  | _ => false
  end.

(** *** JSON.stringify(value, null, 2) *)

Definition hexChar (d : N) : ascii :=
  if (d <? 10)%N then ascii_of_N (48 + d) else ascii_of_N (87 + d).

(** QuoteJSONString, one code unit. *)
Definition escapeChar (c : ascii) : list ascii :=
  let n := N_of_ascii c in
  if (n =? 8)%N then ["\"%char; "b"%char]
  else if (n =? 9)%N then ["\"%char; "t"%char]
  else if (n =? 10)%N then ["\"%char; "n"%char]
  else if (n =? 12)%N then ["\"%char; "f"%char]
  else if (n =? 13)%N then ["\"%char; "r"%char]
  else if (n =? 34)%N then ["\"%char; dquote]
  else if (n =? 92)%N then ["\"%char; "\"%char]
  else if (n <? 32)%N then
    ["\"%char; "u"%char; "0"%char; "0"%char; hexChar (n / 16); hexChar (n mod 16)]
  else [c].

Definition quote (s : string) : list ascii :=
  dquote :: flat_map escapeChar (chars s) ++ [dquote].

Definition newline : ascii := ascii_of_N 10.

Definition spaces (n : nat) : list ascii := repeat " "%char n.

Definition numberToJSON (n : number) : list ascii :=
  match n with
  | NumFin m ex => finiteToChars m ex
  | _ => chars "null"
  end.

(** SerializeJSONProperty with gap ["  "], at indentation [ind]. *)
Fixpoint serialize (ind : nat) (v : value) {struct v} : list ascii :=
  match v with
  | JNull => chars "null"
  | JBool true => chars "true"
  | JBool false => chars "false"
  | JNum n => numberToJSON n
  | JStr s => quote s
  | JArr [] => chars "[]"
  | JArr (x :: r) =>
      "["%char :: newline :: spaces (ind + 2) ++ serialize (ind + 2) x
      ++ (fix more (l : list value) : list ascii :=
            match l with
            | [] => []
            | y :: l' =>
                ","%char :: newline :: spaces (ind + 2)
                ++ serialize (ind + 2) y ++ more l'
            end) r
      ++ newline :: spaces ind ++ ["]"%char]
  | JObj [] => chars "{}"
  | JObj ((k, x) :: r) =>
      "{"%char :: newline :: spaces (ind + 2)
      ++ quote k ++ ":"%char :: " "%char :: serialize (ind + 2) x
      ++ (fix more (l : list (string * value)) : list ascii :=
            match l with
            | [] => []
            | (k', y) :: l' =>
                ","%char :: newline :: spaces (ind + 2)
                ++ quote k' ++ ":"%char :: " "%char
                :: serialize (ind + 2) y ++ more l'
            end) r
      ++ newline :: spaces ind ++ ["}"%char]
  end.

Definition stringify (v : value) : string := str (serialize 0 v).

(** *** JSON.parse *)

Definition isWs (c : ascii) : bool :=
  let n := N_of_ascii c in
  ((n =? 32) || (n =? 9) || (n =? 10) || (n =? 13))%N.

Fixpoint skipWs (s : list ascii) : list ascii :=
  match s with
  | c :: r => if isWs c then skipWs r else s
  | [] => []
  end.

Fixpoint spanDigits (s : list ascii) : list ascii * list ascii :=
  match s with
  | c :: r =>
      if isDigit c then let '(ds, rest) := spanDigits r in (c :: ds, rest)
      else ([], s)
  | [] => ([], [])
  end.

Definition hexVal (c : ascii) : option N :=
  let n := N_of_ascii c in
  if ((48 <=? n) && (n <=? 57))%N then Some (n - 48)%N
  else if ((97 <=? n) && (n <=? 102))%N then Some (n - 87)%N
  else if ((65 <=? n) && (n <=? 70))%N then Some (n - 55)%N
  else None.

(** The characters of a string literal after its opening quote; a code
    unit above 255 is outside the model. *)
Fixpoint parseChars (fuel : nat) (s : list ascii)
  : option (list ascii * list ascii) :=
  match fuel with
  | O => None
  | S f =>
      match s with
      | [] => None
      | c :: r =>
          if Ascii.eqb c dquote then Some ([], r)
          else if Ascii.eqb c "\" then
            match r with
            | e :: r' =>
                let simple (x : N) :=
                  match parseChars f r' with
                  | Some (cs, rest) => Some (ascii_of_N x :: cs, rest)
                  | None => None
                  end in
                if Ascii.eqb e dquote then simple 34%N
                else if Ascii.eqb e "\" then simple 92%N
                else if Ascii.eqb e "/" then simple 47%N
                else if Ascii.eqb e "b" then simple 8%N
                else if Ascii.eqb e "f" then simple 12%N
                else if Ascii.eqb e "n" then simple 10%N
                else if Ascii.eqb e "r" then simple 13%N
                else if Ascii.eqb e "t" then simple 9%N
                else if Ascii.eqb e "u" then
                  match r' with
                  | h1 :: h2 :: h3 :: h4 :: r'' =>
                      match hexVal h1, hexVal h2, hexVal h3, hexVal h4 with
                      | Some a, Some b, Some c', Some d =>
                          let x := (((a * 16 + b) * 16 + c') * 16 + d)%N in
                          if (x <? 256)%N then
                            match parseChars f r'' with
                            | Some (cs, rest) => Some (ascii_of_N x :: cs, rest)
                            | None => None
                            end
                          else None
                      | _, _, _, _ => None
                      end
                  | _ => None
                  end
                else None
            | [] => None
            end
          else if (N_of_ascii c <? 32)%N then None
          else
            match parseChars f r with
            | Some (cs, rest) => Some (c :: cs, rest)
            | None => None
            end
      end
  end.

Definition parseString (s : list ascii) : option (string * list ascii) :=
  match parseChars (S (List.length s)) s with
  | Some (cs, rest) => Some (str cs, rest)
  | None => None
  end.

(** A number literal, [-? int frac? exp?]; its value is the decimal it
    writes. *)
Definition takeSign (s : list ascii) : bool * list ascii :=
  match s with
  | c :: r => if Ascii.eqb c "-" then (true, r) else (false, s)
  | [] => (false, s)
  end.

(** The integer part is ["0"] or starts with a digit other than 0. *)
Definition validInt (ip : list ascii) : bool :=
  match ip with
  | [] => false
  | d :: more =>
      negb (Ascii.eqb d "0") || match more with [] => true | _ => false end
  end.

Definition takeFraction (s : list ascii) : option (list ascii * list ascii) :=
  match s with
  | c :: r =>
      if Ascii.eqb c "." then
        match spanDigits r with
        | ([], _) => None
        | (fp, r') => Some (fp, r')
        end
      else Some ([], s)
  | [] => Some ([], s)
  end.

Definition takeExponent (s : list ascii) : option (Z * list ascii) :=
  match s with
  | c :: r =>
      if Ascii.eqb c "e" || Ascii.eqb c "E" then
        let '(eneg, r1) :=
          match r with
          | sg :: r' =>
              if Ascii.eqb sg "-" then (true, r')
              else if Ascii.eqb sg "+" then (false, r')
              else (false, r)
          | [] => (false, r)
          end in
        match spanDigits r1 with
        | ([], _) => None
        | (ed, r2) =>
            let e := Z.of_N (digitsValue 0 ed) in
            Some (if eneg then - e else e, r2)
        end
      else Some (0, s)
  | [] => Some (0, s)
  end.

(** The digits of a literal without its sign: the integer they write and
    the power of ten that scales it. *)
Definition parseMagnitude (s : list ascii) : option (Z * Z * list ascii) :=
  let '(ip, s2) := spanDigits s in
  if validInt ip then
    match takeFraction s2 with
    | Some (fp, s3) =>
        match takeExponent s3 with
        | Some (e, s4) =>
            Some (Z.of_N (digitsValue 0 (ip ++ fp)),
                  e - Z.of_nat (List.length fp), s4)
        | None => None
        end
    | None => None
    end
  else None.

Definition parseNumber (s : list ascii) : option (number * list ascii) :=
  let '(neg, s1) := takeSign s in
  match parseMagnitude s1 with
  | Some (m, e, rest) => Some (normalize (if neg then - m else m) e, rest)
  | None => None
  end.

(** The object that defining the members in the order of the text
    yields: a repeated key keeps its first position and its last
    value. *)
Definition objectOf (members : list (string * value)) : object :=
  fold_left (fun o kv => setOwn (fst kv) (snd kv) o) members [].

Fixpoint parseValue (fuel : nat) (s : list ascii) {struct fuel}
  : option (value * list ascii) :=
  match fuel with
  | O => None
  | S f =>
      match skipWs s with
      | [] => None
      | c :: r =>
          if Ascii.eqb c "n" then
            match r with
            | "u"%char :: "l"%char :: "l"%char :: r' => Some (JNull, r')
            | _ => None
            end
          else if Ascii.eqb c "t" then
            match r with
            | "r"%char :: "u"%char :: "e"%char :: r' => Some (JBool true, r')
            | _ => None
            end
          else if Ascii.eqb c "f" then
            match r with
            | "a"%char :: "l"%char :: "s"%char :: "e"%char :: r' =>
                Some (JBool false, r')
            | _ => None
            end
          else if Ascii.eqb c dquote then
            match parseString r with
            | Some (x, r') => Some (JStr x, r')
            | None => None
            end
          else if Ascii.eqb c "[" then
            match skipWs r with
            | "]"%char :: r' => Some (JArr [], r')
            | _ =>
                match parseElements f r with
                | Some (items, r') => Some (JArr items, r')
                | None => None
                end
            end
          else if Ascii.eqb c "{" then
            match skipWs r with
            | "}"%char :: r' => Some (JObj [], r')
            | _ =>
                match parseMembers f r with
                | Some (members, r') => Some (JObj (objectOf members), r')
                | None => None
                end
            end
          else
            match parseNumber (c :: r) with
            | Some (n, r') => Some (JNum n, r')
            | None => None
            end
      end
  end
with parseElements (fuel : nat) (s : list ascii) {struct fuel}
  : option (list value * list ascii) :=
  match fuel with
  | O => None
  | S f =>
      match parseValue f s with
      | Some (v, r) =>
          match skipWs r with
          | c :: r' =>
              if Ascii.eqb c "," then
                match parseElements f r' with
                | Some (vs, r'') => Some (v :: vs, r'')
                | None => None
                end
              else if Ascii.eqb c "]" then Some ([v], r')
              else None
          | [] => None
          end
      | None => None
      end
  end
with parseMembers (fuel : nat) (s : list ascii) {struct fuel}
  : option (list (string * value) * list ascii) :=
  match fuel with
  | O => None
  | S f =>
      match skipWs s with
      | q :: r0 =>
          if Ascii.eqb q dquote then
            match parseString r0 with
            | Some (k, r1) =>
                match skipWs r1 with
                | colon :: r2 =>
                    if Ascii.eqb colon ":" then
                      match parseValue f r2 with
                      | Some (v, r3) =>
                          match skipWs r3 with
                          | c :: r4 =>
                              if Ascii.eqb c "," then
                                match parseMembers f r4 with
                                | Some (ms, r5) => Some ((k, v) :: ms, r5)
                                | None => None
                                end
                              else if Ascii.eqb c "}" then Some ([(k, v)], r4)
                              else None
                          | [] => None
                          end
                      | None => None
                      end
                    else None
                | [] => None
                end
            | None => None
            end
          else None
      | [] => None
      end
  end.

(** [JSON.parse(text)]; [None] is a SyntaxError. *)
Definition parse (text : string) : option value :=
  let s := chars text in
  match parseValue (2 * List.length s + 2) s with
  | Some (v, rest) =>
      match skipWs rest with
      | [] => Some v
      | _ => None
      end
  | None => None
  end.

(** *** Data that JSON text can carry

    [jsonImage v] is what the text of [v] denotes: a number that is not
    finite is written as [null]. A value is well formed when its finite
    numbers are canonical and the properties of its objects are in
    property order without a repeated key; it is JSON data when, in
    addition, all its numbers are finite, as in a value that
    [JSON.parse] has returned. *)

Fixpoint jsonImage (v : value) : value :=
  match v with
  | JNum (NumFin _ _) => v
  | JNum _ => JNull
  | JArr items => JArr (map jsonImage items)
  | JObj props =>
      JObj ((fix image (l : list (string * value)) : list (string * value) :=
               match l with
               | [] => []
               | (k, x) :: r => (k, jsonImage x) :: image r
               end) props)
  | _ => v
  end.

(** Defining the key [k] after the keys [seen] puts it last. *)
Definition landsLast (k : string) (seen : list string) : bool :=
  match arrayIndex k with
  | None => true
  | Some i =>
      forallb (fun k' => match arrayIndex k' with
                         | Some i' => negb (i <? i')%N
                         | None => false
                         end) seen
  end.

(** The keys are distinct and in property order. *)
Fixpoint inOrder (seen : list string) (keys : list string) : bool :=
  match keys with
  | [] => true
  | k :: r =>
      negb (existsb (String.eqb k) seen) && landsLast k seen
      && inOrder (seen ++ [k]) r
  end.

Fixpoint wellFormed (v : value) : bool :=
  match v with
  | JNum (NumFin m ex) => canonical (NumFin m ex)
  | JArr items => forallb wellFormed items
  | JObj props =>
      inOrder [] (map fst props)
      && (fix all (l : list (string * value)) : bool :=
            match l with
            | [] => true
            | (_, x) :: r => wellFormed x && all r
            end) props
  | _ => true
  end.

Fixpoint jsonData (v : value) : bool :=
  match v with
  | JNum n => canonical n
  | JArr items => forallb jsonData items
  | JObj props =>
      inOrder [] (map fst props)
      && (fix all (l : list (string * value)) : bool :=
            match l with
            | [] => true
            | (_, x) :: r => jsonData x && all r
            end) props
  | _ => true
  end.

(** *** Dates

    A time value is a number of milliseconds since the epoch; [None] is
    the time value NaN of an invalid date. *)

Definition msPerDay : Z := 86400000.

Fixpoint padLeft (width : nat) (l : list ascii) : list ascii :=
  if Nat.ltb (List.length l) width
  then match width with
       | O => l
       | S w => "0"%char :: padLeft w l
       end
  else l.

Definition pad (width : nat) (n : Z) : list ascii :=
  padLeft width (digits (Z.to_N n)).

(** The civil date (year, month, day) of a day number (days since the
    epoch). *)
Definition civilFromDays (days : Z) : Z * Z * Z :=
  let z := days + 719468 in
  let era := z / 146097 in
  let doe := z - era * 146097 in
  let yoe := (doe - doe / 1460 + doe / 36524 - doe / 146096) / 365 in
  let doy := doe - (365 * yoe + yoe / 4 - yoe / 100) in
  let mp := (5 * doy + 2) / 153 in
  let d := doy - (153 * mp + 2) / 5 + 1 in
  let m := if mp <? 10 then mp + 3 else mp - 9 in
  let y := yoe + era * 400 + (if m <=? 2 then 1 else 0) in
  (y, m, d).

Definition daysFromCivil (y m d : Z) : Z :=
  let y' := if m <=? 2 then y - 1 else y in
  let era := y' / 400 in
  let yoe := y' - era * 400 in
  let doy := (153 * (if 2 <? m then m - 3 else m + 9) + 2) / 5 + d - 1 in
  let doe := yoe * 365 + yoe / 4 - yoe / 100 + doy in
  era * 146097 + doe - 719468.

(** The date part [YYYY-MM-DD] (with the expanded year of ECMAScript
    outside 0..9999) and the time part of [Date.prototype.toISOString]. *)
Definition isoDate (t : Z) : list ascii :=
  let '(y, m, d) := civilFromDays (t / msPerDay) in
  (if (0 <=? y) && (y <=? 9999) then pad 4 y
   else (if y <? 0 then "-"%char else "+"%char) :: pad 6 (Z.abs y))
  ++ "-"%char :: pad 2 m ++ "-"%char :: pad 2 d.

Definition isoTime (t : Z) : list ascii :=
  let ms := t mod msPerDay in
  pad 2 (ms / 3600000) ++ ":"%char :: pad 2 (ms / 60000 mod 60)
  ++ ":"%char :: pad 2 (ms / 1000 mod 60)
  ++ "."%char :: pad 3 (ms mod 1000).

(** [new Date(t).toISOString()] *)
Definition toISOString (t : Z) : string :=
  str (isoDate t ++ "T"%char :: isoTime t ++ ["Z"%char]).

(** [s.split('T')[0]]: the text before the first ["T"]. *)
Fixpoint beforeT (l : list ascii) : list ascii :=
  match l with
  | [] => []
  | c :: r => if Ascii.eqb c "T" then [] else c :: beforeT r
  end.

(** The implementation-defined parts of the engine the code runs on. *)
Record runtime : Type := {
  (** offset of local time from UTC at a UTC instant *)
  offsetAtUTC : Z -> Z;
  (** offset of local time from UTC at a local time *)
  offsetAtLocal : Z -> Z;
  (** [Date.parse] *)
  dateParse : string -> option Z
}.

(** The double that [xs.reduce((sum, x) => sum + x.f, 0) / xs.length]
    evaluates to, as a function of the field values [x.f], or [None]
    when a [+] throws: the floating-point sum and quotient are not
    computed here. *)
Definition meanFn : Type := list (option value) -> option number.

(** ToIntegerOrInfinity of a finite number: truncation toward zero. *)
Definition truncate (m ex : Z) : Z :=
  if 0 <=? ex then m * 10 ^ ex else Z.quot m (10 ^ (- ex)).

(** TimeClip *)
Definition timeClip (n : number) : option Z :=
  match n with
  | NumFin m ex =>
      let t := truncate m ex in
      if Z.abs t <=? 8640000000000000 then Some t else None
  | _ => None
  end.

(** The time value of [new Date(x)] for a field [x] of a record; the
    outer [None] is a thrown TypeError, the inner one an invalid date. *)
Definition newDate (rt : runtime) (x : option value) : option (option Z) :=
  match x with
  | None => Some None
  | Some JNull => Some (Some 0)
  | Some (JBool b) => Some (Some (if b then 1 else 0))
  | Some (JNum n) => Some (timeClip n)
  | Some (JStr s) => Some (dateParse rt s)
  | Some v =>
      match toString v with
      | Some s => Some (dateParse rt s)
      | None => None
      end
  end.

(** [d.setDate(d.getDate() - 7)] on a date of time value [t]: the same
    local time of day seven calendar days earlier. *)
Definition setDateMinus7 (rt : runtime) (t : Z) : Z :=
  let local := t + offsetAtUTC rt t in
  let moved := local - 7 * msPerDay in
  moved - offsetAtLocal rt moved.

(** [a > b] on two dates: a comparison of time values, false on NaN. *)
Definition dateGreater (a : option Z) (b : Z) : bool :=
  match a with
  | Some t => b <? t
  | None => false
  end.

(** *** A runtime in UTC that reads the [toISOString] format *)

Definition readDigits (l : list ascii) : option Z :=
  match l with
  | [] => None
  | _ => if forallb isDigit l then Some (Z.of_N (digitsValue 0 l)) else None
  end.

(** [Date.parse] on the format that [toISOString] writes. *)
Definition isoParse (s : string) : option Z :=
  match chars s with
  | [y1; y2; y3; y4; d1; m1; m2; d2; a1; a2; t; h1; h2; c1; i1; i2; c2;
     s1; s2; p; f1; f2; f3; z] =>
      if Ascii.eqb d1 "-" && Ascii.eqb d2 "-" && Ascii.eqb t "T"
         && Ascii.eqb c1 ":" && Ascii.eqb c2 ":" && Ascii.eqb p "."
         && Ascii.eqb z "Z"
      then
        match readDigits [y1; y2; y3; y4], readDigits [m1; m2],
              readDigits [a1; a2], readDigits [h1; h2], readDigits [i1; i2],
              readDigits [s1; s2], readDigits [f1; f2; f3] with
        | Some y, Some m, Some d, Some h, Some mi, Some sec, Some ms =>
            if (1 <=? m) && (m <=? 12) && (1 <=? d)
               && (daysFromCivil y m d + 1 <=?
                   (if m =? 12 then daysFromCivil (y + 1) 1 1
                    else daysFromCivil y (m + 1) 1))
               && (h <=? 23) && (mi <=? 59) && (sec <=? 59)
            then Some (daysFromCivil y m d * msPerDay
                       + h * 3600000 + mi * 60000 + sec * 1000 + ms)
            else None
        | _, _, _, _, _, _, _ => None
        end
      else None
  | _ => None
  end.

Definition utcRuntime : runtime :=
  {| offsetAtUTC := fun _ => 0;
     offsetAtLocal := fun _ => 0;
     dateParse := isoParse |}.

(** *** Auxiliary notions for the properties of JSON text *)

(** The next character does not continue a run of digits. *)
Definition digitStop (rest : list ascii) : bool :=
  match rest with
  | [] => true
  | c :: _ => negb (isDigit c)
  end.

(** The next character cannot continue a number literal. *)
Definition numStop (rest : list ascii) : bool :=
  match rest with
  | [] => true
  | c :: _ =>
      negb (isDigit c) && negb (Ascii.eqb c ".")
      && negb (Ascii.eqb c "e") && negb (Ascii.eqb c "E")
  end.

Definition expChars (e : Z) : list ascii :=
  (if e <? 0 then "-"%char else "+"%char) :: digits (Z.to_N (Z.abs e)).

(** Induction on values, through arrays and objects. *)
Section ValueInduction.

Variable P : value -> Prop.
Hypothesis HNull : P JNull.
Hypothesis HBool : forall b, P (JBool b).
Hypothesis HNum : forall n, P (JNum n).
Hypothesis HStr : forall s, P (JStr s).
Hypothesis HArr : forall items, Forall P items -> P (JArr items).
Hypothesis HObj :
  forall props, Forall (fun kv => P (snd kv)) props -> P (JObj props).

Fixpoint value_induction (v : value) : P v :=
  match v with
  | JNull => HNull
  | JBool b => HBool b
  | JNum n => HNum n
  | JStr s => HStr s
  | JArr items =>
      HArr items
        ((fix go (l : list value) : Forall P l :=
            match l with
            | [] => Forall_nil P
            | x :: r => Forall_cons x (value_induction x) (go r)
            end) items)
  | JObj props =>
      HObj props
        ((fix go (l : list (string * value))
            : Forall (fun kv => P (snd kv)) l :=
            match l with
            | [] => Forall_nil _
            | kv :: r =>
                Forall_cons (P := fun kv => P (snd kv)) kv
                  (value_induction (snd kv)) (go r)
            end) props)
  end.

End ValueInduction.

(** The text after the first element of an array or object. *)
Fixpoint moreItems (ind : nat) (l : list value) : list ascii :=
  match l with
  | [] => []
  | y :: l' =>
      ","%char :: newline :: spaces ind ++ serialize ind y ++ moreItems ind l'
  end.

Fixpoint moreMembers (ind : nat) (l : list (string * value)) : list ascii :=
  match l with
  | [] => []
  | (k, y) :: l' =>
      ","%char :: newline :: spaces ind ++ quote k ++ ":"%char :: " "%char
      :: serialize ind y ++ moreMembers ind l'
  end.

Definition imageProps (l : list (string * value)) : list (string * value) :=
  map (fun kv => (fst kv, jsonImage (snd kv))) l.

(** The characters a value can start with. *)
Definition startsValue (c : ascii) : bool :=
  isDigit c || Ascii.eqb c "-" || Ascii.eqb c "n" || Ascii.eqb c "t"
  || Ascii.eqb c "f" || Ascii.eqb c dquote || Ascii.eqb c "[" || Ascii.eqb c "{".

Fixpoint size (v : value) : nat :=
  match v with
  | JArr items =>
      S ((fix go (l : list value) : nat :=
            match l with
            | [] => O
            | x :: r => S (size x + go r)
            end) items)
  | JObj props =>
      S ((fix go (l : list (string * value)) : nat :=
            match l with
            | [] => O
            | (_, x) :: r => S (size x + go r)
            end) props)
  | _ => 1%nat
  end.

Fixpoint sizeItems (l : list value) : nat :=
  match l with
  | [] => O
  | x :: r => S (size x + sizeItems r)
  end.

Fixpoint sizeMembers (l : list (string * value)) : nat :=
  match l with
  | [] => O
  | (_, x) :: r => S (size x + sizeMembers r)
  end.

(** A value is read back from its text, whatever follows it. *)
Definition readsBack (v : value) : Prop :=
  wellFormed v = true ->
  forall ind fuel rest,
    (size v <= fuel)%nat -> numStop rest = true ->
    parseValue fuel (serialize ind v ++ rest) = Some (jsonImage v, rest).

End JS.

(** ** Doubles

    The arithmetic of the engine on numbers (IEEE 754 binary64,
    roundTiesToEven). A finite double is given by its exact value. Zero
    has no sign here: the program divides and multiplies counts and
    lengths, none of which is [-0]. *)

Module Double.

(** [2^e] *)
Definition pow2 (e : Z) : Q := Qpower (2 # 1) e.

(** The integer part of the binary logarithm of a positive rational. *)
Definition ilog2 (x : Q) : Z :=
  let a := Z.log2 (Qnum x) - Z.log2 (Zpos (Qden x)) in
  if Qle_bool (pow2 a) x then a else a - 1.

(** The exponent of the unit in the last place of the doubles around a
    positive [x]: a significand has 53 bits, and below [2^-1022] the
    doubles are the multiples of [2^-1074]. *)
Definition exponent (x : Q) : Z := Z.max (ilog2 x - 52) (-1074).

(** The nearest integer, a tie going to the even one. *)
Definition nearestEven (t : Q) : Z :=
  let f := Qfloor t in
  match Qcompare (Qminus t (inject_Z f)) (1 # 2) with
  | Lt => f
  | Gt => f + 1
  | Eq => if Z.even f then f else f + 1
  end.

(** The multiple of the unit in the last place that is nearest to a
    positive [x]. *)
Definition nearest (x : Q) : Q :=
  let e := exponent x in
  Qmult (inject_Z (nearestEven (Qdiv x (pow2 e)))) (pow2 e).

Inductive double : Type :=
| Finite (q : Q)
| NaN
| Infinite (negative : bool).

(** The double that a real number rounds to; a result of magnitude
    [2^1024] or more is an infinity. *)
Definition round (x : Q) : double :=
  match Qcompare x 0 with
  | Eq => Finite 0
  | Gt => let r := nearest x in
          if Qle_bool (pow2 1024) r then Infinite false else Finite r
  | Lt => let r := nearest (Qopp x) in
          if Qle_bool (pow2 1024) r then Infinite true else Finite (Qopp r)
  end.

Definition isZero (q : Q) : bool := Qeq_bool q 0.
Definition isNegative (q : Q) : bool := negb (Qle_bool 0 q).

(** [a / b] *)
Definition div (a b : double) : double :=
  match a, b with
  | NaN, _ | _, NaN => NaN
  | Infinite _, Infinite _ => NaN
  | Infinite s, Finite y => Infinite (xorb s (isNegative y))
  | Finite _, Infinite _ => Finite 0
  | Finite x, Finite y =>
      if isZero y then (if isZero x then NaN else Infinite (isNegative x))
      else round (Qdiv x y)
  end.

(** [a * b] *)
Definition mul (a b : double) : double :=
  match a, b with
  | NaN, _ | _, NaN => NaN
  | Infinite s, Infinite t => Infinite (xorb s t)
  | Infinite s, Finite y | Finite y, Infinite s =>
      if isZero y then NaN else Infinite (xorb s (isNegative y))
  | Finite x, Finite y => round (Qmult x y)
  end.

(** [a + b] *)
Definition add (a b : double) : double :=
  match a, b with
  | NaN, _ | _, NaN => NaN
  | Infinite s, Infinite t => if Bool.eqb s t then Infinite s else NaN
  | Infinite s, Finite _ | Finite _, Infinite s => Infinite s
  | Finite x, Finite y => round (Qplus x y)
  end.

(** A whole number below [2^53] in magnitude, which is a double. *)
Definition ofZ (n : Z) : double := Finite (inject_Z n).

End Double.

(** ** Grouped counts

    [Dashboard.tsx], [BlackThemeDashboard.tsx], [ReportsSection.tsx] and
    [EnhancedReportsSection.tsx] all group with the same reducer:
    [acc[curr.f] = (acc[curr.f] || 0) + 1], starting from [{}]. *)

Module Aggregator.
Import JS.

(** A record is a plain data object (a row of the hosted table, or an
    element of the array kept in local page storage). *)
Definition record := object.

(** What the reducer can store in the accumulator: a number, or (once an
    inherited function or object has been read) a string that is not a
    numeral: the implementation-defined text of the inherited value
    followed by ["1"]s. *)
Inductive count : Type :=
| Num (n : Z)
| Text.

Definition counts := list (string * count).

Inductive lookup : Type :=
| Own (c : count)
| Proto
| Undefined.

(** [acc[k]] *)
Definition readCount (acc : counts) (k : string) : lookup :=
  match getOwn k acc with
  | Some c => Own c
  | None => if inherited k then Proto else Undefined
  end.

(** [(x || 0) + 1] *)
Definition orZeroPlusOne (x : lookup) : count :=
  match x with
  | Own (Num n) => if n =? 0 then Num 1 else Num (n + 1)
  | Own Text => Text
  | Proto => Text
  | Undefined => Num 1
  end.

(** [acc[k] = c]; the inherited [__proto__] setter ignores a primitive. *)
Definition writeCount (acc : counts) (k : string) (c : count) : counts :=
  if String.eqb k "__proto__" then acc else setOwn k c acc.

(** One call of the reducer; [None] is a thrown TypeError. *)
Definition countStep (field : string) (acc : option counts) (curr : record)
  : option counts :=
  match acc with
  | None => None
  | Some a =>
      match toPropertyKey (getOwn field curr) with
      | None => None
      | Some k => Some (writeCount a k (orZeroPlusOne (readCount a k)))
      end
  end.

(** [list.reduce((acc, curr) => { acc[curr.f] = (acc[curr.f] || 0) + 1;
    return acc; }, {})] *)
Definition countBy (field : string) (l : list record) : option counts :=
  fold_left (countStep field) l (Some []).

Definition severityData (assessments : list record) : option counts :=
  countBy "severity" assessments.

(** The sum of the values of a grouped object, when they are all
    numbers. *)
Fixpoint sumValues (acc : counts) : option Z :=
  match acc with
  | [] => Some 0
  | (_, Num n) :: r =>
      match sumValues r with Some s => Some (n + s) | None => None end
  | (_, Text) :: _ => None
  end.

(** The bucket of a record. *)
Definition bucket (field : string) (r : record) : option string :=
  toPropertyKey (getOwn field r).

(** How many records of [l] fall in bucket [k]. *)
Definition occurrences (field k : string) (l : list record) : Z :=
  Z.of_nat (List.length
    (filter (fun r => match bucket field r with
                      | Some k' => String.eqb k k'
                      | None => false
                      end) l)).

(** The inputs on which the reducer behaves as a counter: every key is
    defined and none is a name inherited from [Object.prototype]. *)
Definition plainKeys (field : string) (l : list record) : Prop :=
  forall r, In r l ->
    exists k, bucket field r = Some k /\ inherited k = false.

(** *** Top tools

    [Object.entries(toolData).sort(([,a], [,b]) => b - a).slice(0, N)
       .map(([key, value]) => ({ name: ..., value }))] *)

(** [Object.entries] lists the own properties in property order. *)
Definition entries (acc : counts) : list (string * count) := acc.

(** The comparator [([,a], [,b]) => b - a]; a string that is not a
    numeral converts to NaN, and [sort] reads a NaN result as [+0]. *)
Definition byCountDesc (x y : string * count) : Z :=
  match snd x, snd y with
  | Num a, Num b => b - a
  | _, _ => 0
  end.

(** [Array.prototype.sort] is stable: with a consistent comparator its
    result is the one permutation that is ordered and keeps equal
    elements in their original order, which insertion from the right
    computes. *)
Fixpoint insertBy {A : Type} (cmp : A -> A -> Z) (x : A) (l : list A) : list A :=
  match l with
  | [] => [x]
  | y :: r => if 0 <? cmp x y then y :: insertBy cmp x r else x :: l
  end.

Fixpoint sortBy {A : Type} (cmp : A -> A -> Z) (l : list A) : list A :=
  match l with
  | [] => []
  | x :: r => insertBy cmp x (sortBy cmp r)
  end.

(** [arr.slice(0, n)] *)
Definition slice0 {A : Type} (n : nat) (l : list A) : list A := firstn n l.

(** The grouped entries by descending count, cut to the first [n]. *)
Definition topEntries (field : string) (n : nat) (l : list record)
  : option (list (string * count)) :=
  match countBy field l with
  | Some acc => Some (slice0 n (sortBy byCountDesc (entries acc)))
  | None => None
  end.

(** [key.length > limit ? key.substring(0, limit) + '...' : key] *)
Definition displayName (limit : nat) (key : string) : string :=
  if Nat.ltb limit (String.length key)
  then substring 0 limit key ++ "..."
  else key.

Record chartItem : Type := { name : string; value : count }.

(** [a.f === key] for a key string. *)
Definition fieldIs (field key : string) (a : record) : bool :=
  match getOwn field a with
  | Some (JStr s) => String.eqb s key
  | _ => false
  end.

Inductive riskLevel : Type := High | Medium.

Record toolItem : Type :=
  { tool_name : string; tool_value : count; risk_level : riskLevel }.

(** [Dashboard.tsx] (records of local page storage, field [aiTool]) and
    the hosted [Dashboard] (field [ai_tool]): eight tools, names cut at
    15 characters. *)
Definition toolChartData (field : string) (assessments : list record)
  : option (list chartItem) :=
  option_map
    (map (fun e => {| name := displayName 15 (fst e); value := snd e |}))
    (topEntries field 8 assessments).

(** [BlackThemeDashboard.tsx]: ten tools, names cut at 20 characters and
    a risk level per tool. *)
Definition toolChartDataBlack (assessments : list record)
  : option (list toolItem) :=
  option_map
    (map (fun e =>
       {| tool_name := displayName 20 (fst e);
          tool_value := snd e;
          risk_level :=
            if Nat.ltb 5 (List.length
                 (filter (fieldIs "ai_tool" (fst e)) assessments))
            then High else Medium |}))
    (topEntries "ai_tool" 10 assessments).

(** The distinct buckets of the input in the order in which they first
    occur. *)
Definition firstSeen (field : string) (l : list record) : list string :=
  fold_left
    (fun seen r =>
       match bucket field r with
       | Some k => if existsb (String.eqb k) seen then seen else (seen ++ [k])%list
       | None => seen
       end) l [].

(** No bucket of the input is the decimal form of an array index. *)
Definition noIndexKeys (field : string) (l : list record) : Prop :=
  forall r k, In r l -> bucket field r = Some k -> arrayIndex k = None.

(** The key is not the decimal form of an array index. *)
Definition notIndex (k : string) : bool :=
  match arrayIndex k with None => true | Some _ => false end.

(** *** Weekly submissions

    [const oneWeekAgo = new Date(); oneWeekAgo.setDate(oneWeekAgo.getDate() - 7);
     const weeklySubmissions = data.filter(item => new Date(item.f) > oneWeekAgo);] *)

(** [l.filter(p)] for a predicate that may throw. *)
Fixpoint filterThrowing {A : Type} (p : A -> option bool) (l : list A)
  : option (list A) :=
  match l with
  | [] => Some []
  | x :: r =>
      match p x with
      | None => None
      | Some b =>
          match filterThrowing p r with
          | None => None
          | Some r' => Some (if b then x :: r' else r')
          end
      end
  end.

Definition oneWeekAgo (rt : runtime) (now : Z) : Z := setDateMinus7 rt now.

(** The filter predicate [new Date(item.f) > oneWeekAgo]. *)
Definition submittedThisWeek (rt : runtime) (field : string) (now : Z)
  (item : record) : option bool :=
  option_map (fun d => dateGreater d (oneWeekAgo rt now))
             (newDate rt (getOwn field item)).

Definition weeklySubmissions (rt : runtime) (field : string) (now : Z)
  (data : list record) : option (list record) :=
  filterThrowing (submittedThisWeek rt field now) data.

Record stats : Type :=
  { total : Z; critical : Z; high : Z; thisWeek : Z }.

Definition lengthZ {A : Type} (l : list A) : Z := Z.of_nat (List.length l).

(** The statistics of [Dashboard.tsx] ([field] is ["timestamp"]) and of
    the hosted dashboard's [fetchAssessments] ([field] is
    ["created_at"]), computed at wall-clock time [now]; [None] when the
    filter throws. *)
Definition calculateStats (rt : runtime) (field : string) (now : Z)
  (data : list record) : option stats :=
  match weeklySubmissions rt field now data with
  | Some week =>
      Some {| total := lengthZ data;
              critical := lengthZ (filter (fieldIs "severity" "Critical") data);
              high := lengthZ (filter (fieldIs "severity" "High") data);
              thisWeek := lengthZ week |}
  | None => None
  end.

(** The weekly count as the specification words it: the records whose
    time value [t] satisfies [now - 7 days <= t <= now]. *)
Definition inTrailingWeek (now t : Z) : bool :=
  (now - 7 * msPerDay <=? t) && (t <=? now).

Definition weeklyCountAsSpecified (rt : runtime) (field : string) (now : Z)
  (data : list record) : Z :=
  lengthZ (filter (fun item =>
                     match newDate rt (getOwn field item) with
                     | Some (Some t) => inTrailingWeek now t
                     | _ => false
                     end) data).

(** *** Insights

    The quotients and products of the insight figures are doubles: each
    operation rounds its exact result to the nearest double. Counts and
    lengths are whole numbers below [2^53]. *)

Definition tenths (x : Q) : Z := Qfloor (Qplus (Qmult (10 # 1) x) (1 # 2)).

Definition renderTenths (n : Z) : string :=
  str (digits (Z.to_N (n / 10)) ++ "."%char :: digits (Z.to_N (n mod 10))).

(** [x.toFixed(1)], for a magnitude below [10^21]: the decimal with one
    fraction digit that is nearest to the double, the larger one when
    two are equally near. *)
Definition toFixed1 (x : Double.double) : string :=
  match x with
  | Double.Finite q =>
      if Qle_bool 0 q then renderTenths (tenths q)
      else "-" ++ renderTenths (tenths (Qopp q))
  | Double.NaN => "NaN"
  | Double.Infinite false => "Infinity"
  | Double.Infinite true => "-Infinity"
  end.

(** [acc[k] || 0] as a number; [None] is NaN. *)
Definition countOrZero (acc : counts) (k : string) : option Q :=
  match readCount acc k with
  | Own (Num n) => Some (inject_Z n)
  | Own Text | Proto => None
  | Undefined => Some (inject_Z 0)
  end.

Definition asDouble (x : option Q) : Double.double :=
  match x with
  | Some q => Double.Finite q
  | None => Double.NaN
  end.

(** [(severityCount['Critical'] || 0) / assessments.length * 100] *)
Definition criticalPercentageNumber (severityCount : counts)
  (assessments : list record) : Double.double :=
  Double.mul
    (Double.div (asDouble (countOrZero severityCount "Critical"))
                (Double.ofZ (lengthZ assessments)))
    (Double.ofZ 100).

(** The exact value of [100 * (severityCount['Critical'] || 0) /
    assessments.length], which [criticalPercentageNumber] rounds. *)
Definition criticalShare (severityCount : counts) (assessments : list record)
  : option Q :=
  option_map
    (fun c => Qmult (Qdiv c (inject_Z (lengthZ assessments))) (100 # 1))
    (countOrZero severityCount "Critical").

(** [Object.entries(grouped).sort(...)[0]], then [top ? top[0] : 'N/A'] *)
Definition topKey (grouped : counts) : string :=
  match sortBy byCountDesc (entries grouped) with
  | e :: _ => fst e
  | [] => "N/A"
  end.

Inductive nullable (A : Type) : Type :=
| Null
| Value (a : A).
Arguments Null {A}.
Arguments Value {A} a.

Record insights : Type := {
  totalReports : Z;
  criticalPercentage : string;
  mostReportedTool : string;
  mostCommonRisk : string;
  avgReportsPerDay : string
}.

(** [getInsights] of [ReportsSection.tsx]; [None] is a thrown
    TypeError. *)
Definition getInsights (assessments : list record)
  : option (nullable insights) :=
  if (lengthZ assessments =? 0) then Some Null else
  match countBy "severity" assessments,
        countBy "aiTool" assessments,
        countBy "riskType" assessments with
  | Some severityCount, Some tools, Some risks =>
      Some (Value
        {| totalReports := lengthZ assessments;
           criticalPercentage :=
             toFixed1 (criticalPercentageNumber severityCount assessments);
           mostReportedTool := topKey tools;
           mostCommonRisk := topKey risks;
           avgReportsPerDay :=
             toFixed1 (Double.div (Double.ofZ (lengthZ assessments))
                                  (Double.ofZ 30)) |})
  | _, _, _ => None
  end.

Definition numberToQ (n : number) : option Q :=
  match n with
  | NumFin m ex =>
      Some (if 0 <=? ex then inject_Z (m * 10 ^ ex)
            else Qdiv (inject_Z m) (inject_Z (10 ^ (- ex))))
  | _ => None
  end.

(** The double that a number is: the one nearest to its decimal. *)
Definition numberToDouble (n : number) : Double.double :=
  match n with
  | NumFin _ _ =>
      match numberToQ n with
      | Some q => Double.round q
      | None => Double.NaN
      end
  | NumNaN => Double.NaN
  | NumInf neg => Double.Infinite neg
  end.

(** [x.toFixed(1)] on a number of the engine. *)
Definition numberToFixed1 (n : number) : string :=
  toFixed1 (numberToDouble n).

Inductive trend : Type := Increasing | Stable.

Record analyticsInsights : Type := {
  a_totalReports : Z;
  a_criticalPercentage : string;
  a_mostReportedTool : string;
  a_mostCommonRisk : string;
  a_avgStrategiesPerRisk : string;
  a_avgEffectiveness : string;
  a_dataQualityScore : number;
  a_trendDirection : trend
}.

(** [getAnalyticsInsights] of [EnhancedReportsSection.tsx]; [None] is a
    thrown TypeError.

    [criticalPercentage > 20] is decided on the exact quotient: the
    double is above 20 exactly when the quotient is, for every array
    (an array has fewer than [2^32] elements; lemma
    [trend_on_doubles]). *)
Definition getAnalyticsInsights (mean : meanFn)
  (assessments strategies riskFactors : list record)
  : option (nullable analyticsInsights) :=
  if (lengthZ assessments =? 0) then Some Null else
  match countBy "severity" assessments,
        countBy "ai_tool" assessments,
        countBy "risk_type" assessments,
        mean (map (getOwn "effectiveness_score") strategies) with
  | Some severityCount, Some tools, Some risks, Some avgEffectiveness =>
      let criticalPercentage := criticalShare severityCount assessments in
      Some (Value
        {| a_totalReports := lengthZ assessments;
           a_criticalPercentage :=
             toFixed1 (criticalPercentageNumber severityCount assessments);
           a_mostReportedTool := topKey tools;
           a_mostCommonRisk := topKey risks;
           a_avgStrategiesPerRisk :=
             toFixed1 (Double.div
                         (Double.ofZ (lengthZ strategies))
                         (Double.ofZ (if lengthZ riskFactors =? 0 then 1
                                      else lengthZ riskFactors)));
           a_avgEffectiveness := numberToFixed1 avgEffectiveness;
           a_dataQualityScore := NumFin 923 (-1);
           a_trendDirection :=
             match criticalPercentage with
             | Some q => if Qle_bool q (20 # 1) then Stable else Increasing
             | None => Stable
             end |})
  | _, _, _, _ => None
  end.

(** *** Auxiliary notions and sample data *)

Definition cnt (e : string * count) : Z :=
  match snd e with Num n => n | Text => 0 end.

Definition isNum (e : string * count) : Prop := exists n, snd e = Num n.

Definition descending : list (string * count) -> Prop :=
  StronglySorted (fun a b => cnt b <= cnt a).

Definition occ (field : string) (l : list record) (e : string * count) : Z :=
  occurrences field (fst e) l.

(** The time value of [new Date(item.f)] when it is a valid date later
    than the lower bound. *)
Definition laterThanBound (rt : runtime) (field : string) (now : Z)
  (item : record) : bool :=
  match newDate rt (getOwn field item) with
  | Some (Some t) => oneWeekAgo rt now <? t
  | _ => false
  end.

Definition severitySample : list record :=
  [ [("severity", JStr "Critical"); ("aiTool", JStr "X"); ("riskType", JStr "Bias")];
    [("severity", JStr "Critical"); ("aiTool", JStr "X"); ("riskType", JStr "Privacy")];
    [("severity", JStr "Low"); ("aiTool", JStr "Y"); ("riskType", JStr "Bias")];
    [("aiTool", JStr "Z")] ].

Definition toolSample : list record :=
  [ [("aiTool", JStr "ChatGPT/OpenAI")];
    [("aiTool", JStr "Tesla Autopilot")];
    [("aiTool", JStr "Facial Recognition Systems")];
    [("aiTool", JStr "Tesla Autopilot")] ].

Definition weekSample : list record :=
  [ [("created_at", JStr "2025-07-01T08:30:00.000Z"); ("severity", JStr "High")];
    [("created_at", JStr "2025-06-20T08:30:00.000Z"); ("severity", JStr "Critical")];
    [("severity", JStr "Low")] ].

Definition insightSample : list record :=
  [ [("severity", JStr "Critical"); ("aiTool", JStr "X"); ("riskType", JStr "Bias")];
    [("severity", JStr "Critical"); ("aiTool", JStr "X"); ("riskType", JStr "Privacy")];
    [("severity", JStr "Low"); ("aiTool", JStr "Y"); ("riskType", JStr "Bias")] ].

(** Eighty reports, twenty-three of them critical. *)
Definition shareSample : list record :=
  repeat [("severity", JStr "Critical")] 23
  ++ repeat [("severity", JStr "Low")] 57.


End Aggregator.

(** ** Exporters *)

Module Exporter.
Import JS.

Definition record := object.

Inductive variant : Type := Default | Destructive.

(** What a call of [exportData] does to its surroundings: notifications,
    updates of the [isExporting] flag, and the click on a link that
    downloads a blob. *)
Inductive effect : Type :=
| Toast (title description : string) (v : variant)
| SetIsExporting (b : bool)
| Download (fileName mimeType content : string).


(** [format.toUpperCase()], on the letters a to z. *)
Definition toUpperCase (s : string) : string :=
  str (map (fun c => let n := N_of_ascii c in
                     if ((97 <=? n) && (n <=? 122))%N
                     then ascii_of_N (n - 32) else c) (chars s)).

(** [format === 'json' ? 'application/json' : 'text/csv'] *)
Definition mimeType (format : string) : string :=
  if String.eqb format "json" then "application/json" else "text/csv".

(** [`${x}`]: ToString of a value that may be [undefined]. *)
Definition interpolate (x : option value) : option string := toPropertyKey x.

(** [xs.join(sep)] on strings. *)
Definition join (sep : string) (xs : list string) : string :=
  String.concat sep xs.

Fixpoint sequence {A : Type} (l : list (option A)) : option (list A) :=
  match l with
  | [] => Some []
  | None :: _ => None
  | Some x :: r =>
      match sequence r with Some r' => Some (x :: r') | None => None end
  end.

Definition records (l : list record) : value := JArr (map JObj l).

(** *** [ReportsSection.tsx] *)

Module Reports.

(** [`${a.timestamp},${a.aiTool},${a.riskType},${a.severity}`] *)
Definition csvLine (a : record) : option string :=
  match interpolate (getOwn "timestamp" a), interpolate (getOwn "aiTool" a),
        interpolate (getOwn "riskType" a), interpolate (getOwn "severity" a) with
  | Some t, Some tool, Some risk, Some sev =>
      Some (t ++ "," ++ tool ++ "," ++ risk ++ "," ++ sev)
  | _, _, _, _ => None
  end.

Definition dataStr (assessments : list record) (format : string)
  : option string :=
  if String.eqb format "json" then Some (stringify (records assessments))
  else option_map (join (str [newline])) (sequence (map csvLine assessments)).

(** [exportData(format)]; [None] is a TypeError that nothing catches. *)
Definition exportData (assessments : list record) (format : string)
  : option (list effect) :=
  if (Z.of_nat (List.length assessments) =? 0) then
    Some [Toast "No Data" "No risk assessments available to export."
                Destructive]
  else
    match dataStr assessments format with
    | Some d =>
        Some [Download ("ai-risk-assessments." ++ format) (mimeType format) d;
              Toast "Export Complete"
                    ("Data exported as " ++ toUpperCase format ++ " file.")
                    Default]
    | None => None
    end.

End Reports.

(** *** [EnhancedReportsSection.tsx] *)

Module Enhanced.

Record state : Type := {
  assessments : list record;
  strategies : list record;
  riskFactors : list record
}.

Definition lengthNum {A : Type} (l : list A) : value :=
  JNum (numOfZ (Z.of_nat (List.length l))).

(** SameValueZero on primitive values; an array or an object read from
    JSON is a reference of its own. *)
Definition sameValueZero (a b : option value) : bool :=
  match a, b with
  | None, None => true
  | Some JNull, Some JNull => true
  | Some (JBool x), Some (JBool y) => Bool.eqb x y
  | Some (JStr x), Some (JStr y) => String.eqb x y
  | Some (JNum NumNaN), Some (JNum NumNaN) => true
  | Some (JNum (NumInf x)), Some (JNum (NumInf y)) => Bool.eqb x y
  | Some (JNum (NumFin m e)), Some (JNum (NumFin m' e')) =>
      (m =? m') && (e =? e')
  | _, _ => false
  end.

(** [[...new Set(xs)].length] *)
Fixpoint distinctCount (seen : list (option value)) (xs : list (option value))
  : nat :=
  match xs with
  | [] => List.length seen
  | x :: r =>
      if existsb (sameValueZero x) seen then distinctCount seen r
      else distinctCount (x :: seen) r
  end.

Definition isCritical (f : record) : bool :=
  match getOwn "impact_level" f with
  | Some (JStr s) => String.eqb s "Critical"
  | _ => false
  end.

(** [{...o, k1: v1, k2: v2}] *)
Definition spread (o : object) (more : list (string * value)) : object :=
  fold_left (fun acc kv => setOwn (fst kv) (snd kv) acc) more o.

Definition wantsAssessments (dataType : string) : bool :=
  String.eqb dataType "all" || String.eqb dataType "assessments".
Definition wantsStrategies (dataType : string) : bool :=
  String.eqb dataType "all" || String.eqb dataType "strategies".
Definition wantsFactors (dataType : string) : bool :=
  String.eqb dataType "all" || String.eqb dataType "factors".

Section WithMean.

Variable mean : meanFn.

(** The object assembled in the [try] block, with the clock read at
    [t_meta] for [export_date]; [None] when a sum throws. *)
Definition assemble (st : state) (dataType : string) (t_meta : Z)
  : option object :=
  let o1 :=
    if wantsAssessments dataType then
      spread []
        [("risk_assessments", records (assessments st));
         ("metadata",
          JObj [("exported_by", JStr "AI Risk Assessment Dashboard");
                ("export_date", JStr (toISOString t_meta));
                ("total_assessments", lengthNum (assessments st));
                ("data_quality_score", JNum (NumFin 92 (-1)));
                ("analysis_version", JStr "v2.1")])]
    else [] in
  let o2 :=
    if wantsStrategies dataType then
      match mean (map (getOwn "effectiveness_score") (strategies st)) with
      | Some avg =>
          Some (spread o1
            [("mitigation_strategies", records (strategies st));
             ("strategy_summary",
              JObj [("total_strategies", lengthNum (strategies st));
                    ("average_effectiveness", JNum avg);
                    ("sectors_covered",
                     JNum (numOfZ (Z.of_nat
                       (distinctCount []
                          (map (getOwn "risk_type") (strategies st))))))])])
      | None => None
      end
    else Some o1 in
  match o2 with
  | Some o =>
      if wantsFactors dataType then
        match mean (map (getOwn "frequency_percentage") (riskFactors st)) with
        | Some avg =>
            Some (spread o
              [("risk_factors", records (riskFactors st));
               ("factor_analysis",
                JObj [("total_factors", lengthNum (riskFactors st));
                      ("high_impact_factors",
                       lengthNum (filter isCritical (riskFactors st)));
                      ("average_frequency", JNum avg)])])
        | None => None
        end
      else Some o
  | None => None
  end.

(** [Object.keys(v)] and [Object.values(v)]; [None] is the TypeError on
    [null]. *)
Definition indexKeys (n : nat) : list string :=
  map (fun i => str (digits (N.of_nat i))) (seq 0 n).

Definition keysOf (v : value) : option (list string) :=
  match v with
  | JNull => None
  | JObj props => Some (map fst props)
  | JArr items => Some (indexKeys (List.length items))
  | JStr s => Some (indexKeys (String.length s))
  | _ => Some []
  end.

Definition valuesOf (v : value) : option (list value) :=
  match v with
  | JNull => None
  | JObj props => Some (map snd props)
  | JArr items => Some items
  | JStr s => Some (map (fun c => JStr (String c EmptyString)) (chars s))
  | _ => Some []
  end.

Definition truthy (v : value) : bool :=
  match v with
  | JNull => false
  | JBool b => b
  | JNum (NumFin m _) => negb (m =? 0)
  | JNum NumNaN => false
  | JNum (NumInf _) => true
  | JStr s => negb (String.eqb s "")
  | _ => true
  end.

(** [Object.values(item).map(val => `"${val}"`).join(',')] *)
Definition csvRow (item : value) : option string :=
  match valuesOf item with
  | Some vals =>
      option_map (join ",")
        (sequence (map (fun val =>
                          option_map (fun x => String dquote (x ++ String dquote EmptyString))
                                     (interpolate (Some val))) vals))
  | None => None
  end.

(** [convertToCSV(data)]; [None] is a thrown TypeError. *)
Definition convertToCSV (data : object) : option string :=
  match getOwn "risk_assessments" data with
  | Some (JArr items) =>
      let first :=
        match items with
        | x :: _ => if truthy x then x else JObj []
        | [] => JObj []
        end in
      match keysOf first, sequence (map csvRow items) with
      | Some keys, Some rows =>
          Some (join "," keys ++ str [newline] ++ join (str [newline]) rows)
      | _, _ => None
      end
  | Some v => if truthy v then None else Some ""
  | None => Some ""
  end.

(** The text handed to the blob. *)
Definition dataStr (st : state) (format dataType : string) (t_meta : Z)
  : option string :=
  match assemble st dataType t_meta with
  | Some o =>
      if String.eqb format "json" then Some (stringify (JObj o))
      else if String.eqb format "csv" then convertToCSV o
      else Some (stringify (JObj o))
  | None => None
  end.

(** [new Date().toISOString().split('T')[0]] *)
Definition timestamp (t_file : Z) : string :=
  str (beforeT (chars (toISOString t_file))).

Definition fileName (format dataType : string) (t_file : Z) : string :=
  "ai-risk-comprehensive-" ++ dataType ++ "-" ++ timestamp t_file
  ++ "." ++ format.

Definition noData (st : state) : bool :=
  (Z.of_nat (List.length (assessments st)) =? 0)
  && (Z.of_nat (List.length (strategies st)) =? 0)
  && (Z.of_nat (List.length (riskFactors st)) =? 0).

(** [exportData(format, dataType)], with the clock read at [t_file] for
    the file name and at [t_meta] for the metadata. *)
Definition exportData (st : state) (format dataType : string)
  (t_file t_meta : Z) : list effect :=
  if noData st then
    [Toast "No Data Available"
           "No data available for export. Please ensure data has been loaded."
           Destructive]
  else
    SetIsExporting true ::
    match dataStr st format dataType t_meta with
    | Some d =>
        [Download (fileName format dataType t_file) (mimeType format) d;
         Toast "Export Completed"
               ("Comprehensive " ++ dataType
                ++ " data exported successfully as "
                ++ toUpperCase format ++ ".")
               Default]
    | None =>
        [Toast "Export Failed" "Failed to export data. Please try again."
               Destructive]
    end ++ [SetIsExporting false].

End WithMean.

(** The mean of no values: [0 / 0] is NaN. *)
Definition meanOfNone : meanFn := fun _ => Some NumNaN.

End Enhanced.

(** *** Auxiliary notions and sample data *)

Definition emptyState : Enhanced.state :=
  {| Enhanced.assessments := []; Enhanced.strategies := [];
     Enhanced.riskFactors := [] |}.

Definition sampleAssessment : record :=
  [ ("id", JStr "7f3c");
    ("ai_tool", JStr "ChatGPT/OpenAI");
    ("risk_type", JStr "Misinformation");
    ("severity", JStr "High");
    ("description", JNull);
    ("report_requested", JBool true);
    ("created_at", JStr "2025-06-27T11:57:15.123Z") ].

Definition sampleStrategy : record :=
  [ ("risk_type", JStr "Trust Erosion");
    ("severity", JStr "High");
    ("strategy_title", JStr "Transparency Reports");
    ("effectiveness_score", JNum (NumFin 8 0)) ].

Definition sampleState : Enhanced.state :=
  {| Enhanced.assessments := [sampleAssessment]; Enhanced.strategies := [];
     Enhanced.riskFactors := [] |}.

Definition strategiesOnly : Enhanced.state :=
  {| Enhanced.assessments := []; Enhanced.strategies := [sampleStrategy];
     Enhanced.riskFactors := [] |}.

(** [YYYY-MM-DD] *)
Definition datePattern (l : list ascii) : bool :=
  match l with
  | [y1; y2; y3; y4; s1; m1; m2; s2; d1; d2] =>
      isDigit y1 && isDigit y2 && isDigit y3 && isDigit y4
      && Ascii.eqb s1 "-" && isDigit m1 && isDigit m2
      && Ascii.eqb s2 "-" && isDigit d1 && isDigit d2
  | _ => false
  end.

Definition exportYear (t : Z) : Z := fst (fst (civilFromDays (t / msPerDay))).

Definition digitsOnly (width : nat) (l : list ascii) : bool :=
  Nat.eqb (List.length l) width && forallb isDigit l.

(** The file name as the specification words it. *)
Definition fileNameAsSpecified (dataType date ext : string) : string :=
  "ai-risk-" ++ dataType ++ "-" ++ date ++ "." ++ ext.

(** Every record is JSON data. *)
Definition recordsOk (l : list record) : bool :=
  forallb (fun r => jsonData (JObj r)) l.

(** The mean is a double: a canonical decimal, or not finite. *)
Definition meanOk (mean : meanFn) : Prop :=
  forall xs n, mean xs = Some n -> wellFormed (JNum n) = true.

End Exporter.

(** ** The submission form ([RiskAssessmentForm]) *)

Module Form.

Record formData : Type := {
  aiTool : string;
  riskType : string;
  severity : string;
  description : string;
  email : string;
  reportRequested : bool
}.

Definition emptyForm : formData :=
  {| aiTool := ""; riskType := ""; severity := ""; description := "";
     email := ""; reportRequested := false |}.

Record formState : Type := { data : formData; isSubmitting : bool }.

Inductive effect : Type :=
| SetIsSubmitting (b : bool)
| Insert (row : formData)
| Toast (title description : string) (destructive : bool)
| SetFormData (d : formData)
| ConsoleError.

Definition isInsert (e : effect) : bool :=
  match e with Insert _ => true | _ => false end.

(** [!s] on a string. *)
Definition isEmpty (s : string) : bool := String.eqb s "".

(** [handleSubmit]; [storeError] tells whether the insert comes back
    with an error. *)
Definition handleSubmit (st : formState) (storeError : bool) : list effect :=
  SetIsSubmitting true ::
  Insert (data st) ::
  (if storeError then
     [ConsoleError;
      Toast "Submission Error"
            "There was an error submitting your assessment. Please try again."
            true]
   else
     [Toast "Risk Assessment Submitted"
            (if reportRequested (data st)
             then "Your report will be sent to your email within 24 hours."
             else "Thank you for your submission!")
            false;
      SetFormData emptyForm])
  ++ [SetIsSubmitting false].

(** The [disabled] attribute of the submit button. *)
Definition submitDisabled (st : formState) : bool :=
  isEmpty (aiTool (data st)) || isEmpty (riskType (data st))
  || isEmpty (severity (data st)) || isSubmitting st.

(** An attempt to submit the form, by a click on the submit button or by
    the Enter key in a field: a form whose submit button is disabled is
    not submitted, and [onSubmit] does not run. *)
Definition submitAttempt (st : formState) (storeError : bool) : list effect :=
  if submitDisabled st then [] else handleSubmit st storeError.

Definition incompleteForm : formState :=
  {| data := {| aiTool := ""; riskType := "Bias/Discrimination";
                severity := "High"; description := "text";
                email := ""; reportRequested := false |};
     isSubmitting := false |}.

Definition completeForm : formState :=
  {| data := {| aiTool := "ChatGPT/OpenAI"; riskType := "Misinformation";
                severity := "High"; description := "";
                email := ""; reportRequested := false |};
     isSubmitting := false |}.

End Form.

(** ** Derived data of the dashboards *)

Module Views.
Import JS Aggregator.

(** [a === b] on values read from JSON ([None] is [undefined]); an
    array or an object read from JSON is a reference of its own, and
    NaN is not part of JSON data. *)
Definition strictEquals (a b : option JS.value) : bool :=
  match a, b with
  | None, None => true
  | Some JNull, Some JNull => true
  | Some (JBool x), Some (JBool y) => Bool.eqb x y
  | Some (JStr x), Some (JStr y) => String.eqb x y
  | Some (JNum (NumInf x)), Some (JNum (NumInf y)) => Bool.eqb x y
  | Some (JNum (NumFin m e)), Some (JNum (NumFin m' e')) =>
      (m =? m') && (e =? e')
  | _, _ => false
  end.

(** *** Statistics of [BlackThemeDashboard.tsx]

    [const sectorsAnalyzed = new Set(assessmentsData.map(item => item.ai_tool)).size;
     const avgEffectiveness = strategiesData.length > 0
       ? strategiesData.reduce((sum, s) => sum + s.effectiveness_score, 0) / strategiesData.length
       : 0;] *)

Definition sectorsAnalyzed (assessmentsData : list record) : Z :=
  Z.of_nat (Exporter.Enhanced.distinctCount []
              (map (getOwn "ai_tool") assessmentsData)).

Definition avgEffectiveness (mean : meanFn) (strategiesData : list record)
  : option number :=
  if 0 <? lengthZ strategiesData
  then mean (map (getOwn "effectiveness_score") strategiesData)
  else Some (NumFin 0 0).

Record enhancedStats : Type := {
  e_total : Z;
  e_critical : Z;
  e_high : Z;
  e_thisWeek : Z;
  e_avgEffectiveness : number;
  e_sectorsAnalyzed : Z
}.

(** The statistics that [fetchAllData] hands to [setStats], computed at
    wall-clock time [now]; [None] when the weekly filter or a sum
    throws. *)
Definition calculateEnhancedStats (rt : runtime) (mean : meanFn) (now : Z)
  (assessmentsData strategiesData : list record) : option enhancedStats :=
  match weeklySubmissions rt "created_at" now assessmentsData with
  | Some week =>
      match avgEffectiveness mean strategiesData with
      | Some avg =>
          Some {| e_total := lengthZ assessmentsData;
                  e_critical :=
                    lengthZ (filter (fieldIs "severity" "Critical")
                                    assessmentsData);
                  e_high :=
                    lengthZ (filter (fieldIs "severity" "High")
                                    assessmentsData);
                  e_thisWeek := lengthZ week;
                  e_avgEffectiveness := avg;
                  e_sectorsAnalyzed := sectorsAnalyzed assessmentsData |}
      | None => None
      end
  | None => None
  end.

(** *** Risk categories of [BlackThemeDashboard.tsx]

    [Object.entries(riskTypeData).map(([key, value]) => ({
       name: key, value,
       severity_avg: assessments.filter(a => a.risk_type === key)
         .reduce((sum, a) => {
           const severityScore =
             { 'Low': 1, 'Medium': 2, 'High': 3, 'Critical': 4 }[a.severity] || 0;
           return sum + severityScore;
         }, 0) / value }))] *)

Definition severityScores : list (string * Z) :=
  [ ("Low", 1); ("Medium", 2); ("High", 3); ("Critical", 4) ].

(** What [{...}[a.severity] || 0] evaluates to: a number, or a function
    or object that the literal inherits from [Object.prototype]. *)
Inductive score : Type :=
| Points (n : Z)
| Foreign.

(** [None] is a thrown TypeError. *)
Definition severityScore (a : record) : option score :=
  match toPropertyKey (getOwn "severity" a) with
  | None => None
  | Some k =>
      Some match getOwn k severityScores with
           | Some n => Points n
           | None => if inherited k then Foreign else Points 0
           end
  end.

(** [sum + severityScore]: once a function or an object has been added,
    the sum is a string that is not a numeral. *)
Definition addScore (sum : count) (s : score) : count :=
  match sum, s with
  | Num a, Points n => Num (a + n)
  | _, _ => Text
  end.

Definition severitySum (key : string) (assessments : list record)
  : option count :=
  fold_left
    (fun sum a =>
       match sum, severityScore a with
       | Some s, Some sc => Some (addScore s sc)
       | _, _ => None
       end)
    (filter (fieldIs "risk_type" key) assessments) (Some (Num 0)).

(** [sum / value] on exact rationals; [None] is a result that is not a
    finite number (NaN, or an infinity). *)
Definition quotient (sum value : count) : option Q :=
  match sum, value with
  | Num s, Num v =>
      if v =? 0 then None else Some (Qdiv (inject_Z s) (inject_Z v))
  | _, _ => None
  end.

Record riskTypeItem : Type := {
  r_name : string;
  r_value : count;
  severity_avg : option Q
}.

(** [None] is a thrown TypeError. *)
Definition riskTypeChartData (assessments : list record)
  : option (list riskTypeItem) :=
  match countBy "risk_type" assessments with
  | Some riskTypeData =>
      Exporter.sequence
        (map (fun e =>
                option_map
                  (fun sum => {| r_name := fst e; r_value := snd e;
                                 severity_avg := quotient sum (snd e) |})
                  (severitySum (fst e) assessments))
             (entries riskTypeData))
  | None => None
  end.

(** *** Grouping with [find] and [push]

    [const existing = acc.find(p);
     if (existing) { ...update existing in place... } else { acc.push(fresh); }]

    [None] is an exception thrown by the update. *)
Fixpoint findAndUpdate {G : Type} (p : G -> bool) (update : G -> option G)
  (fresh : G) (acc : list G) : option (list G) :=
  match acc with
  | [] => Some [fresh]
  | g :: r =>
      if p g then option_map (fun g' => g' :: r) (update g)
      else option_map (cons g) (findAndUpdate p update fresh r)
  end.

(** *** Sums and quotients of the values of a record

    [a + b] and [a / n] first convert their operands to primitives,
    which throws a TypeError on an object that has no primitive value
    (see [toString]). What is then added or concatenated, and divided,
    is kept as the expression that the engine evaluates. *)

Inductive quantity : Type :=
| Given (v : option JS.value)
| Plus (a : quantity) (b : option JS.value)
| Over (a : quantity) (n : Z).

(** ToPrimitive does not throw on the value. *)
Definition convertible (v : option JS.value) : bool :=
  match toPropertyKey v with
  | Some _ => true
  | None => false
  end.

Definition hasPrimitive (a : quantity) : bool :=
  match a with
  | Given v => convertible v
  | _ => true
  end.

(** [a + b]; [None] is a thrown TypeError. *)
Definition plus (a : quantity) (b : option JS.value) : option quantity :=
  if hasPrimitive a && convertible b then Some (Plus a b) else None.

(** [a / n] for a count [n]; [None] is a thrown TypeError. *)
Definition divide (a : quantity) (n : Z) : option quantity :=
  if hasPrimitive a then Some (Over a n) else None.

(** ToNumber of a value that is neither a string nor an object. *)
Definition toNumber (v : option JS.value) : option Double.double :=
  match v with
  | None => Some Double.NaN
  | Some JNull => Some (Double.ofZ 0)
  | Some (JBool b) => Some (Double.ofZ (if b then 1 else 0))
  | Some (JNum n) => Some (numberToDouble n)
  | Some (JStr _) | Some (JArr _) | Some (JObj _) => None
  end.

(** The double that the engine computes for a quantity in which no
    string and no object occurs (with a string, [+] concatenates; the
    text is not computed here, and [None] says so). *)
Fixpoint evaluate (a : quantity) : option Double.double :=
  match a with
  | Given v => toNumber v
  | Plus a b =>
      match evaluate a, toNumber b with
      | Some x, Some y => Some (Double.add x y)
      | _, _ => None
      end
  | Over a n =>
      option_map (fun x => Double.div x (Double.ofZ n)) (evaluate a)
  end.

(** *** Sector analysis of [BlackThemeDashboard.tsx] *)

Module Sector.

Record group : Type := {
  sector : option JS.value;
  frequency : quantity;
  count : Z;
  avgFrequency : quantity
}.

Record item : Type := {
  i_sector : option JS.value;
  i_frequency : quantity;
  i_count : Z;
  i_avgFrequency : quantity
}.

(** One call of the reducer:
    [const sector = curr.risk_type;
     const existing = acc.find(item => item.sector === sector);
     if (existing) { existing.frequency += curr.frequency_percentage;
                     existing.count += 1; }
     else { acc.push({ sector, frequency: curr.frequency_percentage,
                       count: 1, avgFrequency: curr.frequency_percentage }); }] *)
Definition step (acc : option (list group)) (curr : record)
  : option (list group) :=
  match acc with
  | None => None
  | Some a =>
      let s := getOwn "risk_type" curr in
      let f := getOwn "frequency_percentage" curr in
      findAndUpdate
        (fun g => strictEquals (sector g) s)
        (fun existing =>
           match plus (frequency existing) f with
           | Some f' =>
               Some {| sector := sector existing; frequency := f';
                       count := count existing + 1;
                       avgFrequency := avgFrequency existing |}
           | None => None
           end)
        {| sector := s; frequency := Given f; count := 1;
           avgFrequency := Given f |}
        a
  end.

Definition groups (riskFactors : list record) : option (list group) :=
  fold_left step riskFactors (Some []).

(** [.map(item => ({ ...item, avgFrequency: item.frequency / item.count }))] *)
Definition finish (g : group) : option item :=
  option_map
    (fun avg => {| i_sector := sector g; i_frequency := frequency g;
                   i_count := count g; i_avgFrequency := avg |})
    (divide (frequency g) (count g)).

Definition sectorAnalysis (riskFactors : list record) : option (list item) :=
  match groups riskFactors with
  | Some gs => Exporter.sequence (map finish gs)
  | None => None
  end.

(** The radar chart shows [sectorAnalysis.slice(0, 6)]. *)
Definition radarData (riskFactors : list record) : option (list item) :=
  option_map (slice0 6) (sectorAnalysis riskFactors).

End Sector.

(** *** Impact distribution of [MitigationDashboard.tsx]

    [riskFactors.reduce((acc, factor) => {
       const existing = acc.find(item => item.name === factor.impact_level);
       if (existing) { existing.value += factor.frequency_percentage; }
       else { acc.push({ name: factor.impact_level,
                         value: factor.frequency_percentage }); }
       return acc; }, [])] *)

Module Impact.

Record slice : Type := { name : option JS.value; value : quantity }.

Definition step (acc : option (list slice)) (factor : record)
  : option (list slice) :=
  match acc with
  | None => None
  | Some a =>
      let level := getOwn "impact_level" factor in
      let f := getOwn "frequency_percentage" factor in
      findAndUpdate
        (fun s => strictEquals (name s) level)
        (fun existing =>
           match plus (value existing) f with
           | Some v => Some {| name := name existing; value := v |}
           | None => None
           end)
        {| name := level; value := Given f |}
        a
  end.

Definition impactDistribution (riskFactors : list record)
  : option (list slice) :=
  fold_left step riskFactors (Some []).

(** [const COLORS = ['#3b82f6', '#8b5cf6', '#ef4444', '#f59e0b', '#10b981'];] *)
Definition COLORS : list string :=
  [ "#3b82f6"; "#8b5cf6"; "#ef4444"; "#f59e0b"; "#10b981" ].

(** [COLORS[index % COLORS.length]]; [None] is [undefined]. *)
Definition fill (index : nat) : option string :=
  nth_error COLORS (index mod List.length COLORS).

(** The colours of the slices of the pie, in order:
    [impactDistribution.map((entry, index) => <Cell fill={...} />)]. *)
Definition fills {A : Type} (slices : list A) : list (option string) :=
  map fill (seq 0 (List.length slices)).

End Impact.

(** *** Recent submissions of [Dashboard.tsx]

    [assessments.slice(-5).reverse()] *)

(** [l.slice(start)] *)
Definition slice {A : Type} (start : Z) (l : list A) : list A :=
  let len := lengthZ l in
  let k := if start <? 0 then Z.max (len + start) 0 else Z.min start len in
  skipn (Z.to_nat k) l.

Definition recentSubmissions {A : Type} (assessments : list A) : list A :=
  rev (slice (-5) assessments).

(** *** Auxiliary notions *)

(** The values of a list in the order in which they first occur, two
    values being the same when they are strictly equal. *)
Definition firstOccurrences (xs : list (option JS.value))
  : list (option JS.value) :=
  fold_left
    (fun seen x =>
       if existsb (fun y => strictEquals y x) seen then seen
       else (seen ++ [x])%list)
    xs [].

(** The field of every record is a string, and not a name that
    [Object.prototype] defines. *)
Definition plainStrings (field : string) (l : list record) : Prop :=
  forall r, In r l ->
    exists s, getOwn field r = Some (JStr s) /\ inherited s = false.

(** The count that a grouped object holds for a key, 0 when it has
    none. *)
Definition countOf (acc : counts) (k : string) : Z :=
  match getOwn k acc with
  | Some (Num n) => n
  | _ => 0
  end.

(** The severity points of a record, and of the records of a risk
    type. *)
Definition points (a : record) : Z :=
  match severityScore a with
  | Some (Points n) => n
  | _ => 0
  end.


(** A value that is strictly equal to itself: [undefined], [null], a
    boolean, a string, or a number that is not NaN. *)
Definition primitive (x : option JS.value) : bool := strictEquals x x.

(** The values a nullable column with
    [CHECK (impact_level IN ('Low', 'Medium', 'High', 'Critical'))] can
    hold. *)
Definition impactLevels : list (option JS.value) :=
  [ Some (JStr "Low"); Some (JStr "Medium"); Some (JStr "High");
    Some (JStr "Critical"); Some JNull ].


Definition blackSample : list record :=
  [ [("ai_tool", JStr "ChatGPT/OpenAI"); ("risk_type", JStr "Misinformation");
     ("severity", JStr "High"); ("created_at", JStr "2025-06-27T11:57:15.123Z")];
    [("ai_tool", JStr "Tesla Autopilot"); ("risk_type", JStr "Over-reliance");
     ("severity", JStr "Critical"); ("created_at", JStr "2025-06-20T08:00:00.000Z")];
    [("ai_tool", JStr "ChatGPT/OpenAI"); ("risk_type", JStr "Misinformation");
     ("severity", JStr "Medium"); ("created_at", JStr "2025-06-01T00:00:00.000Z")] ].

(** The first rows that the migration inserts into [risk_factors]. *)
Definition factorSample : list record :=
  [ [("risk_type", JStr "Trust Erosion"); ("impact_level", JStr "High");
     ("frequency_percentage", JNum (NumFin 452 (-1)))];
    [("risk_type", JStr "Trust Erosion"); ("impact_level", JStr "Medium");
     ("frequency_percentage", JNum (NumFin 321 (-1)))];
    [("risk_type", JStr "Over-reliance"); ("impact_level", JStr "High");
     ("frequency_percentage", JNum (NumFin 387 (-1)))] ].

(** The sum that a group holds for the values of its records, taken in
    their order. *)
Definition sumOf (values : list (option JS.value)) : quantity :=
  match values with
  | [] => Given None
  | v :: more => fold_left Plus more (Given v)
  end.

End Views.

(** ** The trend of the last thirty days ([Dashboard.tsx]) *)

Module Trend.
Import JS Aggregator.

Definition weekdayNames : list string :=
  [ "Sun"; "Mon"; "Tue"; "Wed"; "Thu"; "Fri"; "Sat" ].

Definition monthNames : list string :=
  [ "Jan"; "Feb"; "Mar"; "Apr"; "May"; "Jun";
    "Jul"; "Aug"; "Sep"; "Oct"; "Nov"; "Dec" ].

(** The local time of a time value. *)
Definition localTime (rt : runtime) (t : Z) : Z := t + offsetAtUTC rt t.

(** The text of [Date.prototype.toDateString] for a local time: the
    name of the day of the week (day 0 of the epoch is a Thursday), the
    name of the month, the day on two digits and the year on four or
    more. *)
Definition dateChars (local : Z) : list ascii :=
  let day := local / msPerDay in
  let '(y, m, d) := civilFromDays day in
  (chars (nth (Z.to_nat ((day + 4) mod 7)) weekdayNames "")
   ++ " "%char :: chars (nth (Z.to_nat (m - 1)) monthNames "")
   ++ " "%char :: pad 2 d
   ++ " "%char :: (if y <? 0 then ["-"%char] else []) ++ pad 4 (Z.abs y))%list.

(** [d.toDateString()] for the time value of a date; [None] is an
    invalid date. *)
Definition toDateString (rt : runtime) (d : option Z) : string :=
  match d with
  | Some t => str (dateChars (localTime rt t))
  | None => "Invalid Date"
  end.

(** [d.toLocaleDateString('en-US', { month: 'short', day: 'numeric' })]
    for a valid date: the short name of the month and the day. *)
Definition shortDate (rt : runtime) (t : Z) : string :=
  let '(_, m, d) := civilFromDays (localTime rt t / msPerDay) in
  nth (Z.to_nat (m - 1)) monthNames "" ++ " " ++ str (digits (Z.to_N d)).

(** [d.setDate(d.getDate() - k)] on a date of time value [t]: the same
    local time of day [k] calendar days earlier. *)
Definition setDateBack (rt : runtime) (k : Z) (t : Z) : Z :=
  let moved := localTime rt t - k * msPerDay in
  moved - offsetAtLocal rt moved.

(** The filter predicate
    [new Date(assessment.timestamp).toDateString() === date.toDateString()];
    [None] is a thrown TypeError. *)
Definition sameDate (rt : runtime) (date : Z) (assessment : record)
  : option bool :=
  option_map
    (fun assessmentDate =>
       String.eqb (toDateString rt assessmentDate)
                  (toDateString rt (Some date)))
    (newDate rt (getOwn "timestamp" assessment)).

Record point : Type := {
  date : string;
  submissions : Z;
  t_critical : Z;
  t_high : Z
}.

(** The point of index [i], with the clock read at [now]. *)
Definition trendPoint (rt : runtime) (now : Z) (assessments : list record)
  (i : nat) : option point :=
  let date := setDateBack rt (29 - Z.of_nat i) now in
  match filterThrowing (sameDate rt date) assessments with
  | Some dayAssessments =>
      Some {| date := shortDate rt date;
              submissions := lengthZ dayAssessments;
              t_critical :=
                lengthZ (filter (fieldIs "severity" "Critical") dayAssessments);
              t_high :=
                lengthZ (filter (fieldIs "severity" "High") dayAssessments) |}
  | None => None
  end.

(** [Array.from({ length: 30 }, (_, i) => ...)]; the callback reads the
    clock anew for every point. *)
Definition trendData (rt : runtime) (clock : nat -> Z)
  (assessments : list record) : option (list point) :=
  Exporter.sequence
    (map (fun i => trendPoint rt (clock i) assessments i) (seq 0 30)).

(** *** Auxiliary notions *)

(** The number of the local day of a time value. *)
Definition localDay (rt : runtime) (t : Z) : Z := localTime rt t / msPerDay.

(** The timestamp of the record is a valid date of local day [day]. *)
Definition onDay (rt : runtime) (day : Z) (assessment : record) : bool :=
  match newDate rt (getOwn "timestamp" assessment) with
  | Some (Some t) => localDay rt t =? day
  | _ => false
  end.

(** Moving a date back by calendar days moves its local day back by as
    many days: the offset of local time at the moved date is the one
    that [setDate] has used. *)
Definition coherent (rt : runtime) (now : Z) : Prop :=
  forall k, 0 <= k <= 29 -> localDay rt (setDateBack rt k now) = localDay rt now - k.

Definition trendSample : list record :=
  [ [("timestamp", JStr "2025-07-01T08:30:00.000Z"); ("severity", JStr "High")];
    [("timestamp", JStr "2025-06-20T23:59:59.999Z"); ("severity", JStr "Critical")];
    [("timestamp", JStr "2025-06-20T00:00:00.000Z"); ("severity", JStr "Low")];
    [("timestamp", JStr "yesterday"); ("severity", JStr "High")];
    [("timestamp", JStr "2025-05-01T08:30:00.000Z"); ("severity", JStr "High")] ].

End Trend.

(** ** Loading the record sets ([EnhancedReportsSection.fetchAllData]) *)

Module Loader.
Import JS Exporter.

(** What a query of the store settles to: the promise resolves to
    [{ data, error }], where [data] is [null] or the list of rows and
    [error] is [null] or an error, or it rejects. *)
Inductive reply : Type :=
| Resolved (data : option (list record)) (error : bool)
| Rejected.

(** [data || []] *)
Definition orEmpty (data : option (list record)) : list record :=
  match data with
  | Some rows => rows
  | None => []
  end.

Record view : Type := { sets : Enhanced.state; loading : bool }.

(** The state of the component when it mounts. *)
Definition initialView : view :=
  {| sets := {| Enhanced.assessments := []; Enhanced.strategies := [];
                Enhanced.riskFactors := [] |};
     loading := true |}.

Inductive effect : Type :=
| ConsoleError
| Toast (title description : string) (v : variant).

(** [fetchAllData] on the replies of the three queries of
    [Promise.all]: the record sets are set when no query failed; an
    error is thrown to the [catch] block before any of them is set. *)
Definition fetchAllData (v : view) (assessmentsRes strategiesRes factorsRes : reply)
  : view * list effect :=
  match assessmentsRes, strategiesRes, factorsRes with
  | Resolved a false, Resolved s false, Resolved f false =>
      ({| sets := {| Enhanced.assessments := orEmpty a;
                     Enhanced.strategies := orEmpty s;
                     Enhanced.riskFactors := orEmpty f |};
          loading := false |}, [])
  | _, _, _ =>
      ({| sets := sets v; loading := false |},
       [ConsoleError;
        Toast "Data Fetch Error"
              "Failed to load analysis data. Please try again."
              Destructive])
  end.

(** A query failed: its promise rejected, or resolved with an error. *)
Definition failed (r : reply) : bool :=
  match r with
  | Resolved _ false => false
  | _ => true
  end.

End Loader.

(** ** A session with the submission form *)

Module Session.
Import Form.

(** The values of the [SelectItem]s of the three selects. *)
Definition AI_TOOLS : list string :=
  [ "ChatGPT/OpenAI"; "Tesla Autopilot"; "Facial Recognition Systems";
    "Google AI/Bard"; "Amazon Alexa"; "Netflix Recommendation";
    "Social Media Algorithms"; "Banking AI Systems";
    "Healthcare AI Diagnostics"; "Other" ].

Definition RISK_TYPES : list string :=
  [ "Trust Erosion"; "Over-reliance"; "Bias/Discrimination";
    "Privacy Concerns"; "Misinformation"; "Job Displacement";
    "Security Vulnerabilities"; "Lack of Transparency";
    "Algorithmic Manipulation"; "Other" ].

Definition SEVERITIES : list string := [ "Low"; "Medium"; "High"; "Critical" ].

(** What happens to the form: the user picks an item of a select, types
    in a field, ticks the box or attempts to submit, or the store
    answers the oldest insert that is in flight. *)
Inductive event : Type :=
| SelectTool (v : string)
| SelectRisk (v : string)
| SelectSeverity (v : string)
| TypeDescription (v : string)
| TypeEmail (v : string)
| ToggleReport (checked : bool)
| Submit
| StoreReply (error : bool).

(** The form, and the rows of the calls of [handleSubmit] that wait for
    the store at [await supabase.from('risk_assessments').insert(...)]. *)
Record session : Type := { form : formState; pending : list formData }.

Definition initial : session :=
  {| form := {| data := emptyForm; isSubmitting := false |}; pending := [] |}.

(** [setFormData({...formData, ...})] *)
Definition edit (s : session) (d : formData) : session :=
  {| form := {| data := d; isSubmitting := isSubmitting (form s) |};
     pending := pending s |}.

(** [handleSubmit] up to its [await]. *)
Definition begin (s : session) : session * list effect :=
  ({| form := {| data := data (form s); isSubmitting := true |};
      pending := (pending s ++ [data (form s)])%list |},
   [SetIsSubmitting true; Insert (data (form s))]).

(** [handleSubmit] from its [await] on, for the call that sent [row]. *)
Definition resume (s : session) (row : formData) (rest : list formData)
  (error : bool) : session * list effect :=
  if error then
    ({| form := {| data := data (form s); isSubmitting := false |};
        pending := rest |},
     [ConsoleError;
      Toast "Submission Error"
            "There was an error submitting your assessment. Please try again."
            true;
      SetIsSubmitting false])
  else
    ({| form := {| data := emptyForm; isSubmitting := false |};
        pending := rest |},
     [Toast "Risk Assessment Submitted"
            (if reportRequested row
             then "Your report will be sent to your email within 24 hours."
             else "Thank you for your submission!")
            false;
      SetFormData emptyForm;
      SetIsSubmitting false]).

Definition step (s : session) (e : event) : session * list effect :=
  let d := data (form s) in
  match e with
  | SelectTool v =>
      (edit s {| aiTool := v; riskType := riskType d; severity := severity d;
                 description := description d; email := email d;
                 reportRequested := reportRequested d |}, [])
  | SelectRisk v =>
      (edit s {| aiTool := aiTool d; riskType := v; severity := severity d;
                 description := description d; email := email d;
                 reportRequested := reportRequested d |}, [])
  | SelectSeverity v =>
      (edit s {| aiTool := aiTool d; riskType := riskType d; severity := v;
                 description := description d; email := email d;
                 reportRequested := reportRequested d |}, [])
  | TypeDescription v =>
      (edit s {| aiTool := aiTool d; riskType := riskType d;
                 severity := severity d; description := v; email := email d;
                 reportRequested := reportRequested d |}, [])
  | TypeEmail v =>
      (edit s {| aiTool := aiTool d; riskType := riskType d;
                 severity := severity d; description := description d;
                 email := v; reportRequested := reportRequested d |}, [])
  | ToggleReport checked =>
      (edit s {| aiTool := aiTool d; riskType := riskType d;
                 severity := severity d; description := description d;
                 email := email d; reportRequested := checked |}, [])
  | Submit => if submitDisabled (form s) then (s, []) else begin s
  | StoreReply error =>
      match pending s with
      | [] => (s, [])
      | row :: rest => resume s row rest error
      end
  end.

Fixpoint run (s : session) (events : list event) : session * list effect :=
  match events with
  | [] => (s, [])
  | e :: r =>
      let (s1, out1) := step s e in
      let (s2, out2) := run s1 r in
      (s2, (out1 ++ out2)%list)
  end.

(** *** Auxiliary notions *)

(** The events that the controls of the form can raise: a select hands
    the value of one of its items to [onValueChange]. *)
Definition possible (e : event) : Prop :=
  match e with
  | SelectTool v => In v AI_TOOLS
  | SelectRisk v => In v RISK_TYPES
  | SelectSeverity v => In v SEVERITIES
  | _ => True
  end.

(** The constraints of the table [risk_assessments] on the columns that
    the form sends: [ai_tool], [risk_type] and [severity] are text that
    is not null, and
    [CHECK (severity IN ('Low', 'Medium', 'High', 'Critical'))]. *)
Definition tableAccepts (row : formData) : bool :=
  existsb (String.eqb (severity row)) [ "Low"; "Medium"; "High"; "Critical" ].

(** The rows that a list of effects inserts. *)
Definition inserted (out : list effect) : list formData :=
  flat_map (fun e => match e with Insert row => [row] | _ => [] end) out.

(** The answers of the store among a list of events. *)
Definition isReply (e : event) : bool :=
  match e with StoreReply _ => true | _ => false end.

(** No select holds a value that is not one of its items. *)
Definition fromOptions (d : formData) : Prop :=
  (aiTool d = "" \/ In (aiTool d) AI_TOOLS) /\
  (riskType d = "" \/ In (riskType d) RISK_TYPES) /\
  (severity d = "" \/ In (severity d) SEVERITIES).

(** At most one insert waits for the store, and the form is submitting
    exactly while one does. *)
Definition settled (s : session) : Prop :=
  (List.length (pending s) <= 1)%nat /\
  isSubmitting (form s) = match pending s with [] => false | _ => true end.

Definition sampleEvents : list event :=
  [ SelectTool "ChatGPT/OpenAI"; Submit; SelectRisk "Misinformation";
    SelectSeverity "High"; Submit; Submit; TypeEmail "a@b.c";
    StoreReply true; Submit; StoreReply false; Submit ].

End Session.

(** ** Auxiliary notions for the exporters *)

Module ExportAux.
Import JS Exporter.

(** The fields of a record that the CSV line of [ReportsSection.tsx]
    reads. *)
Definition csvFields (a : record)
  : option value * option value * option value * option value :=
  (getOwn "timestamp" a, getOwn "aiTool" a, getOwn "riskType" a,
   getOwn "severity" a).

(** The member [k] of the member [section] of an object. *)
Definition member (section k : string) (o : object) : option value :=
  match getOwn section o with
  | Some (JObj props) => getOwn k props
  | _ => None
  end.

Definition sampleFactor : record :=
  [ ("risk_type", JStr "Trust Erosion");
    ("factor_name", JStr "Lack of Explainability");
    ("impact_level", JStr "Critical");
    ("frequency_percentage", JNum (NumFin 452 (-1))) ].

Definition loadedState : Enhanced.state :=
  {| Enhanced.assessments := [sampleAssessment];
     Enhanced.strategies := [sampleStrategy];
     Enhanced.riskFactors := [sampleFactor] |}.

Definition legacySample : list record :=
  [ [("timestamp", JStr "2025-06-27T11:57:15.123Z");
     ("aiTool", JStr "ChatGPT/OpenAI"); ("riskType", JStr "Misinformation");
     ("severity", JStr "High"); ("email", JStr "researcher@university.edu")] ].

Definition legacySampleNoEmail : list record :=
  [ [("timestamp", JStr "2025-06-27T11:57:15.123Z");
     ("aiTool", JStr "ChatGPT/OpenAI"); ("riskType", JStr "Misinformation");
     ("severity", JStr "High"); ("description", JStr "none")] ].

End ExportAux.

(** * Properties *)

Local Open Scope list_scope.

(** ** Plain data objects *)

Module JSFacts.
Import JS.

Section Props.
Context {A : Type}.
Implicit Types (o : list (string * A)) (k : string) (v : A).

Lemma getOwn_replace_same k v o :
  hasOwn k o = true -> getOwn k (replace k v o) = Some v.
Proof.
  unfold hasOwn. induction o as [|[k' v'] r IH]; simpl; [discriminate|].
  destruct (String.eqb k k') eqn:E; simpl.
  - apply String.eqb_eq in E. subst. now rewrite String.eqb_refl.
  - rewrite E. exact IH.
Qed.

Lemma getOwn_replace_other k k' v o :
  k' <> k -> getOwn k' (replace k v o) = getOwn k' o.
Proof.
  intros Hne. induction o as [|[k0 v0] r IH]; simpl; [reflexivity|].
  destruct (String.eqb k k0) eqn:E; simpl.
  - apply String.eqb_eq in E. subst k0.
    apply String.eqb_neq in Hne. now rewrite Hne.
  - now rewrite IH.
Qed.

Lemma getOwn_define_same k v o :
  hasOwn k o = false -> getOwn k (define k v o) = Some v.
Proof.
  unfold hasOwn. induction o as [|[k' v'] r IH]; simpl.
  - now rewrite String.eqb_refl.
  - destruct (String.eqb k k') eqn:E; [discriminate|]. intros H.
    destruct (arrayIndex k) as [i|], (arrayIndex k') as [i'|]; simpl;
      try destruct (i <? i')%N; simpl;
      rewrite ?String.eqb_refl, ?E; auto.
Qed.

Lemma getOwn_define_other k k' v o :
  k' <> k -> getOwn k' (define k v o) = getOwn k' o.
Proof.
  intros Hne. apply String.eqb_neq in Hne.
  induction o as [|[k0 v0] r IH]; simpl.
  - now rewrite Hne.
  - destruct (arrayIndex k) as [i|], (arrayIndex k0) as [i'|]; simpl;
      try destruct (i <? i')%N; simpl;
      rewrite ?Hne, ?IH; auto.
Qed.

Lemma getOwn_setOwn_same k v o : getOwn k (setOwn k v o) = Some v.
Proof.
  unfold setOwn. destruct (hasOwn k o) eqn:E.
  - now apply getOwn_replace_same.
  - now apply getOwn_define_same.
Qed.

Lemma getOwn_setOwn_other k k' v o :
  k' <> k -> getOwn k' (setOwn k v o) = getOwn k' o.
Proof.
  intros. unfold setOwn. destruct (hasOwn k o).
  - now apply getOwn_replace_other.
  - now apply getOwn_define_other.
Qed.

Lemma define_perm k v o : Permutation (define k v o) ((k, v) :: o).
Proof.
  induction o as [|[k' v'] r IH]; simpl; [reflexivity|].
  destruct (arrayIndex k) as [i|], (arrayIndex k') as [i'|];
    try destruct (i <? i')%N; try reflexivity;
    (etransitivity; [apply perm_skip, IH | apply perm_swap]).
Qed.

End Props.

Lemma define_no_index {A} k (v : A) o :
  arrayIndex k = None -> define k v o = o ++ [(k, v)].
Proof.
  intros H. induction o as [|[k' v'] r IH]; simpl; [reflexivity|].
  rewrite H. now rewrite IH.
Qed.

Lemma replace_keys {A} k (v : A) o : map fst (replace k v o) = map fst o.
Proof.
  induction o as [|[k' v'] r IH]; simpl; [reflexivity|].
  destruct (String.eqb k k'); simpl; [reflexivity|now rewrite IH].
Qed.

Lemma hasOwn_keys {A} k (o : list (string * A)) :
  hasOwn k o = existsb (String.eqb k) (map fst o).
Proof.
  unfold hasOwn. induction o as [|[k' v'] r IH]; simpl; [reflexivity|].
  destruct (String.eqb k k'); simpl; [reflexivity|exact IH].
Qed.

End JSFacts.

(** ** Rounding to the nearest double *)

Module DoubleFacts.
Import Double.
Local Open Scope Q_scope.

Lemma pow2_pos e : 0 < pow2 e.
Proof. apply Qpower_0_lt. reflexivity. Qed.

Lemma pow2_add a b : pow2 (a + b) == pow2 a * pow2 b.
Proof. apply Qpower_plus. discriminate. Qed.

Lemma pow2_le a b : (a <= b)%Z -> pow2 a <= pow2 b.
Proof. intros H. apply Qpower_le_compat_l; [exact H|discriminate]. Qed.

Lemma pow2_lt a b : (a < b)%Z -> pow2 a < pow2 b.
Proof. intros H. apply Qpower_lt_compat_l; [exact H|reflexivity]. Qed.

Lemma pow2_lt_inv a b : pow2 a < pow2 b -> (a < b)%Z.
Proof. intros H. apply (Qpower_lt_compat_l_inv (2 # 1)); [exact H|reflexivity]. Qed.

Lemma pow2_Z e : (0 <= e)%Z -> pow2 e == inject_Z (2 ^ e).
Proof. intros H. unfold pow2. now rewrite Zpower_Qpower. Qed.

Lemma pow2_succ e : pow2 (e + 1) == 2 * pow2 e.
Proof. rewrite pow2_add. change (pow2 1) with (2 # 1). ring. Qed.

(** *** The binary logarithm *)

Lemma ilog2_spec x : 0 < x -> pow2 (ilog2 x) <= x /\ x < pow2 (ilog2 x + 1).
Proof.
  intros Hx. destruct x as [p q]. unfold ilog2. cbn [Qnum Qden].
  assert (Hp : (0 < p)%Z).
  { unfold Qlt in Hx. cbn in Hx. lia. }
  set (lp := Z.log2 p). set (lq := Z.log2 (Z.pos q)).
  destruct (Z.log2_spec p Hp) as [Hp1 Hp2]. fold lp in Hp1, Hp2.
  destruct (Z.log2_spec (Z.pos q) (Pos2Z.is_pos q)) as [Hq1 Hq2].
  fold lq in Hq1, Hq2.
  assert (Hlp : (0 <= lp)%Z) by apply Z.log2_nonneg.
  assert (Hlq : (0 <= lq)%Z) by apply Z.log2_nonneg.
  assert (Ex : p # q == inject_Z p / inject_Z (Z.pos q)) by apply Qmake_Qdiv.
  assert (HQ : 0 < inject_Z (Z.pos q)) by reflexivity.
  assert (Hup : p # q < pow2 (lp - lq + 1)).
  { rewrite Ex. apply Qlt_shift_div_r; [exact HQ|].
    apply Qlt_le_trans with (pow2 (lp - lq + 1) * pow2 lq).
    - rewrite <- pow2_add. replace (lp - lq + 1 + lq)%Z with (Z.succ lp) by lia.
      rewrite pow2_Z by lia. rewrite <- Zlt_Qlt. exact Hp2.
    - apply Qmult_le_l; [apply pow2_pos|].
      rewrite pow2_Z by lia. rewrite <- Zle_Qle. exact Hq1. }
  assert (Hlo : pow2 (lp - lq - 1) < p # q).
  { rewrite Ex. apply Qlt_shift_div_l; [exact HQ|].
    apply Qlt_le_trans with (pow2 (lp - lq - 1) * pow2 (lq + 1)).
    - apply Qmult_lt_l; [apply pow2_pos|].
      rewrite pow2_Z by lia. rewrite <- Zlt_Qlt.
      replace (lq + 1)%Z with (Z.succ lq) by lia. exact Hq2.
    - rewrite <- pow2_add. replace (lp - lq - 1 + (lq + 1))%Z with lp by lia.
      rewrite pow2_Z by lia. rewrite <- Zle_Qle. exact Hp1. }
  destruct (Qle_bool (pow2 (lp - lq)) (p # q)) eqn:E.
  - apply Qle_bool_iff in E. split; assumption.
  - split; [apply Qlt_le_weak; exact Hlo|].
    replace (lp - lq - 1 + 1)%Z with (lp - lq)%Z by lia.
    apply Qnot_le_lt. intros H. apply Qle_bool_iff in H. congruence.
Qed.

Lemma ilog2_le x y : 0 < x -> x <= y -> (ilog2 x <= ilog2 y)%Z.
Proof.
  intros Hx Hxy.
  assert (Hy : 0 < y) by (eapply Qlt_le_trans; eassumption).
  destruct (ilog2_spec x Hx) as [H1 _]. destruct (ilog2_spec y Hy) as [_ H2].
  assert (H : pow2 (ilog2 x) < pow2 (ilog2 y + 1)).
  { eapply Qle_lt_trans; [exact H1|]. eapply Qle_lt_trans; eassumption. }
  apply pow2_lt_inv in H. lia.
Qed.

Lemma ilog2_below x k : 0 < x -> x < pow2 k -> (ilog2 x < k)%Z.
Proof.
  intros Hx Hk. destruct (ilog2_spec x Hx) as [H1 _].
  apply pow2_lt_inv. eapply Qle_lt_trans; eassumption.
Qed.

(** *** The exponent *)

Lemma exponent_spec x :
  0 < x ->
  (-1074 <= exponent x)%Z /\ x < pow2 (exponent x + 53) /\
  ((-1074 < exponent x)%Z -> pow2 (exponent x + 52) <= x).
Proof.
  intros Hx. destruct (ilog2_spec x Hx) as [H1 H2]. unfold exponent.
  split; [lia|]. split.
  - eapply Qlt_le_trans; [exact H2|]. apply pow2_le. lia.
  - intros H. replace (Z.max (ilog2 x - 52) (-1074) + 52)%Z with (ilog2 x) by lia.
    exact H1.
Qed.

Lemma exponent_le x y : 0 < x -> x <= y -> (exponent x <= exponent y)%Z.
Proof.
  intros Hx Hxy. pose proof (ilog2_le x y Hx Hxy). unfold exponent. lia.
Qed.

Lemma exponent_below x k :
  0 < x -> x < pow2 k -> (-1021 <= k)%Z -> (exponent x <= k - 53)%Z.
Proof.
  intros Hx Hk Hb. pose proof (ilog2_below x k Hx Hk). unfold exponent. lia.
Qed.

(** *** The nearest integer *)

Lemma nearestEven_close t :
  inject_Z (nearestEven t) - (1 # 2) <= t /\ t <= inject_Z (nearestEven t) + (1 # 2).
Proof.
  unfold nearestEven.
  pose proof (Qfloor_le t) as H1. pose proof (Qlt_floor t) as H2.
  rewrite inject_Z_plus in H2. change (inject_Z 1) with 1 in H2.
  destruct (Qcompare_spec (t - inject_Z (Qfloor t)) (1 # 2)) as [E|E|E].
  - destruct (Z.even (Qfloor t)); rewrite ?inject_Z_plus;
      change (inject_Z 1) with 1; split; lra.
  - split; lra.
  - rewrite inject_Z_plus. change (inject_Z 1) with 1. split; lra.
Qed.

Lemma nearestEven_floor t :
  (Qfloor t <= nearestEven t <= Qfloor t + 1)%Z.
Proof.
  unfold nearestEven.
  destruct (Qcompare _ _); [destruct (Z.even _)| |]; lia.
Qed.

Lemma nearestEven_Z z : nearestEven (inject_Z z) = z.
Proof.
  unfold nearestEven. rewrite Qfloor_Z.
  destruct (Qcompare_spec (inject_Z z - inject_Z z) (1 # 2)) as [E|E|E];
    [lra|reflexivity|lra].
Qed.

Lemma nearestEven_mono s t : s <= t -> (nearestEven s <= nearestEven t)%Z.
Proof.
  intros Hst. pose proof (Qfloor_resp_le s t Hst) as Hf.
  pose proof (nearestEven_floor s) as Hs. pose proof (nearestEven_floor t) as Ht.
  destruct (Z.eq_dec (Qfloor s) (Qfloor t)) as [E|E]; [|lia].
  unfold nearestEven in *. rewrite E in *.
  destruct (Qcompare_spec (s - inject_Z (Qfloor t)) (1 # 2)) as [Es|Es|Es];
    destruct (Qcompare_spec (t - inject_Z (Qfloor t)) (1 # 2)) as [Et|Et|Et];
    try lia; try lra.
Qed.

Lemma nearestEven_comp s t : s == t -> nearestEven s = nearestEven t.
Proof.
  intros H. apply Z.le_antisymm; apply nearestEven_mono; rewrite H; apply Qle_refl.
Qed.

(** *** Rounding a positive number *)

Lemma scaled_le x y e : x <= y -> x / pow2 e <= y / pow2 e.
Proof.
  intros H. unfold Qdiv. apply Qmult_le_compat_r; [exact H|].
  apply Qinv_le_0_compat, Qlt_le_weak, pow2_pos.
Qed.

Lemma scaled_pow2 a e : pow2 a / pow2 e == pow2 (a - e).
Proof.
  unfold pow2. rewrite Qpower_minus by discriminate. reflexivity.
Qed.

Lemma nearest_mono x y : 0 < x -> x <= y -> nearest x <= nearest y.
Proof.
  intros Hx Hxy.
  assert (Hy : 0 < y) by (eapply Qlt_le_trans; eassumption).
  destruct (exponent_spec x Hx) as (Hx0 & Hx1 & Hx2).
  destruct (exponent_spec y Hy) as (Hy0 & Hy1 & Hy2).
  pose proof (exponent_le x y Hx Hxy) as Hle.
  unfold nearest.
  destruct (Z.eq_dec (exponent x) (exponent y)) as [E|E].
  - rewrite E. apply Qmult_le_compat_r; [|apply Qlt_le_weak, pow2_pos].
    rewrite <- Zle_Qle. apply nearestEven_mono, scaled_le, Hxy.
  - assert (Hlt : (exponent x < exponent y)%Z) by lia.
    apply Qle_trans with (pow2 (exponent y + 52)).
    + apply Qle_trans with (inject_Z (2 ^ 53) * pow2 (exponent x)).
      * apply Qmult_le_compat_r; [|apply Qlt_le_weak, pow2_pos].
        rewrite <- Zle_Qle. rewrite <- (nearestEven_Z (2 ^ 53)).
        apply nearestEven_mono. rewrite <- pow2_Z by lia.
        apply Qlt_le_weak. apply Qlt_shift_div_r; [apply pow2_pos|].
        rewrite <- pow2_add. replace (53 + exponent x)%Z with (exponent x + 53)%Z by lia.
        exact Hx1.
      * rewrite <- pow2_Z by lia. rewrite <- pow2_add. apply pow2_le. lia.
    + apply Qle_trans with (inject_Z (2 ^ 52) * pow2 (exponent y)).
      * rewrite <- pow2_Z by lia. rewrite <- pow2_add.
        apply pow2_le. lia.
      * apply Qmult_le_compat_r; [|apply Qlt_le_weak, pow2_pos].
        rewrite <- Zle_Qle. rewrite <- (nearestEven_Z (2 ^ 52)).
        apply nearestEven_mono. rewrite <- pow2_Z by lia.
        apply Qle_shift_div_l; [apply pow2_pos|].
        rewrite <- pow2_add. replace (52 + exponent y)%Z with (exponent y + 52)%Z by lia.
        apply Hy2. lia.
Qed.

Lemma nearest_comp x y : 0 < x -> x == y -> nearest x == nearest y.
Proof.
  intros Hx H.
  assert (Hy : 0 < y) by (rewrite <- H; exact Hx).
  apply Qle_antisym; apply nearest_mono; try assumption;
    rewrite H; apply Qle_refl.
Qed.

Lemma nearest_error x :
  0 < x ->
  nearest x - pow2 (exponent x - 1) <= x /\ x <= nearest x + pow2 (exponent x - 1).
Proof.
  intros Hx. unfold nearest. set (e := exponent x).
  pose proof (nearestEven_close (x / pow2 e)) as [H1 H2].
  pose proof (pow2_pos e) as He.
  assert (Hh : pow2 (e - 1) == (1 # 2) * pow2 e).
  { replace e with (e - 1 + 1)%Z at 2 by lia. rewrite pow2_succ. field. }
  assert (Exx : x == x / pow2 e * pow2 e).
  { field. intros H. rewrite H in He. discriminate. }
  set (t := x / pow2 e) in *. set (m := inject_Z (nearestEven t)) in *.
  rewrite Hh. split.
  - rewrite Exx. setoid_replace (m * pow2 e - (1 # 2) * pow2 e)
      with ((m - (1 # 2)) * pow2 e) by ring.
    apply Qmult_le_compat_r; [exact H1|apply Qlt_le_weak, He].
  - rewrite Exx at 1. setoid_replace (m * pow2 e + (1 # 2) * pow2 e)
      with ((m + (1 # 2)) * pow2 e) by ring.
    apply Qmult_le_compat_r; [exact H2|apply Qlt_le_weak, He].
Qed.

Lemma nearest_nonneg x : 0 < x -> 0 <= nearest x.
Proof.
  intros Hx. unfold nearest.
  apply Qmult_le_0_compat; [|apply Qlt_le_weak, pow2_pos].
  change 0 with (inject_Z 0). rewrite <- Zle_Qle.
  rewrite <- (nearestEven_Z 0). apply nearestEven_mono.
  apply Qle_shift_div_l; [apply pow2_pos|]. rewrite Qmult_0_l.
  apply Qlt_le_weak, Hx.
Qed.

(** *** Rounding a number between zero and a double *)

(** A number between 0 and a double [b = 2^k] or below rounds to a double
    between 0 and [b], at most half a unit in the last place away. *)
Lemma round_between x b k :
  0 <= x -> x <= b -> 0 < b -> nearest b == b ->
  b < pow2 k -> (-1021 <= k <= 1024)%Z ->
  exists r, round x = Finite r /\ 0 <= r /\ r <= b /\
            r - pow2 (k - 54) <= x /\ x <= r + pow2 (k - 54).
Proof.
  intros H0 Hb Hbpos Hfix Hk Hkr. unfold round.
  destruct (Qcompare_spec x 0) as [E|E|E].
  - exists 0. pose proof (pow2_pos (k - 54)).
    repeat split; try lra.
  - lra.
  - assert (Hr : nearest x <= b).
    { rewrite <- Hfix. now apply nearest_mono. }
    assert (Hov : Qle_bool (pow2 1024) (nearest x) = false).
    { destruct (Qle_bool (pow2 1024) (nearest x)) eqn:Eo; [|reflexivity].
      apply Qle_bool_iff in Eo.
      assert (pow2 k <= pow2 1024) by (apply pow2_le; lia). lra. }
    rewrite Hov. exists (nearest x).
    destruct (nearest_error x E) as [H1 H2].
    assert (He : pow2 (exponent x - 1) <= pow2 (k - 54)).
    { apply pow2_le.
      assert (x < pow2 k) by lra.
      pose proof (exponent_below x k E H). lia. }
    repeat split; try lra. now apply nearest_nonneg.
Qed.

End DoubleFacts.

(** ** The reducer counts *)

Module AggregatorFacts.
Import JS Aggregator JSFacts.

Lemma sumValues_define k n (acc : counts) s :
  sumValues acc = Some s ->
  sumValues (define k (Num n) acc) = Some (n + s).
Proof.
  revert s. induction acc as [|[k' c] r IH]; simpl; intros s Hs.
  - inversion Hs. reflexivity.
  - destruct c as [n'|]; [|discriminate].
    destruct (sumValues r) as [s'|] eqn:Er; [|discriminate].
    inversion Hs; subst s.
    destruct (arrayIndex k) as [i|], (arrayIndex k') as [i'|];
      try destruct (i <? i')%N; simpl;
      rewrite ?Er, ?(IH s' eq_refl); f_equal; lia.
Qed.

Lemma sumValues_replace k n n' (acc : counts) s :
  getOwn k acc = Some (Num n) ->
  sumValues acc = Some s ->
  sumValues (replace k (Num n') acc) = Some (s - n + n').
Proof.
  revert s. induction acc as [|[k' c] r IH]; simpl; intros s Hg Hs.
  - discriminate.
  - destruct c as [m|]; [|discriminate].
    destruct (sumValues r) as [s'|] eqn:Er; [|discriminate].
    inversion Hs; subst s.
    destruct (String.eqb k k') eqn:E; simpl.
    + inversion Hg; subst m. rewrite Er. f_equal. lia.
    + rewrite (IH s' Hg eq_refl). f_equal. lia.
Qed.

Lemma countBy_snoc field l r :
  countBy field (l ++ [r]) = countStep field (countBy field l) r.
Proof. unfold countBy. now rewrite fold_left_app. Qed.

Lemma occurrences_nonneg field k l : 0 <= occurrences field k l.
Proof. unfold occurrences. lia. Qed.

Lemma occurrences_snoc field k l r :
  occurrences field k (l ++ [r]) =
  occurrences field k l +
  (match bucket field r with
   | Some k' => if String.eqb k k' then 1 else 0
   | None => 0
   end).
Proof.
  unfold occurrences. rewrite filter_app, length_app. simpl.
  destruct (bucket field r) as [k'|]; simpl; [|lia].
  destruct (String.eqb k k'); simpl; lia.
Qed.

Lemma inherited_proto k : inherited k = false -> String.eqb k "__proto__" = false.
Proof.
  unfold inherited, protoNames. simpl. intros H.
  repeat (apply orb_false_elim in H; destruct H as [? H]). assumption.
Qed.

(** On plain keys the reducer never throws and stores, under each key,
    the number of records of that bucket. *)
Lemma countBy_counts field l :
  plainKeys field l ->
  exists acc,
    countBy field l = Some acc /\
    (forall k, getOwn k acc =
               if occurrences field k l =? 0 then None
               else Some (Num (occurrences field k l))) /\
    sumValues acc = Some (Z.of_nat (List.length l)).
Proof.
  induction l as [|r l IH] using rev_ind; intros Hp.
  - exists []. repeat split.
  - destruct IH as (acc & Hacc & Hget & Hsum).
    { intros x Hx. apply Hp, in_or_app. now left. }
    destruct (Hp r) as (k & Hk & Hinh). { apply in_or_app. right. now left. }
    rewrite countBy_snoc, Hacc. unfold countStep. fold (bucket field r).
    rewrite Hk. eexists. split; [reflexivity|].
    unfold writeCount. rewrite (inherited_proto _ Hinh).
    unfold readCount. pose proof (Hget k) as Hgk.
    pose proof (occurrences_nonneg field k l) as Hnn.
    split.
    + intros k'. rewrite occurrences_snoc, Hk.
      destruct (String.eqb k' k) eqn:E.
      * apply String.eqb_eq in E. subst k'.
        rewrite getOwn_setOwn_same, Hgk.
        destruct (occurrences field k l =? 0) eqn:E0.
        -- rewrite Hinh. simpl. apply Z.eqb_eq in E0. rewrite E0. reflexivity.
        -- simpl. rewrite E0.
           destruct (occurrences field k l + 1 =? 0) eqn:E1; [lia|reflexivity].
      * apply String.eqb_neq in E.
        rewrite getOwn_setOwn_other by assumption.
        rewrite Z.add_0_r. apply Hget.
    + rewrite length_app. simpl. rewrite Hgk. unfold setOwn, hasOwn. rewrite Hgk.
      destruct (occurrences field k l =? 0) eqn:E0.
      * rewrite Hinh. simpl. rewrite (sumValues_define _ _ _ _ Hsum). f_equal. lia.
      * simpl. rewrite E0.
        rewrite (sumValues_replace _ _ _ _ _ Hgk Hsum). f_equal. lia.
Qed.

(** *** The stable sort by descending count *)

Lemma byCountDesc_num x y :
  isNum x -> isNum y -> byCountDesc x y = cnt y - cnt x.
Proof.
  intros [a Ha] [b Hb]. unfold byCountDesc, cnt. now rewrite Ha, Hb.
Qed.

Lemma insertBy_perm {A} (cmp : A -> A -> Z) x l :
  Permutation (insertBy cmp x l) (x :: l).
Proof.
  induction l as [|y r IH]; simpl; [reflexivity|].
  destruct (0 <? cmp x y); [|reflexivity].
  etransitivity; [apply perm_skip, IH | apply perm_swap].
Qed.

Lemma sortBy_perm {A} (cmp : A -> A -> Z) l : Permutation (sortBy cmp l) l.
Proof.
  induction l as [|x r IH]; simpl; [reflexivity|].
  etransitivity; [apply insertBy_perm | now apply perm_skip].
Qed.

Lemma insertBy_descending x l :
  isNum x -> Forall isNum l -> descending l ->
  descending (insertBy byCountDesc x l).
Proof.
  intros Hx Hl Hs. induction l as [|y r IH]; simpl.
  - repeat constructor.
  - inversion Hl as [|? ? Hy Hr]; subst. inversion Hs as [|? ? Hsr Hall]; subst.
    rewrite (byCountDesc_num _ _ Hx Hy).
    destruct (0 <? cnt y - cnt x) eqn:E.
    + apply Z.ltb_lt in E. constructor; [now apply IH|].
      rewrite (Forall_forall). intros z Hz.
      apply (Permutation_in _ (insertBy_perm byCountDesc x r)) in Hz.
      destruct Hz as [<-|Hz]; [lia|].
      rewrite Forall_forall in Hall. now apply Hall.
    + apply Z.ltb_ge in E. constructor; [assumption|].
      constructor; [lia|].
      rewrite Forall_forall in Hall |- *. intros z Hz.
      specialize (Hall z Hz). simpl in Hall. lia.
Qed.

Lemma sortBy_isNum l : Forall isNum l -> Forall isNum (sortBy byCountDesc l).
Proof.
  intros H. rewrite Forall_forall in H |- *. intros x Hx.
  apply H. eapply Permutation_in; [apply sortBy_perm | exact Hx].
Qed.

Lemma sortBy_descending l :
  Forall isNum l -> descending (sortBy byCountDesc l).
Proof.
  induction l as [|x r IH]; simpl; intros H.
  - constructor.
  - inversion H; subst. apply insertBy_descending; auto using sortBy_isNum.
Qed.

(** Stability: entries of one count keep their relative order. *)
Lemma insertBy_stable c x l :
  isNum x -> Forall isNum l ->
  filter (fun e => cnt e =? c) (insertBy byCountDesc x l) =
  filter (fun e => cnt e =? c) (x :: l).
Proof.
  intros Hx Hl. induction l as [|y r IH]; [reflexivity|].
  inversion Hl as [|? ? Hy Hr]; subst. simpl insertBy.
  rewrite (byCountDesc_num _ _ Hx Hy).
  destruct (0 <? cnt y - cnt x) eqn:E; [|reflexivity].
  apply Z.ltb_lt in E.
  change (filter (fun e => cnt e =? c) (y :: insertBy byCountDesc x r))
    with (if cnt y =? c
          then y :: filter (fun e => cnt e =? c) (insertBy byCountDesc x r)
          else filter (fun e => cnt e =? c) (insertBy byCountDesc x r)).
  rewrite (IH Hr). simpl.
  destruct (cnt y =? c) eqn:Ey, (cnt x =? c) eqn:Ex; try reflexivity.
  apply Z.eqb_eq in Ey, Ex. lia.
Qed.

Lemma sortBy_stable c l :
  Forall isNum l ->
  filter (fun e => cnt e =? c) (sortBy byCountDesc l) =
  filter (fun e => cnt e =? c) l.
Proof.
  induction l as [|x r IH]; intros H; [reflexivity|].
  inversion H; subst. simpl sortBy.
  rewrite insertBy_stable by auto using sortBy_isNum.
  simpl. now rewrite IH.
Qed.

Lemma descending_split l1 l2 a b :
  descending (l1 ++ l2) -> In a l1 -> In b l2 -> cnt b <= cnt a.
Proof.
  induction l1 as [|x r IH]; simpl; intros Hs Ha Hb; [contradiction|].
  inversion Hs as [|? ? Hsr Hall]; subst. destruct Ha as [<-|Ha].
  - rewrite Forall_forall in Hall. apply Hall, in_or_app. now right.
  - now apply IH.
Qed.

(** *** Enumeration order of the grouped object *)




Lemma firstSeen_snoc field l r :
  firstSeen field (l ++ [r]) =
  match bucket field r with
  | Some k => if existsb (String.eqb k) (firstSeen field l)
              then firstSeen field l else firstSeen field l ++ [k]
  | None => firstSeen field l
  end.
Proof. unfold firstSeen. now rewrite fold_left_app. Qed.

Lemma countBy_order field l acc :
  plainKeys field l -> noIndexKeys field l ->
  countBy field l = Some acc ->
  map fst (entries acc) = firstSeen field l.
Proof.
  unfold entries. revert acc.
  induction l as [|r l IH] using rev_ind; intros acc Hp Hn Hc.
  - inversion Hc. reflexivity.
  - rewrite countBy_snoc in Hc. rewrite firstSeen_snoc.
    destruct (countBy field l) as [acc0|] eqn:E0; [|discriminate].
    assert (IH' : map fst acc0 = firstSeen field l).
    { apply IH; auto.
      - intros x Hx. apply Hp, in_or_app. now left.
      - intros x k Hx. apply Hn, in_or_app. now left. }
    destruct (Hp r) as (k & Hk & Hinh). { apply in_or_app. right. now left. }
    unfold countStep in Hc. fold (bucket field r) in Hc. rewrite Hk in Hc |- *.
    inversion Hc; subst acc. clear Hc.
    unfold writeCount. rewrite (inherited_proto _ Hinh).
    unfold setOwn. rewrite <- IH', <- hasOwn_keys.
    destruct (hasOwn k acc0).
    + apply replace_keys.
    + rewrite define_no_index, map_app; [reflexivity|].
      apply (Hn r k); [apply in_or_app; right; now left | assumption].
Qed.

(** *** Severity aggregation *)

(** C5, as amended. On every list of records whose severity coerces to a
    property key that [Object.prototype] does not define, the severity
    reducer does not throw; each record falls in the one bucket named by
    the string form of its severity (a missing severity in the bucket
    "undefined"); each bucket holds the number of its records; and the
    values add up to the length of the list. *)
Theorem severity_counts_partition (assessments : list record) :
  plainKeys "severity" assessments ->
  exists acc,
    severityData assessments = Some acc /\
    (forall k,
       getOwn k acc =
       if occurrences "severity" k assessments =? 0 then None
       else Some (Num (occurrences "severity" k assessments))) /\
    (forall r, In r assessments ->
       exists k, bucket "severity" r = Some k /\
                 getOwn k acc = Some (Num (occurrences "severity" k assessments)) /\
                 1 <= occurrences "severity" k assessments /\
                 (getOwn "severity" r = None -> k = "undefined")) /\
    sumValues acc = Some (Z.of_nat (List.length assessments)).
Proof.
  intros Hp. destruct (countBy_counts _ _ Hp) as (acc & Hacc & Hget & Hsum).
  exists acc. repeat split; try assumption.
  intros r Hr. destruct (Hp r Hr) as (k & Hk & _). exists k.
  assert (Hpos : 1 <= occurrences "severity" k assessments).
  { unfold occurrences. clear - Hr Hk.
    induction assessments as [|x l IH]; [contradiction|]. simpl.
    destruct Hr as [->|Hr].
    - rewrite Hk, String.eqb_refl. simpl. lia.
    - specialize (IH Hr). destruct (bucket "severity" x) as [k'|]; [|exact IH].
      destruct (String.eqb k k'); simpl; lia. }
  repeat split; try assumption.
  - rewrite Hget. destruct (occurrences "severity" k assessments =? 0) eqn:E;
      [apply Z.eqb_eq in E; lia | reflexivity].
  - intros Hnone. unfold bucket in Hk. rewrite Hnone in Hk. simpl in Hk.
    now inversion Hk.
Qed.

Lemma severitySample_plain : plainKeys "severity" severitySample.
Proof.
  intros r Hr. simpl in Hr.
  destruct Hr as [<-|[<-|[<-|[<-|[]]]]]; eexists; split; reflexivity.
Defined.

Lemma severity_counts_partition_witness :
  plainKeys "severity" severitySample /\
  exists acc,
    severityData severitySample = Some acc /\
    (forall k,
       getOwn k acc =
       if occurrences "severity" k severitySample =? 0 then None
       else Some (Num (occurrences "severity" k severitySample))) /\
    (forall r, In r severitySample ->
       exists k, bucket "severity" r = Some k /\
                 getOwn k acc = Some (Num (occurrences "severity" k severitySample)) /\
                 1 <= occurrences "severity" k severitySample /\
                 (getOwn "severity" r = None -> k = "undefined")) /\
    sumValues acc = Some (Z.of_nat (List.length severitySample)).
Proof.
  split; [exact severitySample_plain|].
  exact (severity_counts_partition severitySample severitySample_plain).
Defined.

(** C5, as stated, fails: a record without a severity is counted under
    the key "undefined", and the bucket of the empty string stays
    empty. *)
Lemma severity_missing_not_empty_bucket :
  severityData [ [("aiTool", JStr "Z")] ] = Some [("undefined", Num 1)] /\
  getOwn "" [("undefined", Num 1)] = None.
Proof. split; reflexivity. Qed.

(** The side conditions of the amended C5 are needed: a severity named
    like an inherited accessor is counted nowhere, one named like an
    inherited method is not counted by a number, and a severity object
    that shadows [toString] makes the reducer throw. *)
Example severity_proto_uncounted :
  severityData [ [("severity", JStr "__proto__")] ] = Some [].
Proof. reflexivity. Qed.

Example severity_inherited_text :
  severityData [ [("severity", JStr "constructor")] ]
  = Some [("constructor", Text)].
Proof. reflexivity. Qed.

Example severity_unprintable_throws :
  severityData [ [("severity", JObj [("toString", JNull)])] ] = None.
Proof. reflexivity. Qed.

(** *** Top tools *)

Lemma counts_entries field l acc :
  (forall k, getOwn k acc =
             if occurrences field k l =? 0 then None
             else Some (Num (occurrences field k l))) ->
  NoDup (map fst acc) ->
  forall e, In e acc -> snd e = Num (occ field l e).
Proof.
  intros Hget. unfold occ.
  assert (Hin : forall (o : counts) e, NoDup (map fst o) -> In e o ->
                          getOwn (fst e) o = Some (snd e)).
  { induction o as [|[k c] r IH]; simpl; intros e Hnd He; [contradiction|].
    inversion Hnd as [|? ? Hnot Hnd']; subst. destruct He as [<-|He]; simpl.
    - now rewrite String.eqb_refl.
    - destruct (String.eqb (fst e) k) eqn:E.
      + apply String.eqb_eq in E. subst k. exfalso. apply Hnot.
        now apply in_map.
      + now apply IH. }
  intros Hnd e He. specialize (Hin acc e Hnd He). rewrite Hget in Hin.
  destruct (occurrences field (fst e) l =? 0); [discriminate|].
  now inversion Hin.
Qed.

Lemma setOwn_nodup {A} k (v : A) o :
  NoDup (map fst o) -> NoDup (map fst (setOwn k v o)).
Proof.
  intros Hnd. unfold setOwn. destruct (hasOwn k o) eqn:E.
  - now rewrite replace_keys.
  - apply (Permutation_NoDup (l := k :: map fst o)).
    + symmetry. change (k :: map fst o) with (map fst ((k, v) :: o)).
      apply Permutation_map, define_perm.
    + constructor; [|assumption].
      rewrite hasOwn_keys in E. intros Hin.
      assert (existsb (String.eqb k) (map fst o) = true); [|congruence].
      apply existsb_exists. exists k. split; [assumption|apply String.eqb_refl].
Qed.

Lemma countBy_nodup field l acc :
  countBy field l = Some acc -> NoDup (map fst acc).
Proof.
  revert acc. induction l as [|r l IH] using rev_ind; intros acc Hc.
  - inversion Hc. constructor.
  - rewrite countBy_snoc in Hc.
    destruct (countBy field l) as [acc0|]; [|discriminate].
    unfold countStep in Hc.
    destruct (toPropertyKey (getOwn field r)) as [k|]; [|discriminate].
    inversion Hc. unfold writeCount.
    destruct (String.eqb k "__proto__"); [now apply IH|].
    now apply setOwn_nodup, IH.
Qed.

Lemma firstn_skipn_split {A} n (l : list A) a b (R : A -> A -> Prop) :
  StronglySorted R l -> In a (firstn n l) -> In b (skipn n l) -> R a b.
Proof.
  intros Hs. rewrite <- (firstn_skipn n l) in Hs. revert Hs.
  generalize (firstn n l) as l1, (skipn n l) as l2.
  induction l1 as [|x r IH]; simpl; intros l2 Hs Ha Hb; [contradiction|].
  inversion Hs as [|? ? Hsr Hall]; subst. destruct Ha as [<-|Ha].
  - rewrite Forall_forall in Hall. apply Hall, in_or_app. now right.
  - now apply (IH l2).
Qed.

(** *** Property order of a grouped object *)

Lemma landsLast_app k s1 s2 :
  landsLast k (s1 ++ s2) = landsLast k s1 && landsLast k s2.
Proof.
  unfold landsLast. destruct (arrayIndex k); [|reflexivity].
  apply forallb_app.
Qed.

Lemma existsb_app_one k s k' :
  existsb (String.eqb k) (s ++ [k'])
  = existsb (String.eqb k) s || String.eqb k k'.
Proof. rewrite existsb_app. simpl. now rewrite orb_false_r. Qed.

(** A key that could follow [k'] can follow any key that [k'] could
    follow. *)
Lemma landsLast_trans k k' b :
  landsLast k' [k] = true -> landsLast b [k'] = true -> landsLast b [k] = true.
Proof.
  unfold landsLast. simpl.
  destruct (arrayIndex b) as [ib|]; [|reflexivity].
  destruct (arrayIndex k') as [i'|]; [|discriminate].
  destruct (arrayIndex k) as [i|]; [|discriminate].
  rewrite !andb_true_r. intros H1 H2.
  apply negb_true_iff, N.ltb_ge in H1, H2.
  apply negb_true_iff, N.ltb_ge. lia.
Qed.

(** Inserting an earlier key [k] that every later key could follow. *)
Lemma inOrder_earlier k keys : forall s1 s2,
  inOrder (s1 ++ s2) keys = true ->
  (forall b, In b keys -> String.eqb b k = false /\ landsLast b [k] = true) ->
  inOrder (s1 ++ k :: s2) keys = true.
Proof.
  induction keys as [|b r IH]; intros s1 s2 H Hall; [reflexivity|].
  cbn [inOrder] in H |- *.
  apply andb_prop in H. destruct H as [H H3].
  apply andb_prop in H. destruct H as [H1 H2].
  destruct (Hall b (or_introl eq_refl)) as [Hne Hl].
  apply andb_true_intro. split; [apply andb_true_intro; split|].
  - rewrite existsb_app in H1 |- *. cbn [existsb]. rewrite Hne.
    exact H1.
  - rewrite landsLast_app in H2 |- *.
    change (k :: s2) with ([k] ++ s2). rewrite landsLast_app, Hl.
    exact H2.
  - rewrite <- app_assoc. cbn [app]. apply IH.
    + now rewrite app_assoc.
    + intros b' Hb'. apply Hall. now right.
Qed.

Lemma landsLast_in k s x :
  landsLast k s = true -> In x s -> landsLast k [x] = true.
Proof.
  unfold landsLast. destruct (arrayIndex k); [|reflexivity].
  intros H Hx. rewrite forallb_forall in H. cbn [forallb].
  now rewrite (H x Hx).
Qed.

Lemma existsb_eqb_false k s x :
  existsb (String.eqb k) s = false -> In x s -> String.eqb k x = false.
Proof.
  intros H Hx. destruct (String.eqb k x) eqn:E; [|reflexivity].
  assert (existsb (String.eqb k) s = true); [|congruence].
  apply existsb_exists. now exists x.
Qed.

(** A key of an ordered list could follow every key seen before it. *)
Lemma inOrder_follow keys : forall seen x b,
  inOrder seen keys = true -> In b keys -> In x seen ->
  String.eqb b x = false /\ landsLast b [x] = true.
Proof.
  induction keys as [|y r IH]; intros seen x b H Hb Hx; [contradiction|].
  cbn [inOrder] in H.
  apply andb_prop in H. destruct H as [H H3].
  apply andb_prop in H. destruct H as [H1 H2].
  apply negb_true_iff in H1.
  destruct Hb as [->|Hb].
  - split; [now apply (existsb_eqb_false b seen)|now apply (landsLast_in b seen)].
  - apply (IH (seen ++ [y]) x b H3 Hb). apply in_or_app. now left.
Qed.

Lemma hasOwn_cons {A} k k' (v : A) o :
  hasOwn k ((k', v) :: o) = String.eqb k k' || hasOwn k o.
Proof. unfold hasOwn. simpl. now destruct (String.eqb k k'). Qed.

Lemma hasOwn_in {A} k (o : list (string * A)) b :
  hasOwn k o = false -> In b (map fst o) -> String.eqb b k = false.
Proof.
  rewrite hasOwn_keys. intros H Hb. rewrite String.eqb_sym.
  now apply (existsb_eqb_false k (map fst o)).
Qed.

(** Creating a property keeps the object in property order. *)
Lemma define_inOrder {A} k (v : A) o : forall seen,
  inOrder seen (map fst o) = true ->
  existsb (String.eqb k) seen = false ->
  hasOwn k o = false ->
  landsLast k seen = true ->
  inOrder seen (map fst (define k v o)) = true.
Proof.
  induction o as [|[k' v'] r IH]; intros seen H Hs Ho Hl.
  - cbn [define map fst inOrder]. now rewrite Hs, Hl.
  - rewrite hasOwn_cons in Ho. apply orb_false_elim in Ho.
    destruct Ho as [Hkk' Hor].
    cbn [map fst inOrder] in H.
    apply andb_prop in H. destruct H as [H H3].
    apply andb_prop in H. destruct H as [H1 H2].
    assert (Hhere : landsLast k' [k] = true ->
              inOrder seen (map fst ((k, v) :: (k', v') :: r)) = true).
    { intros Hk'k. cbn [map fst inOrder].
      rewrite Hs, Hl. cbn [negb andb].
      rewrite existsb_app_one, landsLast_app, Hk'k, H2.
      rewrite String.eqb_sym, Hkk'. rewrite orb_false_r, H1. cbn [andb].
      rewrite <- app_assoc. cbn [app].
      apply inOrder_earlier; [exact H3|].
      intros b Hb. split; [now apply (hasOwn_in k r)|].
      apply (landsLast_trans k k' b Hk'k).
      apply (inOrder_follow _ _ k' b H3 Hb).
      apply in_or_app. right. now left. }
    assert (Hnext : landsLast k [k'] = true ->
              inOrder seen (map fst ((k', v') :: define k v r)) = true).
    { intros Hkk. cbn [map fst inOrder]. rewrite H1, H2. cbn [andb].
      apply IH; [exact H3| |exact Hor|].
      - now rewrite existsb_app_one, Hs, Hkk'.
      - now rewrite landsLast_app, Hl, Hkk. }
    cbn [define].
    destruct (arrayIndex k) as [i|] eqn:Ek.
    + destruct (arrayIndex k') as [i'|] eqn:Ek'.
      * destruct (i <? i')%N eqn:E.
        -- apply Hhere. unfold landsLast. rewrite Ek'. cbn [forallb].
           rewrite Ek. apply N.ltb_lt in E.
           assert (E' : (i' <? i)%N = false) by (apply N.ltb_ge; lia).
           now rewrite E'.
        -- apply Hnext. unfold landsLast. rewrite Ek. cbn [forallb].
           now rewrite Ek', E.
      * apply Hhere. unfold landsLast. now rewrite Ek'.
    + apply Hnext. unfold landsLast. now rewrite Ek.
Qed.

Lemma setOwn_inOrder {A} k (v : A) o :
  inOrder [] (map fst o) = true -> inOrder [] (map fst (setOwn k v o)) = true.
Proof.
  intros H. unfold setOwn. destruct (hasOwn k o) eqn:E.
  - now rewrite replace_keys.
  - apply define_inOrder; auto.
    unfold landsLast. now destruct (arrayIndex k).
Qed.

(** The grouped object is in property order: no key twice, and an
    array-index key only after array-index keys of smaller value. *)
Lemma countBy_inOrder field l acc :
  countBy field l = Some acc -> inOrder [] (map fst acc) = true.
Proof.
  revert acc. induction l as [|r l IH] using rev_ind; intros acc Hc.
  - inversion Hc. reflexivity.
  - rewrite countBy_snoc in Hc.
    destruct (countBy field l) as [acc0|]; [|discriminate].
    unfold countStep in Hc.
    destruct (toPropertyKey (getOwn field r)) as [k|]; [|discriminate].
    inversion Hc. unfold writeCount.
    destruct (String.eqb k "__proto__"); [now apply IH|].
    now apply setOwn_inOrder, IH.
Qed.

Lemma define_notIndex_keys {A} k (v : A) o :
  filter notIndex (map fst (define k v o))
  = filter notIndex (map fst o) ++ (if notIndex k then [k] else []).
Proof.
  destruct (arrayIndex k) as [i|] eqn:Ek.
  - assert (Hk : notIndex k = false) by (unfold notIndex; now rewrite Ek).
    rewrite Hk, app_nil_r.
    induction o as [|[k' v'] r IH]; cbn [define].
    + cbn [map fst filter]. now rewrite Hk.
    + rewrite Ek. destruct (arrayIndex k') as [i'|] eqn:Ek'.
      * destruct (i <? i')%N; cbn [map fst filter]; rewrite ?Hk; [reflexivity|].
        now rewrite IH.
      * cbn [map fst filter]. now rewrite Hk.
  - assert (Hk : notIndex k = true) by (unfold notIndex; now rewrite Ek).
    rewrite Hk, define_no_index by assumption.
    rewrite map_app, filter_app. cbn [map fst filter]. now rewrite Hk.
Qed.

Lemma hasOwn_setOwn {A} k k' (v : A) o :
  hasOwn k' (setOwn k v o) = String.eqb k' k || hasOwn k' o.
Proof.
  unfold hasOwn at 1. destruct (String.eqb k' k) eqn:E.
  - apply String.eqb_eq in E. subst. now rewrite getOwn_setOwn_same.
  - apply String.eqb_neq in E. rewrite getOwn_setOwn_other by assumption.
    reflexivity.
Qed.

(** The keys that are not array indices are enumerated in the order in
    which they first occur in the input. *)
Lemma countBy_first_seen field l acc :
  plainKeys field l ->
  countBy field l = Some acc ->
  (forall k, hasOwn k acc = existsb (String.eqb k) (firstSeen field l)) /\
  filter notIndex (map fst acc) = filter notIndex (firstSeen field l).
Proof.
  revert acc. induction l as [|r l IH] using rev_ind; intros acc Hp Hc.
  - inversion Hc. split; reflexivity.
  - rewrite countBy_snoc in Hc. rewrite firstSeen_snoc.
    destruct (countBy field l) as [acc0|] eqn:E0; [|discriminate].
    destruct (IH acc0) as [Hhas Hord]; [|reflexivity|].
    { intros x Hx. apply Hp, in_or_app. now left. }
    destruct (Hp r) as (k & Hk & Hinh). { apply in_or_app. right. now left. }
    unfold countStep in Hc. fold (bucket field r) in Hc. rewrite Hk in Hc |- *.
    inversion Hc; subst acc. clear Hc.
    unfold writeCount. rewrite (inherited_proto _ Hinh).
    rewrite <- (Hhas k). split.
    + intros k'. rewrite hasOwn_setOwn.
      destruct (hasOwn k acc0) eqn:Eh.
      * rewrite <- Hhas. destruct (String.eqb k' k) eqn:E; [|reflexivity].
        apply String.eqb_eq in E. subst. now rewrite Eh.
      * rewrite existsb_app_one, <- Hhas. apply orb_comm.
    + unfold setOwn. destruct (hasOwn k acc0) eqn:Eh.
      * now rewrite replace_keys.
      * rewrite define_notIndex_keys, filter_app, Hord. reflexivity.
Qed.

(** C6, as amended. On every list of records whose tool field coerces to
    a property key that [Object.prototype] does not define, the chart
    data are the first N (8, or 10 in the black-theme dashboard) entries
    of the grouped object sorted by descending count: each entry carries
    the number of records of its tool, no dropped entry has a larger
    count than a kept one, the rest is dropped, and entries of equal
    count stay in the enumeration order of the grouped object. In that
    order no name occurs twice, a name that is the decimal form of an
    array index comes only after array-index names of smaller value, and
    the other names come in their order of first occurrence in the
    input; it is the order of first occurrence when no tool name is
    the decimal form of an array index. *)
Theorem top_tools_selection (field : string) (assessments : list record) :
  plainKeys field assessments ->
  exists acc sorted,
    countBy field assessments = Some acc /\
    (forall n, topEntries field n assessments = Some (firstn n sorted)) /\
    toolChartData field assessments =
      Some (map (fun e => {| name := displayName 15 (fst e); value := snd e |})
                (firstn 8 sorted)) /\
    (field = "ai_tool" ->
     option_map (map (fun i => (tool_name i, tool_value i)))
                (toolChartDataBlack assessments) =
       Some (map (fun e => (displayName 20 (fst e), snd e)) (firstn 10 sorted))) /\
    Permutation sorted (entries acc) /\
    (forall e, In e sorted ->
       snd e = Num (occ field assessments e) /\ 1 <= occ field assessments e) /\
    StronglySorted
      (fun a b => occ field assessments b <= occ field assessments a) sorted /\
    (forall n a b, In a (firstn n sorted) -> In b (skipn n sorted) ->
       occ field assessments b <= occ field assessments a) /\
    (forall c,
       filter (fun e => occ field assessments e =? c) sorted =
       filter (fun e => occ field assessments e =? c) (entries acc)) /\
    inOrder [] (map fst (entries acc)) = true /\
    filter notIndex (map fst (entries acc))
    = filter notIndex (firstSeen field assessments) /\
    (noIndexKeys field assessments ->
       map fst (entries acc) = firstSeen field assessments).
Proof.
  intros Hp. destruct (countBy_counts _ _ Hp) as (acc & Hacc & Hget & Hsum).
  pose proof (countBy_nodup _ _ _ Hacc) as Hnd.
  pose proof (counts_entries _ _ _ Hget Hnd) as Hsnd.
  exists acc, (sortBy byCountDesc (entries acc)). unfold entries.
  assert (Hnum : Forall isNum acc).
  { rewrite Forall_forall. intros e He. eexists. now apply Hsnd. }
  assert (Hin : forall e, In e (sortBy byCountDesc acc) -> In e acc).
  { intros e. apply Permutation_in, sortBy_perm. }
  assert (Hcnt : forall e, In e acc -> cnt e = occ field assessments e).
  { intros e He. unfold cnt. now rewrite (Hsnd e He). }
  assert (Hsorted : StronglySorted
            (fun a b => occ field assessments b <= occ field assessments a)
            (sortBy byCountDesc acc)).
  { pose proof (sortBy_descending acc Hnum) as Hd. unfold descending in Hd.
    revert Hd Hin. generalize (sortBy byCountDesc acc) as s.
    induction s as [|x s IH]; intros Hd Hin; [constructor|].
    inversion Hd as [|? ? Hd' Hall]; subst. constructor.
    - apply IH; [assumption|]. intros e He. apply Hin. now right.
    - rewrite Forall_forall in Hall |- *. intros y Hy.
      rewrite <- (Hcnt x), <- (Hcnt y).
      + now apply Hall.
      + apply Hin. now right.
      + apply Hin. now left. }
  assert (Htop : forall n, topEntries field n assessments
                           = Some (firstn n (sortBy byCountDesc acc))).
  { intros n. unfold topEntries. now rewrite Hacc. }
  split; [assumption|]. split; [assumption|].
  split. { unfold toolChartData. now rewrite Htop. }
  split. { intros ->. unfold toolChartDataBlack. rewrite Htop. simpl.
           now rewrite map_map. }
  split; [apply sortBy_perm|].
  split.
  { intros e He. apply Hin in He. split; [now apply Hsnd|].
    pose proof (Hget (fst e)) as Hg. unfold occ.
    pose proof (occurrences_nonneg field (fst e) assessments).
    destruct (occurrences field (fst e) assessments =? 0) eqn:E; [|lia].
    exfalso. clear - Hg He. induction acc as [|[k c] r IH]; [contradiction|].
    simpl in Hg. destruct He as [<-|He].
    - simpl in Hg. now rewrite String.eqb_refl in Hg.
    - destruct (String.eqb (fst e) k); [discriminate|]. now apply IH. }
  split; [assumption|].
  split. { intros n a b Ha Hb.
           exact (firstn_skipn_split n _ a b _ Hsorted Ha Hb). }
  split.
  { intros c.
    transitivity (filter (fun e => cnt e =? c) (sortBy byCountDesc acc)).
    - apply filter_ext_in. intros e He. now rewrite (Hcnt e (Hin e He)).
    - rewrite (sortBy_stable c acc Hnum).
      apply filter_ext_in. intros e He. now rewrite (Hcnt e He). }
  split; [exact (countBy_inOrder field assessments acc Hacc)|].
  split; [exact (proj2 (countBy_first_seen field assessments acc Hp Hacc))|].
  intros Hn. now apply (countBy_order field assessments acc).
Qed.

Lemma toolSample_plain : plainKeys "aiTool" toolSample.
Proof.
  intros r Hr. simpl in Hr.
  destruct Hr as [<-|[<-|[<-|[<-|[]]]]]; eexists; split; reflexivity.
Defined.

Lemma top_tools_selection_witness :
  plainKeys "aiTool" toolSample /\
  exists acc sorted,
    countBy "aiTool" toolSample = Some acc /\
    (forall n, topEntries "aiTool" n toolSample = Some (firstn n sorted)) /\
    toolChartData "aiTool" toolSample =
      Some (map (fun e => {| name := displayName 15 (fst e); value := snd e |})
                (firstn 8 sorted)) /\
    ("aiTool" = "ai_tool" ->
     option_map (map (fun i => (tool_name i, tool_value i)))
                (toolChartDataBlack toolSample) =
       Some (map (fun e => (displayName 20 (fst e), snd e)) (firstn 10 sorted))) /\
    Permutation sorted (entries acc) /\
    (forall e, In e sorted ->
       snd e = Num (occ "aiTool" toolSample e) /\ 1 <= occ "aiTool" toolSample e) /\
    StronglySorted
      (fun a b => occ "aiTool" toolSample b <= occ "aiTool" toolSample a) sorted /\
    (forall n a b, In a (firstn n sorted) -> In b (skipn n sorted) ->
       occ "aiTool" toolSample b <= occ "aiTool" toolSample a) /\
    (forall c,
       filter (fun e => occ "aiTool" toolSample e =? c) sorted =
       filter (fun e => occ "aiTool" toolSample e =? c) (entries acc)) /\
    inOrder [] (map fst (entries acc)) = true /\
    filter notIndex (map fst (entries acc))
    = filter notIndex (firstSeen "aiTool" toolSample) /\
    (noIndexKeys "aiTool" toolSample ->
       map fst (entries acc) = firstSeen "aiTool" toolSample).
Proof.
  split; [exact toolSample_plain|].
  exact (top_tools_selection "aiTool" toolSample toolSample_plain).
Defined.

(** C6, as stated, fails: two tools reported once each, "2" before "1",
    are charted as "1" before "2", against their order of first
    occurrence. *)
Lemma top_tools_tie_not_first_seen :
  toolChartData "aiTool" [ [("aiTool", JStr "2")]; [("aiTool", JStr "1")] ]
  = Some [ {| name := "1"; value := Num 1 |}; {| name := "2"; value := Num 1 |} ] /\
  firstSeen "aiTool" [ [("aiTool", JStr "2")]; [("aiTool", JStr "1")] ]
  = ["2"; "1"].
Proof. split; reflexivity. Qed.

Example toolSample_chart :
  toolChartData "aiTool" toolSample
  = Some [ {| name := "Tesla Autopilot"; value := Num 2 |};
           {| name := "ChatGPT/OpenAI"; value := Num 1 |};
           {| name := "Facial Recognit..."; value := Num 1 |} ].
Proof. reflexivity. Qed.

(** *** Weekly submissions *)

Lemma filterThrowing_total {A} (p : A -> option bool) l :
  (forall x, In x l -> p x <> None) ->
  filterThrowing p l =
  Some (filter (fun x => match p x with Some b => b | None => false end) l).
Proof.
  induction l as [|x r IH]; simpl; intros H; [reflexivity|].
  destruct (p x) as [b|] eqn:E; [|exfalso; apply (H x); auto].
  rewrite IH by (intros y Hy; apply H; auto).
  now destruct b.
Qed.

Lemma filter_length_all {A} (f : A -> bool) l :
  (forall x, In x l -> f x = true) -> filter f l = l.
Proof.
  induction l as [|x r IH]; simpl; intros H; [reflexivity|].
  rewrite (H x) by auto. f_equal. apply IH. auto.
Qed.

(** C1, as amended. Whenever no [new Date(item.f)] throws, the weekly
    count is the number of records whose field parses to a valid date
    strictly later than the lower bound [oneWeekAgo] (the bound itself is
    left out, and there is no upper bound: later dates, future ones
    included, are counted); the bound is [now] minus seven days of
    86400000 ms when the offset of local time is constant. Hence the
    weekly count is at most the total, and equals it when every record is
    dated strictly later than the bound. *)
Theorem weekly_count_window (rt : runtime) (field : string) (now : Z)
    (data : list record) :
  (forall item, In item data -> newDate rt (getOwn field item) <> None) ->
  exists s,
    calculateStats rt field now data = Some s /\
    weeklySubmissions rt field now data
      = Some (filter (laterThanBound rt field now) data) /\
    thisWeek s = lengthZ (filter (laterThanBound rt field now) data) /\
    total s = lengthZ data /\
    thisWeek s <= total s /\
    ((forall item, In item data -> laterThanBound rt field now item = true) ->
       thisWeek s = total s) /\
    (forall c, (forall t, offsetAtUTC rt t = c) ->
               (forall t, offsetAtLocal rt t = c) ->
       oneWeekAgo rt now = now - 7 * msPerDay).
Proof.
  intros Hd.
  assert (Hw : weeklySubmissions rt field now data
               = Some (filter (laterThanBound rt field now) data)).
  { unfold weeklySubmissions. rewrite filterThrowing_total.
    - f_equal. apply filter_ext. intros item.
      unfold submittedThisWeek, laterThanBound, dateGreater.
      destruct (newDate rt (getOwn field item)) as [[t|]|]; reflexivity.
    - intros item Hi. unfold submittedThisWeek.
      specialize (Hd item Hi).
      destruct (newDate rt (getOwn field item)); [discriminate|contradiction]. }
  unfold calculateStats. rewrite Hw. eexists. split; [reflexivity|].
  cbn [thisWeek total].
  split; [reflexivity|]. split; [reflexivity|]. split; [reflexivity|].
  split; [|split].
  - unfold lengthZ. apply Nat2Z.inj_le, filter_length_le.
  - intros Hall. now rewrite filter_length_all.
  - intros c Hu Hl. unfold oneWeekAgo, setDateMinus7. rewrite Hu, Hl.
    unfold msPerDay. lia.
Qed.

Lemma weekSample_dated :
  forall item, In item weekSample ->
    newDate utcRuntime (getOwn "created_at" item) <> None.
Proof.
  intros item Hi. simpl in Hi.
  destruct Hi as [<-|[<-|[<-|[]]]]; discriminate.
Defined.

Lemma weekly_count_window_witness :
  (forall item, In item weekSample ->
     newDate utcRuntime (getOwn "created_at" item) <> None) /\
  exists s,
    calculateStats utcRuntime "created_at" 1751630400000 weekSample = Some s /\
    weeklySubmissions utcRuntime "created_at" 1751630400000 weekSample
      = Some (filter (laterThanBound utcRuntime "created_at" 1751630400000)
                     weekSample) /\
    thisWeek s = lengthZ (filter (laterThanBound utcRuntime "created_at"
                                    1751630400000) weekSample) /\
    total s = lengthZ weekSample /\
    thisWeek s <= total s /\
    ((forall item, In item weekSample ->
        laterThanBound utcRuntime "created_at" 1751630400000 item = true) ->
       thisWeek s = total s) /\
    (forall c, (forall t, offsetAtUTC utcRuntime t = c) ->
               (forall t, offsetAtLocal utcRuntime t = c) ->
       oneWeekAgo utcRuntime 1751630400000 = 1751630400000 - 7 * msPerDay).
Proof.
  split; [exact weekSample_dated|].
  exact (weekly_count_window utcRuntime "created_at" 1751630400000 weekSample
           weekSample_dated).
Defined.

Example weekSample_stats :
  calculateStats utcRuntime "created_at" 1751630400000 weekSample
  = Some {| total := 3; critical := 1; high := 1; thisWeek := 1 |}.
Proof. vm_compute. reflexivity. Qed.

(** C1, as stated, fails at both ends of the window. At
    2025-07-04T12:00:00.000Z a record created exactly seven days earlier
    is inside the specified window and is not counted, and a record dated
    one day in the future is outside it and is counted. *)
Lemma weekly_window_bounds_differ :
  toISOString 1751630400000 = "2025-07-04T12:00:00.000Z" /\
  option_map thisWeek
    (calculateStats utcRuntime "created_at" 1751630400000
       [ [("created_at", JStr "2025-06-27T12:00:00.000Z")] ]) = Some 0 /\
  weeklyCountAsSpecified utcRuntime "created_at" 1751630400000
       [ [("created_at", JStr "2025-06-27T12:00:00.000Z")] ] = 1 /\
  option_map thisWeek
    (calculateStats utcRuntime "created_at" 1751630400000
       [ [("created_at", JStr "2025-07-05T12:00:00.000Z")] ]) = Some 1 /\
  weeklyCountAsSpecified utcRuntime "created_at" 1751630400000
       [ [("created_at", JStr "2025-07-05T12:00:00.000Z")] ] = 0.
Proof. vm_compute. repeat split; reflexivity. Qed.

(** *** Critical share *)

Lemma share_bounds c n :
  0 <= c <= n -> 1 <= n ->
  let q := Qmult (Qdiv (inject_Z c) (inject_Z n)) (100 # 1) in
  (q == ((100 * c) # (Z.to_pos n)))%Q /\ (0 <= q)%Q /\ (q <= 100 # 1)%Q /\
  0 <= tenths q <= 1000.
Proof.
  intros Hc Hn q.
  assert (Hq : (q == ((100 * c) # (Z.to_pos n)))%Q).
  { subst q. destruct n as [|p|p]; try lia.
    unfold Qeq, Qdiv, Qmult, Qinv, inject_Z. cbn [Qnum Qden Z.to_pos].
    rewrite ?Pos2Z.inj_mul. lia. }
  assert (H0 : (0 <= q)%Q).
  { rewrite Hq. unfold Qle. cbn [Qnum Qden]. lia. }
  assert (H1 : (q <= 100 # 1)%Q).
  { rewrite Hq. unfold Qle. cbn [Qnum Qden]. rewrite Z2Pos.id by lia. lia. }
  repeat split; try assumption.
  - unfold tenths. change 0 with (Qfloor 0). apply Qfloor_resp_le.
    assert ((0 <= (10 # 1) * q)%Q)
      by (apply Qmult_le_0_compat; [discriminate|assumption]).
    apply (Qle_trans _ ((10 # 1) * q + 0)%Q).
    + now rewrite Qplus_0_r.
    + apply Qplus_le_r. discriminate.
  - unfold tenths. change 1000 with (Qfloor (2001 # 2)). apply Qfloor_resp_le.
    setoid_replace (2001 # 2)%Q with ((10 # 1) * (100 # 1) + (1 # 2))%Q
      by reflexivity.
    apply Qplus_le_l. apply Qmult_le_l; [reflexivity|assumption].
Qed.

Lemma occurrences_le_length field k l : occurrences field k l <= lengthZ l.
Proof. unfold occurrences, lengthZ. apply Nat2Z.inj_le, filter_length_le. Qed.





(** The double [c / n * 100] of a count [c] among [n] records lies
    between 0 and 100, within [2^-45] of the exact percentage. *)
Lemma percentage_double c n :
  0 <= c <= n -> 1 <= n ->
  exists d,
    Double.mul (Double.div (Double.ofZ c) (Double.ofZ n)) (Double.ofZ 100)
    = Double.Finite d /\
    (0 <= d)%Q /\ (d <= 100 # 1)%Q /\
    (d - Double.pow2 (-45) <= (100 * c) # (Z.to_pos n))%Q /\
    ((100 * c) # (Z.to_pos n) <= d + Double.pow2 (-45))%Q.
Proof.
  intros Hc Hn.
  destruct (share_bounds c n Hc Hn) as (Hq & Hq0 & Hq1 & _).
  set (x := (inject_Z c / inject_Z n)%Q) in *.
  assert (Hn0 : (0 < inject_Z n)%Q).
  { change 0%Q with (inject_Z 0). rewrite <- Zlt_Qlt. lia. }
  assert (Hx0 : (0 <= x)%Q).
  { subst x. apply Qle_shift_div_l; [exact Hn0|]. rewrite Qmult_0_l.
    change 0%Q with (inject_Z 0). rewrite <- Zle_Qle. lia. }
  assert (Hx1 : (x <= 1)%Q).
  { subst x. apply Qle_shift_div_r; [exact Hn0|]. rewrite Qmult_1_l.
    rewrite <- Zle_Qle. lia. }
  assert (Hz : Double.isZero (inject_Z n) = false).
  { unfold Double.isZero. destruct (Qeq_bool (inject_Z n) 0) eqn:E; [|reflexivity].
    apply Qeq_bool_iff in E. rewrite E in Hn0. discriminate. }
  destruct (DoubleFacts.round_between x 1 1 Hx0 Hx1)
    as (r & Hr & Hr0 & Hr1 & Hr2 & Hr3);
    [reflexivity|reflexivity|reflexivity|lia|].
  assert (Hy0 : (0 <= r * (100 # 1))%Q) by (apply Qmult_le_0_compat; [exact Hr0|discriminate]).
  assert (Hy1 : (r * (100 # 1) <= 100 # 1)%Q) by lra.
  destruct (DoubleFacts.round_between (r * (100 # 1)) (100 # 1) 7 Hy0 Hy1)
    as (d & Hd & Hd0 & Hd1 & Hd2 & Hd3);
    [reflexivity|reflexivity|reflexivity|lia|].
  exists d. split.
  { unfold Double.div, Double.mul, Double.ofZ. rewrite Hz. fold x. rewrite Hr.
    exact Hd. }
  assert (E53 : (Double.pow2 (1 - 54) == 1 # 9007199254740992)%Q) by reflexivity.
  assert (E47 : (Double.pow2 (7 - 54) == 1 # 140737488355328)%Q) by reflexivity.
  assert (E45 : (Double.pow2 (-45) == 1 # 35184372088832)%Q) by reflexivity.
  rewrite E53 in Hr2, Hr3. rewrite E47 in Hd2, Hd3. rewrite E45, <- Hq.
  repeat split; lra.
Qed.



Lemma insightSample_plain : plainKeys "severity" insightSample.
Proof.
  intros r Hr. simpl in Hr.
  destruct Hr as [<-|[<-|[<-|[]]]]; eexists; split; reflexivity.
Defined.

Lemma insightSample_nonempty : insightSample <> [].
Proof. discriminate. Defined.



Example insightSample_figures :
  getInsights insightSample
  = Some (Value {| totalReports := 3;
                   criticalPercentage := "66.7";
                   mostReportedTool := "X";
                   mostCommonRisk := "Bias";
                   avgReportsPerDay := "0.1" |}).
Proof. vm_compute. reflexivity. Qed.

(** Twenty-three critical reports of eighty: the double is just below
    28.75, and so are three strategies for twenty risk factors below
    0.15. *)
Example shareSample_figures :
  option_map (fun r => match r with
                       | Value i => criticalPercentage i
                       | Null => ""
                       end) (getInsights shareSample)
  = Some "28.7" /\
  toFixed1 (Double.div (Double.ofZ 3) (Double.ofZ 20)) = "0.1" /\
  numberToFixed1 (NumFin 835 (-2)) = "8.3".
Proof. vm_compute. repeat split; reflexivity. Qed.


(** [criticalPercentage > 20] gives the same answer on the double as on
    the exact quotient, for every count among fewer than [2^32]
    records. *)
Lemma trend_on_doubles c n :
  0 <= c <= n -> 1 <= n -> n < 2 ^ 32 ->
  exists d,
    Double.mul (Double.div (Double.ofZ c) (Double.ofZ n)) (Double.ofZ 100)
    = Double.Finite d /\
    ((20 # 1 < d)%Q <-> n < 5 * c).
Proof.
  intros Hc Hn Hb.
  destruct (percentage_double c n Hc Hn) as (d & Hd & Hd0 & _).
  exists d. split; [exact Hd|].
  set (x := (inject_Z c / inject_Z n)%Q).
  assert (Hn0 : (0 < inject_Z n)%Q).
  { change 0%Q with (inject_Z 0). rewrite <- Zlt_Qlt. lia. }
  assert (Hz : Double.isZero (inject_Z n) = false).
  { unfold Double.isZero. destruct (Qeq_bool (inject_Z n) 0) eqn:E; [|reflexivity].
    apply Qeq_bool_iff in E. rewrite E in Hn0. discriminate. }
  unfold Double.div, Double.mul, Double.ofZ in Hd. rewrite Hz in Hd. fold x in Hd.
  destruct (Z_lt_le_dec n (5 * c)) as [Hlt|Hle].
  - (* more than one in five *)
    split; [intros _; exact Hlt|]. intros _.
    set (r0 := (219902325556 # 1099511627776)%Q).
    assert (Hx : (r0 <= x)%Q).
    { subst x r0. apply Qle_shift_div_l; [exact Hn0|].
      unfold Qle, Qmult, inject_Z. cbn [Qnum Qden]. lia. }
    assert (Hxpos : (0 < x)%Q) by (eapply Qlt_le_trans; [|exact Hx]; reflexivity).
    unfold Double.round in Hd.
    destruct (Qcompare_spec x 0) as [E|E|E]; [lra|lra|].
    assert (Hr : (r0 <= Double.nearest x)%Q).
    { assert (E0 : (Double.nearest r0 == r0)%Q) by reflexivity.
      rewrite <- E0. apply DoubleFacts.nearest_mono; [reflexivity|exact Hx]. }
    destruct (Qle_bool (Double.pow2 1024) (Double.nearest x)); [discriminate|].
    unfold Double.round in Hd.
    set (y := (Double.nearest x * inject_Z 100)%Q) in *.
    assert (Hy : (r0 * inject_Z 100 <= y)%Q).
    { subst y. apply Qmult_le_compat_r; [exact Hr|discriminate]. }
    destruct (Qcompare_spec y 0) as [E'|E'|E'].
    + exfalso. rewrite E' in Hy. revert Hy. apply Qlt_not_le. reflexivity.
    + exfalso. assert (0 < r0 * inject_Z 100)%Q by reflexivity. lra.
    + assert (Hr' : (r0 * inject_Z 100 <= Double.nearest y)%Q).
      { assert (E0 : (Double.nearest (r0 * inject_Z 100) == r0 * inject_Z 100)%Q)
          by reflexivity.
        rewrite <- E0. apply DoubleFacts.nearest_mono; [reflexivity|exact Hy]. }
      destruct (Qle_bool (Double.pow2 1024) (Double.nearest y)); [discriminate|].
      injection Hd as <-.
      eapply Qlt_le_trans; [|exact Hr']. reflexivity.
  - (* at most one in five *)
    split; [|lia]. intros H. exfalso.
    assert (Hx : (x <= 1 # 5)%Q).
    { subst x. apply Qle_shift_div_r; [exact Hn0|].
      unfold Qle, Qmult, inject_Z. cbn [Qnum Qden]. lia. }
    unfold Double.round in Hd.
    destruct (Qcompare_spec x 0) as [E|E|E].
    + change (Double.round (0 * inject_Z 100)) with (Double.Finite 0) in Hd.
      injection Hd as <-. discriminate H.
    + assert (Hx0 : (0 <= x)%Q).
      { subst x. apply Qle_shift_div_l; [exact Hn0|]. rewrite Qmult_0_l.
        change 0%Q with (inject_Z 0). rewrite <- Zle_Qle. lia. }
      lra.
    + set (r1 := Double.nearest (1 # 5)).
      assert (Hr : (Double.nearest x <= r1)%Q)
        by (apply DoubleFacts.nearest_mono; assumption).
      destruct (Qle_bool (Double.pow2 1024) (Double.nearest x)); [discriminate|].
      unfold Double.round in Hd.
      set (y := (Double.nearest x * inject_Z 100)%Q) in *.
      assert (Hy : (y <= r1 * inject_Z 100)%Q).
      { subst y. apply Qmult_le_compat_r; [exact Hr|discriminate]. }
      destruct (Qcompare_spec y 0) as [E'|E'|E'].
      * injection Hd as <-. discriminate H.
      * pose proof (DoubleFacts.nearest_nonneg x E) as Hnn.
        assert (0 <= y)%Q by (subst y; apply Qmult_le_0_compat; [exact Hnn|discriminate]).
        lra.
      * assert (Hr' : (Double.nearest y <= 20 # 1)%Q).
        { assert (E0 : (Double.nearest (r1 * inject_Z 100) == 20 # 1)%Q)
            by reflexivity.
          rewrite <- E0. apply DoubleFacts.nearest_mono; assumption. }
        destruct (Qle_bool (Double.pow2 1024) (Double.nearest y)); [discriminate|].
        injection Hd as <-. lra.
Qed.

End AggregatorFacts.

(** ** JSON text

    [JSON.parse] reads back what [JSON.stringify] wrote. *)

Module JsonFacts.
Import JS JSFacts.

(** *** Decimal digits *)

Lemma digitChar_code d : (d < 10)%N -> N_of_ascii (digitChar d) = (48 + d)%N.
Proof.
  intros H. unfold digitChar. apply N_ascii_embedding. lia.
Qed.

Lemma digitChar_isDigit d : (d < 10)%N -> isDigit (digitChar d) = true.
Proof.
  intros H. unfold isDigit. rewrite (digitChar_code d H).
  apply andb_true_intro. split; apply N.leb_le; lia.
Qed.

Lemma digitChar_val d : (d < 10)%N -> digitVal (digitChar d) = d.
Proof. intros H. unfold digitVal. rewrite (digitChar_code d H). lia. Qed.

Lemma digitsFuel_acc f : forall n acc,
  digitsFuel f n acc = digitsFuel f n [] ++ acc.
Proof.
  induction f as [|f IH]; intros n acc; simpl; [reflexivity|].
  destruct (n / 10 =? 0)%N; [reflexivity|].
  rewrite (IH _ (_ :: acc)), (IH _ [_]). now rewrite <- app_assoc.
Qed.

Lemma digitsValue_app l1 : forall a l2,
  digitsValue a (l1 ++ l2) = digitsValue (digitsValue a l1) l2.
Proof. induction l1 as [|c r IH]; intros; simpl; [reflexivity|apply IH]. Qed.

Lemma mod10_lt n : (n mod 10 < 10)%N.
Proof. apply N.mod_lt. discriminate. Qed.

Lemma digitsFuel_value f : forall n,
  (n < 10 ^ N.of_nat f)%N -> digitsValue 0 (digitsFuel f n []) = n.
Proof.
  induction f as [|f IH]; intros n Hn.
  - simpl in *. lia.
  - cbn [digitsFuel]. destruct (n / 10 =? 0)%N eqn:E.
    + apply N.eqb_eq in E. cbn [digitsValue]. rewrite digitChar_val by apply mod10_lt.
      pose proof (N.div_mod n 10 ltac:(discriminate)). lia.
    + rewrite digitsFuel_acc, digitsValue_app, IH.
      * cbn [digitsValue]. rewrite digitChar_val by apply mod10_lt.
        pose proof (N.div_mod n 10 ltac:(discriminate)). lia.
      * rewrite Nat2N.inj_succ, N.pow_succ_r' in Hn.
        apply N.Div0.div_lt_upper_bound. lia.
Qed.

Lemma digits_fuel_enough n : (n < 10 ^ N.of_nat (S (N.to_nat (N.log2 n))))%N.
Proof.
  rewrite Nat2N.inj_succ, N2Nat.id.
  destruct (N.eq_dec n 0) as [->|Hn]; [reflexivity|].
  destruct (N.log2_spec n) as [_ H]; [lia|].
  eapply N.lt_le_trans; [exact H|].
  apply N.pow_le_mono_l. lia.
Qed.

Lemma digits_value n : digitsValue 0 (digits n) = n.
Proof. apply digitsFuel_value, digits_fuel_enough. Qed.

Lemma digitsFuel_isDigit f : forall n,
  forallb isDigit (digitsFuel f n []) = true.
Proof.
  induction f as [|f IH]; intros n; [reflexivity|].
  cbn [digitsFuel]. destruct (n / 10 =? 0)%N.
  - simpl. now rewrite digitChar_isDigit by apply mod10_lt.
  - rewrite digitsFuel_acc, forallb_app, IH. simpl.
    now rewrite digitChar_isDigit by apply mod10_lt.
Qed.

Lemma digits_isDigit n : forallb isDigit (digits n) = true.
Proof. apply digitsFuel_isDigit. Qed.

(** The first digit of a positive number is not zero. *)
Lemma digitsFuel_head f : forall n,
  (0 < n)%N -> (n < 10 ^ N.of_nat f)%N ->
  exists c r, digitsFuel f n [] = c :: r /\ Ascii.eqb c "0" = false.
Proof.
  induction f as [|f IH]; intros n Hpos Hn.
  - simpl in Hn. lia.
  - cbn [digitsFuel]. destruct (n / 10 =? 0)%N eqn:E.
    + apply N.eqb_eq in E. exists (digitChar (n mod 10)), []. split; [reflexivity|].
      assert (Hlt : (n < 10)%N).
      { pose proof (N.div_mod n 10 ltac:(discriminate)). pose proof (mod10_lt n). lia. }
      rewrite N.mod_small by assumption.
      apply Ascii.eqb_neq. intros Hc.
      apply (f_equal N_of_ascii) in Hc. rewrite digitChar_code in Hc by assumption.
      change (N_of_ascii "0") with 48%N in Hc. lia.
    + apply N.eqb_neq in E.
      destruct (IH (n / 10)%N) as (c & r & Hd & Hc).
      * now apply N.neq_0_lt_0.
      * rewrite Nat2N.inj_succ, N.pow_succ_r' in Hn.
        apply N.Div0.div_lt_upper_bound. lia.
      * rewrite digitsFuel_acc, Hd. exists c, (r ++ [digitChar (n mod 10)]).
        split; [reflexivity|assumption].
Qed.

Lemma digits_head n :
  (0 < n)%N -> exists c r, digits n = c :: r /\ Ascii.eqb c "0" = false.
Proof. intros H. apply digitsFuel_head; [assumption|apply digits_fuel_enough]. Qed.

Lemma digits_nonempty n : digits n <> [].
Proof.
  unfold digits. cbn [digitsFuel]. destruct (n / 10 =? 0)%N; [discriminate|].
  rewrite digitsFuel_acc. intros H. apply app_eq_nil in H. destruct H; discriminate.
Qed.

Lemma digitsFuel_length f : forall n k,
  (n < 10 ^ N.of_nat k)%N -> (0 < k)%nat ->
  (List.length (digitsFuel f n []) <= k)%nat.
Proof.
  induction f as [|f IH]; intros n k Hn Hk; simpl; [lia|].
  destruct (n / 10 =? 0)%N eqn:E; simpl; [lia|].
  apply N.eqb_neq in E. rewrite digitsFuel_acc, length_app. simpl.
  destruct k as [|k]; [lia|].
  destruct k as [|k].
  - simpl in Hn. exfalso. apply E. apply N.div_small. lia.
  - specialize (IH (n / 10)%N (S k)).
    assert ((List.length (digitsFuel f (n / 10) []) <= S k)%nat); [|lia].
    apply IH; [|lia].
    rewrite (Nat2N.inj_succ (S k)), N.pow_succ_r' in Hn.
    apply N.Div0.div_lt_upper_bound. lia.
Qed.

Lemma digits_length n k :
  (n < 10 ^ N.of_nat k)%N -> (0 < k)%nat -> (List.length (digits n) <= k)%nat.
Proof. apply digitsFuel_length. Qed.

(** *** Canonical numbers *)

Lemma digitsValue_zeros j : forall a,
  digitsValue a (zeros j) = (a * 10 ^ N.of_nat j)%N.
Proof.
  induction j as [|j IH]; intros a.
  - simpl. lia.
  - cbn [zeros repeat digitsValue]. fold (zeros j). rewrite IH.
    change (digitVal "0") with 0%N.
    rewrite Nat2N.inj_succ, N.pow_succ_r'. lia.
Qed.

Lemma zeros_isDigit j : forallb isDigit (zeros j) = true.
Proof. induction j; simpl; auto. Qed.

Lemma spanDigits_app ds : forall rest,
  forallb isDigit ds = true -> digitStop rest = true ->
  spanDigits (ds ++ rest) = (ds, rest).
Proof.
  induction ds as [|c r IH]; intros rest Hd Hs; simpl.
  - destruct rest as [|c r]; [reflexivity|]. simpl in Hs.
    destruct (isDigit c) eqn:E; [discriminate|]. simpl. now rewrite E.
  - simpl in Hd. apply andb_prop in Hd. destruct Hd as [Hc Hr].
    rewrite Hc, (IH rest Hr Hs). reflexivity.
Qed.

Lemma stripZeros_pow j : forall fuel s e,
  s mod 10 <> 0 -> (j <= fuel)%nat ->
  stripZeros fuel (s * 10 ^ Z.of_nat j) e = (s, e + Z.of_nat j).
Proof.
  induction j as [|j IH]; intros fuel s e Hs Hf.
  - rewrite Z.mul_1_r, Z.add_0_r. destruct fuel; simpl; [reflexivity|].
    destruct (s mod 10 =? 0) eqn:E; [apply Z.eqb_eq in E; contradiction|reflexivity].
  - destruct fuel as [|fuel]; [lia|]. cbn [stripZeros].
    rewrite Nat2Z.inj_succ, Z.pow_succ_r by lia.
    replace (s * (10 * 10 ^ Z.of_nat j)) with ((s * 10 ^ Z.of_nat j) * 10) by lia.
    rewrite Z.mod_mul by lia. simpl (0 =? 0).
    rewrite Z.div_mul by lia. rewrite IH by (assumption || lia). f_equal. lia.
Qed.

Lemma log2_pow10 s j : 0 < s -> (j <= Z.to_nat (Z.log2 (s * 10 ^ Z.of_nat j)))%nat.
Proof.
  intros Hs.
  assert (H : 2 ^ Z.of_nat j <= s * 10 ^ Z.of_nat j).
  { assert (2 ^ Z.of_nat j <= 10 ^ Z.of_nat j) by (apply Z.pow_le_mono_l; lia).
    assert (0 < 10 ^ Z.of_nat j) by (apply Z.pow_pos_nonneg; lia). nia. }
  apply Z.log2_le_mono in H. rewrite Z.log2_pow2 in H by lia. lia.
Qed.

Lemma abs_mod10 m : m mod 10 <> 0 -> Z.abs m mod 10 <> 0.
Proof.
  intros H H'. apply H. destruct (Z.abs_eq_or_opp m) as [E|E]; rewrite E in H'.
  - assumption.
  - apply Z.mod_divide in H'; [|lia]. apply Z.mod_divide; [lia|].
    apply Z.divide_opp_r in H'. now rewrite Z.opp_involutive in H'.
Qed.

Lemma normalize_pow m j e :
  m <> 0 -> m mod 10 <> 0 -> 0 <= j ->
  normalize (m * 10 ^ j) e = NumFin m (e + j).
Proof.
  intros Hm Hmod Hj. unfold normalize.
  assert (Hp : 0 < 10 ^ j) by (apply Z.pow_pos_nonneg; lia).
  destruct (m * 10 ^ j =? 0) eqn:E; [apply Z.eqb_eq in E; nia|].
  rewrite Z.abs_mul, (Z.abs_eq (10 ^ j)) by lia.
  rewrite <- (Z2Nat.id j) by assumption.
  rewrite stripZeros_pow.
  - assert (Hsign : (m * 10 ^ Z.of_nat (Z.to_nat j) <? 0) = (m <? 0)).
    { rewrite Z2Nat.id by assumption.
      destruct (m <? 0) eqn:E1; [apply Z.ltb_lt in E1; apply Z.ltb_lt; nia|
                                 apply Z.ltb_ge in E1; apply Z.ltb_ge; nia]. }
    rewrite Hsign. destruct (m <? 0) eqn:E1.
    + apply Z.ltb_lt in E1. f_equal. lia.
    + apply Z.ltb_ge in E1. f_equal. lia.
  - now apply abs_mod10.
  - apply log2_pow10. lia.
Qed.

Lemma normalize_canonical m e :
  canonical (NumFin m e) = true -> normalize m e = NumFin m e.
Proof.
  unfold canonical. destruct (m =? 0) eqn:E.
  - apply Z.eqb_eq in E. subst m. intros He. apply Z.eqb_eq in He. now subst e.
  - intros Hc. apply Z.eqb_neq in E. apply negb_true_iff, Z.eqb_neq in Hc.
    pose proof (normalize_pow m 0 e E Hc (Z.le_refl 0)) as H.
    now rewrite Z.mul_1_r, Z.add_0_r in H.
Qed.

(** *** Number literals *)

Lemma numStop_digitStop rest : numStop rest = true -> digitStop rest = true.
Proof.
  destruct rest as [|c r]; [reflexivity|]. simpl.
  destruct (isDigit c); [discriminate|reflexivity].
Qed.

Lemma takeFraction_none rest :
  numStop rest = true -> takeFraction rest = Some ([], rest).
Proof.
  destruct rest as [|c r]; [reflexivity|]. simpl.
  destruct (Ascii.eqb c "."); [|reflexivity].
  rewrite andb_false_r. discriminate.
Qed.

Lemma takeExponent_none rest :
  numStop rest = true -> takeExponent rest = Some (0, rest).
Proof.
  destruct rest as [|c r]; [reflexivity|]. simpl.
  destruct (Ascii.eqb c "e"), (Ascii.eqb c "E"); simpl;
    rewrite ?andb_false_r; try discriminate; reflexivity.
Qed.

Lemma takeFraction_some fp rest :
  fp <> [] -> forallb isDigit fp = true -> digitStop rest = true ->
  takeFraction ("."%char :: fp ++ rest) = Some (fp, rest).
Proof.
  intros Hne Hd Hs. cbn [takeFraction]. change (Ascii.eqb "." ".") with true. cbv iota.
  rewrite (spanDigits_app fp rest Hd Hs). destruct fp; [contradiction|reflexivity].
Qed.

Lemma takeExponent_some e rest :
  digitStop rest = true ->
  takeExponent ("e"%char :: expChars e ++ rest) = Some (e, rest).
Proof.
  intros Hs. unfold expChars. cbn [takeExponent app].
  change (Ascii.eqb "e" "e") with true. cbn [orb].
  assert (Hsp : spanDigits (digits (Z.to_N (Z.abs e)) ++ rest)
                = (digits (Z.to_N (Z.abs e)), rest))
    by (apply spanDigits_app; [apply digits_isDigit|assumption]).
  destruct (e <? 0) eqn:E.
  - change (Ascii.eqb "-" "-") with true. cbv iota. rewrite Hsp.
    destruct (digits (Z.to_N (Z.abs e))) eqn:Ed; [now apply digits_nonempty in Ed|].
    rewrite <- Ed, digits_value. apply Z.ltb_lt in E. do 2 f_equal. lia.
  - change (Ascii.eqb "+" "-") with false. change (Ascii.eqb "+" "+") with true.
    cbv iota. rewrite Hsp.
    destruct (digits (Z.to_N (Z.abs e))) eqn:Ed; [now apply digits_nonempty in Ed|].
    rewrite <- Ed, digits_value. apply Z.ltb_ge in E. do 2 f_equal. lia.
Qed.

Lemma digitStop_dot r : digitStop ("."%char :: r) = true.
Proof. reflexivity. Qed.
Lemma digitStop_e r : digitStop ("e"%char :: r) = true.
Proof. reflexivity. Qed.

Lemma validInt_head c r : Ascii.eqb c "0" = false -> validInt (c :: r) = true.
Proof. intros H. simpl. now rewrite H. Qed.

Section Magnitude.

Variable s : N.
Hypothesis s_pos : (0 < s)%N.

Let ds := digits s.

Lemma firstn_digits_valid n : (0 < n)%nat -> validInt (firstn n ds) = true.
Proof.
  intros Hn. destruct (digits_head s s_pos) as (c & r & Hd & Hc).
  subst ds. rewrite Hd. destruct n; [lia|]. simpl firstn. now apply validInt_head.
Qed.

Lemma firstn_isDigit n : forallb isDigit (firstn n ds) = true.
Proof.
  pose proof (digits_isDigit s) as H. fold ds in H.
  rewrite <- (firstn_skipn n ds), forallb_app in H.
  now apply andb_prop in H.
Qed.

Lemma skipn_isDigit n : forallb isDigit (skipn n ds) = true.
Proof.
  pose proof (digits_isDigit s) as H. fold ds in H.
  rewrite <- (firstn_skipn n ds), forallb_app in H.
  now apply andb_prop in H.
Qed.

(** The integer form: the digits followed by zeros. *)
Lemma magnitude_integer j rest :
  numStop rest = true ->
  parseMagnitude ((ds ++ zeros j) ++ rest)
  = Some (Z.of_N s * 10 ^ Z.of_nat j, 0, rest).
Proof.
  intros Hs. unfold parseMagnitude.
  rewrite spanDigits_app.
  - assert (Hv : validInt (ds ++ zeros j) = true).
    { destruct (digits_head s s_pos) as (c & r & Hd & Hc).
      subst ds. rewrite Hd. simpl app. now apply validInt_head. }
    rewrite Hv, (takeFraction_none rest Hs), (takeExponent_none rest Hs).
    rewrite app_nil_r, digitsValue_app. subst ds.
    rewrite digits_value, digitsValue_zeros. simpl List.length.
    rewrite N2Z.inj_mul, N2Z.inj_pow, nat_N_Z. reflexivity.
  - rewrite forallb_app. subst ds. now rewrite digits_isDigit, zeros_isDigit.
  - now apply numStop_digitStop.
Qed.

(** The fixed-point form with a point inside the digits. *)
Lemma magnitude_point n rest :
  (0 < n < List.length ds)%nat ->
  numStop rest = true ->
  parseMagnitude ((firstn n ds ++ "."%char :: skipn n ds) ++ rest)
  = Some (Z.of_N s, - Z.of_nat (List.length ds - n), rest).
Proof.
  intros Hn Hs. unfold parseMagnitude.
  rewrite <- app_assoc, <- app_comm_cons.
  rewrite spanDigits_app by (apply firstn_isDigit || apply digitStop_dot).
  rewrite firstn_digits_valid by lia.
  rewrite takeFraction_some.
  - rewrite (takeExponent_none rest Hs), firstn_skipn. subst ds.
    rewrite digits_value, length_skipn. reflexivity.
  - intros H. apply (f_equal (@List.length ascii)) in H.
    rewrite length_skipn in H. simpl in H. lia.
  - apply skipn_isDigit.
  - now apply numStop_digitStop.
Qed.

Lemma digitsValue_leading_zeros z l :
  digitsValue 0 ("0"%char :: zeros z ++ l) = digitsValue 0 l.
Proof.
  change ("0"%char :: zeros z ++ l) with (zeros (S z) ++ l).
  rewrite digitsValue_app, digitsValue_zeros. reflexivity.
Qed.

(** The fixed-point form below one. *)
Lemma magnitude_small z rest :
  numStop rest = true ->
  parseMagnitude (("0"%char :: "."%char :: zeros z ++ ds) ++ rest)
  = Some (Z.of_N s, - Z.of_nat (z + List.length ds), rest).
Proof.
  intros Hs. unfold parseMagnitude.
  change (("0"%char :: "."%char :: zeros z ++ ds) ++ rest)
    with (["0"%char] ++ "."%char :: ((zeros z ++ ds) ++ rest)).
  rewrite spanDigits_app by reflexivity.
  change (validInt ["0"%char]) with true. cbv iota.
  rewrite takeFraction_some.
  - rewrite (takeExponent_none rest Hs).
    change (["0"%char] ++ zeros z ++ ds) with ("0"%char :: zeros z ++ ds).
    rewrite digitsValue_leading_zeros. subst ds.
    rewrite digits_value, length_app. unfold zeros. rewrite repeat_length.
    reflexivity.
  - intros H. apply app_eq_nil in H. destruct H as [_ H].
    now apply (digits_nonempty s).
  - rewrite forallb_app, zeros_isDigit. apply digits_isDigit.
  - now apply numStop_digitStop.
Qed.

(** The exponent form of a single digit. *)
Lemma magnitude_exp1 e rest :
  List.length ds = 1%nat ->
  numStop rest = true ->
  parseMagnitude ((ds ++ "e"%char :: expChars e) ++ rest)
  = Some (Z.of_N s, e, rest).
Proof.
  intros Hk Hs. unfold parseMagnitude.
  rewrite <- app_assoc, <- app_comm_cons.
  rewrite spanDigits_app by (apply digits_isDigit || apply digitStop_e).
  destruct (digits_head s s_pos) as (c & r & Hd & Hc).
  fold ds in Hd. rewrite Hd. rewrite (validInt_head c r Hc).
  change (takeFraction ("e"%char :: expChars e ++ rest))
    with (Some (@nil ascii, "e"%char :: expChars e ++ rest)).
  cbv beta iota.
  rewrite takeExponent_some by now apply numStop_digitStop.
  rewrite app_nil_r, <- Hd. subst ds. rewrite digits_value.
  simpl List.length. now rewrite Z.sub_0_r.
Qed.

(** The exponent form with a point after the first digit. *)
Lemma magnitude_exp e rest :
  (1 < List.length ds)%nat ->
  numStop rest = true ->
  parseMagnitude
    ((firstn 1 ds ++ "."%char :: skipn 1 ds ++ "e"%char :: expChars e) ++ rest)
  = Some (Z.of_N s, e - Z.of_nat (List.length ds - 1), rest).
Proof.
  intros Hk Hs. unfold parseMagnitude.
  rewrite <- app_assoc, <- app_comm_cons, <- app_assoc, <- app_comm_cons.
  rewrite spanDigits_app by (apply firstn_isDigit || apply digitStop_dot).
  rewrite firstn_digits_valid by lia.
  rewrite takeFraction_some.
  - rewrite takeExponent_some by now apply numStop_digitStop.
    rewrite firstn_skipn. subst ds. rewrite digits_value, length_skipn.
    reflexivity.
  - intros H. apply (f_equal (@List.length ascii)) in H.
    rewrite length_skipn in H. simpl in H. lia.
  - apply skipn_isDigit.
  - apply digitStop_e.
Qed.

End Magnitude.

Lemma takeSign_magnitude t x :
  parseMagnitude t = Some x -> takeSign t = (false, t).
Proof.
  destruct t as [|c r]; [reflexivity|]. intros H. simpl.
  destruct (Ascii.eqb c "-") eqn:E; [|reflexivity].
  apply Ascii.eqb_eq in E. subst c. discriminate H.
Qed.

Lemma parseNumber_signed (neg : bool) body M E rest :
  parseMagnitude (body ++ rest) = Some (M, E, rest) ->
  parseNumber ((if neg then ["-"%char] else []) ++ body ++ rest)
  = Some (normalize (if neg then - M else M) E, rest).
Proof.
  intros H. unfold parseNumber. destruct neg.
  - simpl. now rewrite H.
  - simpl app. now rewrite (takeSign_magnitude _ _ H), H.
Qed.

Lemma parseNumber_zero rest :
  numStop rest = true ->
  parseNumber ("0"%char :: rest) = Some (NumFin 0 0, rest).
Proof.
  intros Hs.
  assert (H : parseMagnitude ("0"%char :: rest) = Some (0, 0, rest)).
  { unfold parseMagnitude.
    change ("0"%char :: rest) with (["0"%char] ++ rest).
    rewrite (spanDigits_app ["0"%char] rest eq_refl (numStop_digitStop _ Hs)).
    change (validInt ["0"%char]) with true. cbv iota.
    rewrite (takeFraction_none rest Hs), (takeExponent_none rest Hs).
    reflexivity. }
  unfold parseNumber. rewrite (takeSign_magnitude _ _ H), H. reflexivity.
Qed.

Lemma parseNumber_finite m ex rest :
  canonical (NumFin m ex) = true -> numStop rest = true ->
  parseNumber (finiteToChars m ex ++ rest) = Some (NumFin m ex, rest).
Proof.
  intros Hc Hs. unfold finiteToChars. simpl in Hc.
  destruct (m =? 0) eqn:Em.
  - apply Z.eqb_eq in Em. apply Z.eqb_eq in Hc. subst m ex.
    now apply parseNumber_zero.
  - apply Z.eqb_neq in Em. apply negb_true_iff, Z.eqb_neq in Hc.
    set (s := Z.to_N (Z.abs m)).
    assert (Hpos : (0 < s)%N) by (subst s; lia).
    assert (HsZ : Z.of_N s = Z.abs m) by (subst s; lia).
    set (ds := digits s).
    set (k := Z.of_nat (List.length ds)).
    assert (Hk : 1 <= k).
    { subst k. pose proof (digits_nonempty s). fold ds in H.
      destruct ds; [contradiction|]. simpl. lia. }
    set (n := k + ex).
    rewrite <- app_assoc.
    assert (Hfin : forall j E,
              0 <= j -> E + j = ex ->
              normalize (if m <? 0 then - (Z.of_N s * 10 ^ j) else Z.of_N s * 10 ^ j) E
              = NumFin m ex).
    { intros j E Hj HE. rewrite HsZ.
      replace (if m <? 0 then - (Z.abs m * 10 ^ j) else Z.abs m * 10 ^ j)
        with (m * 10 ^ j).
      - rewrite normalize_pow by assumption. now rewrite HE.
      - destruct (m <? 0) eqn:E1; [apply Z.ltb_lt in E1|apply Z.ltb_ge in E1]; nia. }
    destruct ((k <=? n) && (n <=? 21)) eqn:EA.
    { apply andb_prop in EA. destruct EA as [E1 E2].
      apply Z.leb_le in E1, E2.
      etransitivity;
        [apply (parseNumber_signed (m <? 0)), (magnitude_integer s Hpos);
         assumption|].
      f_equal. f_equal. apply Hfin; subst n; lia. }
    destruct ((0 <? n) && (n <=? 21)) eqn:EB.
    { apply andb_prop in EB. destruct EB as [E1 E2].
      apply Z.ltb_lt in E1. apply Z.leb_le in E2.
      assert (Hlt : n < k).
      { apply andb_false_iff in EA. destruct EA as [E|E];
          [apply Z.leb_gt in E|apply Z.leb_gt in E]; lia. }
      etransitivity;
        [apply (parseNumber_signed (m <? 0)), (magnitude_point s Hpos);
         [fold ds; subst k; lia|assumption]|].
      f_equal. f_equal.
      replace (Z.of_N s) with (Z.of_N s * 10 ^ 0) by lia.
      apply Hfin; [lia|]. fold ds. subst n k. lia. }
    destruct ((-6 <? n) && (n <=? 0)) eqn:EC.
    { apply andb_prop in EC. destruct EC as [E1 E2].
      apply Z.ltb_lt in E1. apply Z.leb_le in E2.
      etransitivity;
        [apply (parseNumber_signed (m <? 0)),
           (magnitude_small s (Z.to_nat (- n)));
         assumption|].
      f_equal. f_equal.
      replace (Z.of_N s) with (Z.of_N s * 10 ^ 0) by lia.
      apply Hfin; [lia|]. fold ds. subst n k. lia. }
    fold (expChars (n - 1)).
    destruct (k =? 1) eqn:EK.
    { apply Z.eqb_eq in EK.
      etransitivity;
        [apply (parseNumber_signed (m <? 0)), (magnitude_exp1 s Hpos);
         [fold ds; subst k; lia|assumption]|].
      f_equal. f_equal.
      replace (Z.of_N s) with (Z.of_N s * 10 ^ 0) by lia.
      apply Hfin; [lia|]. subst n. lia. }
    { apply Z.eqb_neq in EK.
      etransitivity;
        [apply (parseNumber_signed (m <? 0)), (magnitude_exp s Hpos);
         [fold ds; subst k; lia|assumption]|].
      f_equal. f_equal.
      replace (Z.of_N s) with (Z.of_N s * 10 ^ 0) by lia.
      apply Hfin; [lia|]. fold ds. subst n k. lia. }
Qed.

(** *** String literals *)

Lemma parseChars_escape c f tail :
  parseChars (S f) (escapeChar c ++ tail) =
  match parseChars f tail with
  | Some (cs, r) => Some (c :: cs, r)
  | None => None
  end.
Proof.
  destruct c as [[] [] [] [] [] [] [] []]; reflexivity.
Qed.

Lemma parseChars_quote cs : forall fuel rest,
  (List.length cs < fuel)%nat ->
  parseChars fuel (flat_map escapeChar cs ++ dquote :: rest) = Some (cs, rest).
Proof.
  induction cs as [|c cs IH]; intros fuel rest Hf.
  - destruct fuel; [simpl in Hf; lia|]. reflexivity.
  - destruct fuel; [simpl in Hf; lia|]. simpl flat_map.
    rewrite <- app_assoc, parseChars_escape, IH by (simpl in Hf; lia).
    reflexivity.
Qed.

Lemma escapeChar_nonempty c : (1 <= List.length (escapeChar c))%nat.
Proof. destruct c as [[] [] [] [] [] [] [] []]; simpl; lia. Qed.

Lemma flat_map_escape_length cs :
  (List.length cs <= List.length (flat_map escapeChar cs))%nat.
Proof.
  induction cs as [|c cs IH]; simpl; [lia|].
  rewrite length_app. pose proof (escapeChar_nonempty c). lia.
Qed.

Lemma parseString_quote s rest :
  parseString (flat_map escapeChar (chars s) ++ dquote :: rest) = Some (s, rest).
Proof.
  unfold parseString. rewrite parseChars_quote.
  - unfold str, chars. now rewrite string_of_list_ascii_of_string.
  - rewrite length_app. pose proof (flat_map_escape_length (chars s)). simpl. lia.
Qed.

(** *** Arrays and objects *)

Lemma serialize_array ind x r :
  serialize ind (JArr (x :: r))
  = "["%char :: newline :: spaces (ind + 2) ++ serialize (ind + 2) x
    ++ moreItems (ind + 2) r ++ newline :: spaces ind ++ ["]"%char].
Proof.
  cbn [serialize]. do 2 f_equal. apply (f_equal (app (spaces (ind + 2)))).
  apply (f_equal (app (serialize (ind + 2) x))).
  apply (f_equal (fun l => l ++ newline :: spaces ind ++ ["]"%char])).
  induction r as [|y r IH]; [reflexivity|].
  cbn [moreItems]. rewrite <- IH. reflexivity.
Qed.

Lemma serialize_object ind k x r :
  serialize ind (JObj ((k, x) :: r))
  = "{"%char :: newline :: spaces (ind + 2) ++ quote k ++ ":"%char :: " "%char
    :: serialize (ind + 2) x
    ++ moreMembers (ind + 2) r ++ newline :: spaces ind ++ ["}"%char].
Proof.
  cbn [serialize]. do 2 f_equal. apply (f_equal (app (spaces (ind + 2)))).
  apply (f_equal (app (quote k))). do 2 f_equal.
  apply (f_equal (app (serialize (ind + 2) x))).
  apply (f_equal (fun l => l ++ newline :: spaces ind ++ ["}"%char])).
  induction r as [|[k' y] r IH]; [reflexivity|].
  cbn [moreMembers]. rewrite <- IH. reflexivity.
Qed.

Lemma jsonImage_object props : jsonImage (JObj props) = JObj (imageProps props).
Proof.
  cbn [jsonImage]. f_equal. unfold imageProps.
  induction props as [|[k x] r IH]; [reflexivity|]. simpl. now rewrite IH.
Qed.

Lemma wellFormed_object props :
  wellFormed (JObj props)
  = inOrder [] (map fst props) && forallb (fun kv => wellFormed (snd kv)) props.
Proof.
  cbn [wellFormed]. f_equal.
  induction props as [|[k x] r IH]; [reflexivity|]. simpl. now rewrite IH.
Qed.

(** *** Objects in property order *)

Lemma define_last {A} k (v : A) o :
  landsLast k (map fst o) = true -> define k v o = o ++ [(k, v)].
Proof.
  unfold landsLast. induction o as [|[k' v'] r IH]; simpl; [reflexivity|].
  destruct (arrayIndex k) as [i|] eqn:Ek.
  - destruct (arrayIndex k') as [i'|]; simpl; [|discriminate].
    destruct (i <? i')%N; simpl; [discriminate|].
    intros H. now rewrite IH.
  - intros _. now rewrite IH.
Qed.

Lemma objectOf_inOrder members : forall acc : object,
  inOrder (map fst acc) (map fst members) = true ->
  fold_left (fun o kv => setOwn (fst kv) (snd kv) o) members acc
  = acc ++ members.
Proof.
  induction members as [|[k v] ms IH]; intros acc H; simpl.
  - now rewrite app_nil_r.
  - simpl in H. apply andb_prop in H. destruct H as [H H3].
    apply andb_prop in H. destruct H as [H1 H2].
    assert (Hs : setOwn k v acc = acc ++ [(k, v)]).
    { unfold setOwn. rewrite hasOwn_keys.
      apply negb_true_iff in H1. rewrite H1. now apply define_last. }
    rewrite Hs, IH.
    + now rewrite <- app_assoc.
    + now rewrite map_app.
Qed.

Lemma objectOf_image props :
  inOrder [] (map fst props) = true ->
  objectOf (imageProps props) = imageProps props.
Proof.
  intros H. unfold objectOf. rewrite objectOf_inOrder; [reflexivity|].
  unfold imageProps. now rewrite map_map.
Qed.

(** *** White space and first characters *)

Lemma skipWs_spaces n s : skipWs (spaces n ++ s) = skipWs s.
Proof. induction n; simpl; auto. Qed.

Lemma skipWs_indent n s : skipWs (newline :: spaces n ++ s) = skipWs s.
Proof. cbn [skipWs]. change (isWs newline) with true. apply skipWs_spaces. Qed.

Lemma finiteToChars_head m ex :
  exists c r, finiteToChars m ex = c :: r /\ startsValue c = true.
Proof.
  unfold finiteToChars. destruct (m =? 0) eqn:Em.
  - eexists _, _. split; reflexivity.
  - destruct (m <? 0).
    + eexists _, _. split; reflexivity.
    + cbn [app].
      assert (Hd : exists c r, digits (Z.to_N (Z.abs m)) = c :: r /\ isDigit c = true).
      { pose proof (digits_isDigit (Z.to_N (Z.abs m))) as Hall.
        destruct (digits (Z.to_N (Z.abs m))) as [|c r] eqn:E;
          [now apply digits_nonempty in E|].
        simpl in Hall. apply andb_prop in Hall. exists c, r. tauto. }
      destruct Hd as (c & r & Hd & Hc).
      assert (Hsv : startsValue c = true) by (unfold startsValue; now rewrite Hc).
      rewrite Hd.
      set (k := Z.of_nat (List.length (c :: r))).
      set (n := k + ex).
      destruct ((k <=? n) && (n <=? 21));
        [eexists _, _; split; [reflexivity|assumption]|].
      destruct ((0 <? n) && (n <=? 21)) eqn:EB.
      { apply andb_prop in EB. destruct EB as [EB _]. apply Z.ltb_lt in EB.
        destruct (Z.to_nat n) eqn:En; [lia|].
        eexists _, _. split; [reflexivity|assumption]. }
      destruct ((-6 <? n) && (n <=? 0)); [eexists _, _; split; reflexivity|].
      destruct (k =? 1); eexists _, _; (split; [reflexivity|assumption]).
Qed.

Lemma serialize_head ind v :
  exists c r, serialize ind v = c :: r /\ startsValue c = true.
Proof.
  destruct v as [|[]|[m ex| |neg]|s|[|x items]|[|[k x] props]];
    try (eexists _, _; split; reflexivity).
  apply finiteToChars_head.
Qed.

Lemma startsValue_skipWs c r : startsValue c = true -> skipWs (c :: r) = c :: r.
Proof.
  intros H. cbn [skipWs].
  destruct c as [[] [] [] [] [] [] [] []]; try reflexivity; discriminate H.
Qed.

Lemma skipWs_serialize ind v rest :
  skipWs (serialize ind v ++ rest) = serialize ind v ++ rest.
Proof.
  destruct (serialize_head ind v) as (c & r & -> & Hc).
  now apply startsValue_skipWs.
Qed.

Lemma numStop_comma r : numStop (","%char :: r) = true.
Proof. reflexivity. Qed.

Lemma numStop_newline r : numStop (newline :: r) = true.
Proof. reflexivity. Qed.

(** *** Enough fuel *)

Lemma size_array items : size (JArr items) = S (sizeItems items).
Proof. reflexivity. Qed.

Lemma size_object props : size (JObj props) = S (sizeMembers props).
Proof. reflexivity. Qed.

(** *** Reading a value back *)

Lemma skipWs_idem s : skipWs (skipWs s) = skipWs s.
Proof.
  induction s as [|c r IH]; [reflexivity|]. cbn [skipWs].
  destruct (isWs c) eqn:E; [assumption|]. cbn [skipWs]. now rewrite E.
Qed.

Lemma parseValue_skip fuel s : parseValue fuel (skipWs s) = parseValue fuel s.
Proof.
  destruct fuel; [reflexivity|]. cbn [parseValue]. now rewrite skipWs_idem.
Qed.

Lemma parseValue_indent fuel n s :
  parseValue fuel (newline :: spaces n ++ s) = parseValue fuel s.
Proof.
  rewrite <- (parseValue_skip fuel (newline :: _)), skipWs_indent.
  apply parseValue_skip.
Qed.

Lemma parseElements_indent fuel n s :
  parseElements fuel (newline :: spaces n ++ s) = parseElements fuel s.
Proof.
  destruct fuel; [reflexivity|]. cbn [parseElements].
  now rewrite parseValue_indent.
Qed.

Lemma parseMembers_indent fuel n s :
  parseMembers fuel (newline :: spaces n ++ s) = parseMembers fuel s.
Proof.
  destruct fuel; [reflexivity|]. cbn [parseMembers].
  now rewrite skipWs_indent.
Qed.

Lemma parseValue_string f s rest :
  parseValue (S f) (quote s ++ rest) = Some (JStr s, rest).
Proof.
  unfold quote. rewrite <- app_comm_cons, <- app_assoc.
  change ([dquote] ++ rest) with (dquote :: rest).
  cbn -[parseString flat_map chars]. now rewrite parseString_quote.
Qed.

Lemma parseValue_number f s n rest :
  parseNumber s = Some (n, rest) -> parseValue (S f) s = Some (JNum n, rest).
Proof.
  intros H. destruct s as [|c r]; [discriminate H|].
  destruct (Ascii.eqb c "-") eqn:Em.
  - apply Ascii.eqb_eq in Em. subst c.
    cbn -[parseNumber]. now rewrite H.
  - destruct (isDigit c) eqn:Ed.
    + destruct c as [[] [] [] [] [] [] [] []]; try discriminate Ed;
        cbn -[parseNumber]; now rewrite H.
    + exfalso. unfold parseNumber in H. cbn [takeSign] in H. rewrite Em in H.
      unfold parseMagnitude in H. cbn [spanDigits] in H. rewrite Ed in H.
      discriminate H.
Qed.

Lemma not_bracket {A} c r (X : list ascii -> A) (Y : A) :
  startsValue c = true ->
  match c :: r with
  | "]"%char :: r' => X r'
  | _ => Y
  end = Y.
Proof.
  intros H. destruct c as [[] [] [] [] [] [] [] []]; try reflexivity; discriminate H.
Qed.

Lemma not_brace {A} c r (X : list ascii -> A) (Y : A) :
  startsValue c = true ->
  match c :: r with
  | "}"%char :: r' => X r'
  | _ => Y
  end = Y.
Proof.
  intros H. destruct c as [[] [] [] [] [] [] [] []]; try reflexivity; discriminate H.
Qed.

Lemma parseValue_array f s :
  (exists c r, skipWs s = c :: r /\ startsValue c = true) ->
  parseValue (S f) ("["%char :: s) =
  match parseElements f s with
  | Some (items, r') => Some (JArr items, r')
  | None => None
  end.
Proof.
  intros (c & r & Hs & Hc). cbn -[parseElements skipWs].
  change (skipWs ("["%char :: s)) with ("["%char :: s). cbv iota.
  cbn -[parseElements skipWs]. rewrite Hs.
  exact (not_bracket c r (fun r' => Some (JArr [], r')) _ Hc).
Qed.

Lemma parseValue_object f s :
  (exists c r, skipWs s = c :: r /\ startsValue c = true) ->
  parseValue (S f) ("{"%char :: s) =
  match parseMembers f s with
  | Some (members, r') => Some (JObj (objectOf members), r')
  | None => None
  end.
Proof.
  intros (c & r & Hs & Hc). cbn -[parseMembers skipWs].
  change (skipWs ("{"%char :: s)) with ("{"%char :: s). cbv iota.
  cbn -[parseMembers skipWs]. rewrite Hs.
  exact (not_brace c r (fun r' => Some (JObj [], r')) _ Hc).
Qed.

Lemma parseValue_space fuel s : parseValue fuel (" "%char :: s) = parseValue fuel s.
Proof.
  rewrite <- (parseValue_skip fuel (" "%char :: s)). cbn [skipWs].
  change (isWs " ") with true. cbv iota. apply parseValue_skip.
Qed.

Lemma parseElements_items i j rest : forall r x fuel,
  Forall readsBack (x :: r) ->
  forallb wellFormed (x :: r) = true ->
  (sizeItems (x :: r) <= fuel)%nat ->
  parseElements fuel
    (serialize i x ++ moreItems i r ++ newline :: spaces j ++ "]"%char :: rest)
  = Some (map jsonImage (x :: r), rest).
Proof.
  induction r as [|y r IH]; intros x fuel HP Hwf Hf.
  - inversion HP as [|? ? Hx _]; subst. cbn [forallb] in Hwf.
    apply andb_prop in Hwf. destruct Hwf as [Hwx _].
    destruct fuel as [|f]; [cbn [sizeItems] in Hf; lia|].
    cbn [parseElements moreItems app].
    rewrite (Hx Hwx i f _ ltac:(cbn [sizeItems] in Hf; lia) (numStop_newline _)).
    rewrite skipWs_indent. reflexivity.
  - inversion HP as [|? ? Hx HP']; subst. cbn [forallb] in Hwf.
    apply andb_prop in Hwf. destruct Hwf as [Hwx Hwr].
    destruct fuel as [|f]; [cbn [sizeItems] in Hf; lia|].
    cbn [parseElements moreItems app].
    rewrite (Hx Hwx i f _ ltac:(cbn [sizeItems] in Hf; lia) (numStop_comma _)).
    change (skipWs (","%char :: ?t)) with (","%char :: t).
    cbv iota. change (Ascii.eqb "," ",") with true. cbv iota.
    rewrite <- app_assoc, parseElements_indent, <- app_assoc.
    rewrite (IH y f HP' Hwr ltac:(cbn [sizeItems] in Hf |- *; lia)).
    reflexivity.
Qed.

Lemma parseMembers_members i j rest : forall r k x fuel,
  Forall (fun kv => readsBack (snd kv)) ((k, x) :: r) ->
  forallb (fun kv => wellFormed (snd kv)) ((k, x) :: r) = true ->
  (sizeMembers ((k, x) :: r) <= fuel)%nat ->
  parseMembers fuel
    (quote k ++ ":"%char :: " "%char :: serialize i x
     ++ moreMembers i r ++ newline :: spaces j ++ "}"%char :: rest)
  = Some (imageProps ((k, x) :: r), rest).
Proof.
  induction r as [|[k' y] r IH]; intros k x fuel HP Hwf Hf.
  - inversion HP as [|? ? Hx _]; subst. cbn [forallb snd] in Hwf, Hx.
    apply andb_prop in Hwf. destruct Hwf as [Hwx _].
    destruct fuel as [|f]; [cbn [sizeMembers] in Hf; lia|].
    cbn [parseMembers moreMembers app]. unfold quote at 1.
    rewrite <- app_comm_cons, <- app_assoc.
    change ([dquote] ++ ?t) with (dquote :: t).
    change (skipWs (dquote :: ?t)) with (dquote :: t). cbv iota.
    change (Ascii.eqb dquote dquote) with true. cbv iota.
    rewrite parseString_quote.
    change (skipWs (":"%char :: ?t)) with (":"%char :: t). cbv iota.
    change (Ascii.eqb ":" ":") with true. cbv iota.
    rewrite parseValue_space.
    rewrite (Hx Hwx i f _ ltac:(cbn [sizeMembers] in Hf; lia) (numStop_newline _)).
    rewrite skipWs_indent. reflexivity.
  - inversion HP as [|? ? Hx HP']; subst. cbn [forallb snd] in Hwf, Hx.
    apply andb_prop in Hwf. destruct Hwf as [Hwx Hwr].
    destruct fuel as [|f]; [cbn [sizeMembers] in Hf; lia|].
    cbn [parseMembers moreMembers app]. unfold quote at 1.
    rewrite <- app_comm_cons, <- app_assoc.
    change ([dquote] ++ ?t) with (dquote :: t).
    change (skipWs (dquote :: ?t)) with (dquote :: t). cbv iota.
    change (Ascii.eqb dquote dquote) with true. cbv iota.
    rewrite parseString_quote.
    change (skipWs (":"%char :: ?t)) with (":"%char :: t). cbv iota.
    change (Ascii.eqb ":" ":") with true. cbv iota.
    rewrite parseValue_space.
    rewrite (Hx Hwx i f _ ltac:(cbn [sizeMembers] in Hf; lia) (numStop_comma _)).
    change (skipWs (","%char :: ?t)) with (","%char :: t).
    cbv iota. change (Ascii.eqb "," ",") with true. cbv iota.
    rewrite <- app_assoc, parseMembers_indent.
    rewrite <- app_assoc, <- app_comm_cons, <- app_comm_cons, <- app_assoc.
    rewrite (IH k' y f HP' Hwr ltac:(cbn [sizeMembers] in Hf |- *; lia)).
    reflexivity.
Qed.

Lemma skipWs_element n ind v t :
  exists c r, skipWs (newline :: spaces n ++ serialize ind v ++ t) = c :: r
              /\ startsValue c = true.
Proof.
  rewrite skipWs_indent, skipWs_serialize.
  destruct (serialize_head ind v) as (c & r & -> & Hc).
  exists c, (r ++ t). split; [reflexivity|assumption].
Qed.

Lemma skipWs_member n k t :
  exists c r, skipWs (newline :: spaces n ++ quote k ++ t) = c :: r
              /\ startsValue c = true.
Proof.
  rewrite skipWs_indent. unfold quote. rewrite <- app_comm_cons.
  eexists _, _. split; reflexivity.
Qed.

Theorem value_reads_back v : readsBack v.
Proof.
  induction v as [|b|n|s|items IH|props IH] using value_induction;
    unfold readsBack; intros Hwf ind fuel rest Hf Hs.
  - destruct fuel as [|f]; [simpl in Hf; lia|]. reflexivity.
  - destruct fuel as [|f]; [simpl in Hf; lia|]. destruct b; reflexivity.
  - destruct fuel as [|f]; [simpl in Hf; lia|].
    destruct n as [m ex| |neg]; try reflexivity.
    apply parseValue_number. cbn [serialize numberToJSON].
    now apply parseNumber_finite.
  - destruct fuel as [|f]; [simpl in Hf; lia|]. apply parseValue_string.
  - destruct items as [|x r].
    + destruct fuel as [|f]; [simpl in Hf; lia|]. reflexivity.
    + rewrite size_array in Hf.
      destruct fuel as [|f]; [lia|].
      rewrite serialize_array. cbn [wellFormed] in Hwf.
      rewrite <- app_comm_cons.
      rewrite parseValue_array.
      * rewrite <- app_comm_cons, <- !app_assoc, parseElements_indent.
        rewrite <- app_comm_cons, <- app_assoc.
        change (["]"%char] ++ rest) with ("]"%char :: rest).
        rewrite (parseElements_items (ind + 2) ind rest r x f IH Hwf
                   ltac:(lia)).
        reflexivity.
      * rewrite <- app_comm_cons, <- !app_assoc. apply skipWs_element.
  - destruct props as [|[k x] r].
    + destruct fuel as [|f]; [simpl in Hf; lia|]. reflexivity.
    + rewrite size_object in Hf.
      destruct fuel as [|f]; [lia|].
      rewrite serialize_object, jsonImage_object.
      rewrite wellFormed_object in Hwf. apply andb_prop in Hwf.
      destruct Hwf as [Hord Hwf].
      rewrite <- app_comm_cons.
      rewrite parseValue_object.
      * rewrite <- app_comm_cons, <- !app_assoc, parseMembers_indent.
        repeat (rewrite <- app_comm_cons || rewrite <- app_assoc).
        change ([] ++ rest) with rest.
        rewrite (parseMembers_members (ind + 2) ind rest r k x f IH Hwf
                   ltac:(lia)).
        now rewrite objectOf_image.
      * rewrite <- app_comm_cons, <- !app_assoc. apply skipWs_member.
Qed.

Lemma serialize_nonempty ind v : (1 <= List.length (serialize ind v))%nat.
Proof.
  destruct (serialize_head ind v) as (c & r & -> & _). simpl. lia.
Qed.

Lemma size_le_text v : forall ind, (size v <= List.length (serialize ind v))%nat.
Proof.
  induction v as [|b|n|s|items IH|props IH] using value_induction; intros ind;
    try (pose proof (serialize_nonempty ind JNull);
         apply serialize_nonempty).
  - destruct items as [|x r]; [simpl; lia|].
    rewrite size_array, serialize_array.
    cbn [List.length]. rewrite !length_app. cbn [List.length].
    assert (H : forall i, (sizeItems (x :: r)
                           <= List.length (serialize i x)
                              + List.length (moreItems i r) + 1)%nat).
    { intros i. clear - IH. revert x IH.
      induction r as [|y r IHr]; intros x IH.
      - inversion IH as [|? ? Hx _]; subst. specialize (Hx i). simpl. lia.
      - inversion IH as [|? ? Hx IH']; subst. specialize (Hx i).
        specialize (IHr y IH'). cbn [sizeItems moreItems List.length] in *.
        rewrite !length_app. lia. }
    specialize (H (ind + 2)%nat). lia.
  - destruct props as [|[k x] r]; [simpl; lia|].
    rewrite size_object, serialize_object.
    cbn [List.length]. rewrite !length_app. cbn [List.length].
    rewrite !length_app. cbn [List.length].
    assert (H : forall i, (sizeMembers ((k, x) :: r)
                           <= List.length (serialize i x)
                              + List.length (moreMembers i r) + 1)%nat).
    { intros i. clear - IH. revert k x IH.
      induction r as [|[k' y] r IHr]; intros k x IH.
      - inversion IH as [|? ? Hx _]; subst. specialize (Hx i). simpl in *. lia.
      - inversion IH as [|? ? Hx IH']; subst. specialize (Hx i).
        specialize (IHr k' y IH'). cbn [sizeMembers moreMembers List.length snd] in *.
        rewrite !length_app. cbn [List.length]. rewrite !length_app. lia. }
    specialize (H (ind + 2)%nat). lia.
Qed.

(** Parsing the text of a well-formed value gives back what the text
    denotes. *)
Theorem parse_stringify v :
  wellFormed v = true -> parse (stringify v) = Some (jsonImage v).
Proof.
  intros Hwf. unfold parse, stringify, str, chars.
  rewrite list_ascii_of_string_of_list_ascii.
  pose proof (value_reads_back v Hwf 0%nat
                (2 * List.length (serialize 0 v) + 2)%nat []) as H.
  rewrite app_nil_r in H. rewrite H; [reflexivity| |reflexivity].
  pose proof (size_le_text v 0%nat). lia.
Qed.

Lemma jsonData_wellFormed v :
  jsonData v = true -> wellFormed v = true /\ jsonImage v = v.
Proof.
  induction v as [|b|n|s|items IH|props IH] using value_induction;
    intros H; try (split; reflexivity).
  - destruct n as [m ex| |neg]; try discriminate H. split; [exact H|reflexivity].
  - cbn [jsonData wellFormed jsonImage] in *.
    induction items as [|x r IHr]; [split; reflexivity|].
    inversion IH as [|? ? Hx IH']; subst. cbn [forallb] in H.
    apply andb_prop in H. destruct H as [H1 H2].
    destruct (Hx H1) as [Hw Hi]. destruct (IHr IH' H2) as [Hwr Hir].
    cbn [forallb map]. rewrite Hw, Hwr, Hi. split; [reflexivity|].
    inversion Hir as [Hir']. now rewrite !Hir'.
  - rewrite wellFormed_object, jsonImage_object.
    assert (Hd : jsonData (JObj props)
                 = inOrder [] (map fst props)
                   && forallb (fun kv => jsonData (snd kv)) props).
    { cbn [jsonData]. f_equal. clear.
      induction props as [|[k x] r IHr]; [reflexivity|]. simpl. now rewrite IHr. }
    rewrite Hd in H. apply andb_prop in H. destruct H as [Hord H].
    rewrite Hord. cbn [andb]. clear Hd Hord.
    induction props as [|[k x] r IHr]; [split; reflexivity|].
    inversion IH as [|? ? Hx IH']; subst. cbn [forallb snd] in H, Hx.
    apply andb_prop in H. destruct H as [H1 H2].
    destruct (Hx H1) as [Hw Hi]. destruct (IHr IH' H2) as [Hwr Hir].
    cbn [forallb snd]. rewrite Hw, Hwr. split; [reflexivity|].
    unfold imageProps in *. cbn [map fst snd]. rewrite Hi.
    inversion Hir as [Hir']. now rewrite !Hir'.
Qed.

(** Every integer has a canonical form. *)
Lemma decompose_pow10 k : forall n,
  (Z.to_nat n <= k)%nat -> 0 < n ->
  exists s j, n = s * 10 ^ j /\ s mod 10 <> 0 /\ 0 <= j.
Proof.
  induction k as [|k IH]; intros n Hk Hn; [lia|].
  destruct (Z.eq_dec (n mod 10) 0) as [E|E].
  - pose proof (Z.div_mod n 10 ltac:(lia)) as Hd. rewrite E, Z.add_0_r in Hd.
    destruct (IH (n / 10)) as (s & j & Hs & Hm & Hj); [lia|lia|].
    exists s, (j + 1). repeat split; [|assumption|lia].
    rewrite Z.pow_add_r, Z.pow_1_r by lia. lia.
  - exists n, 0. repeat split; [lia|assumption|lia].
Qed.

Lemma normalize_is_canonical m ex : canonical (normalize m ex) = true.
Proof.
  destruct (Z.eq_dec m 0) as [->|Hm]; [reflexivity|].
  destruct (decompose_pow10 (Z.to_nat (Z.abs m)) (Z.abs m) (Nat.le_refl _)
              ltac:(lia)) as (s & j & Hs & Hmod & Hj).
  assert (Hpos : 0 < 10 ^ j) by (apply Z.pow_pos_nonneg; lia).
  assert (Hs0 : s <> 0) by (intros ->; lia).
  destruct (Z.abs_eq_or_opp m) as [E|E].
  - rewrite E in Hs. rewrite Hs, normalize_pow by assumption.
    cbn [canonical]. apply Z.eqb_neq in Hs0, Hmod. now rewrite Hs0, Hmod.
  - assert (Hm' : m = (- s) * 10 ^ j) by lia.
    assert (Hmod' : (- s) mod 10 <> 0).
    { intros H. apply Hmod. apply Z.mod_divide in H; [|lia].
      apply Z.mod_divide; [lia|]. apply Z.divide_opp_r in H.
      now rewrite Z.opp_involutive in H. }
    rewrite Hm', normalize_pow by (assumption || lia).
    cbn [canonical]. assert (Hs1 : - s <> 0) by lia.
    apply Z.eqb_neq in Hs1, Hmod'. now rewrite Hs1, Hmod'.
Qed.

End JsonFacts.

(** ** The submission form *)

Module FormFacts.
Import Form.

(** C9. A submission attempt on a form whose tool, risk type or severity
    is the empty string has no effect at all: the submit button is
    disabled, [handleSubmit] does not run, and the store is not asked to
    insert anything. *)
Theorem empty_required_field_blocks_insert (st : formState) (storeError : bool) :
  aiTool (data st) = "" \/ riskType (data st) = "" \/ severity (data st) = "" ->
  submitAttempt st storeError = [] /\
  existsb isInsert (submitAttempt st storeError) = false.
Proof.
  intros H. assert (Hd : submitDisabled st = true).
  { unfold submitDisabled, isEmpty.
    destruct H as [-> | [-> | ->]]; simpl;
      rewrite ?orb_true_r; reflexivity. }
  unfold submitAttempt. rewrite Hd. split; reflexivity.
Qed.

Lemma empty_required_field_blocks_insert_witness :
  (aiTool (data incompleteForm) = "" \/ riskType (data incompleteForm) = ""
   \/ severity (data incompleteForm) = "") /\
  submitAttempt incompleteForm false = [] /\
  existsb isInsert (submitAttempt incompleteForm false) = false.
Proof.
  split; [left; reflexivity|].
  apply (empty_required_field_blocks_insert incompleteForm false).
  left; reflexivity.
Defined.

(** The gate is the button: a complete form reaches the store, and
    [handleSubmit] itself checks nothing. *)
Example complete_form_inserts :
  submitAttempt completeForm false
  = [ SetIsSubmitting true; Insert (data completeForm);
      Toast "Risk Assessment Submitted" "Thank you for your submission!" false;
      SetFormData emptyForm; SetIsSubmitting false ].
Proof. reflexivity. Qed.

Example handleSubmit_unchecked :
  existsb isInsert (handleSubmit incompleteForm false) = true.
Proof. reflexivity. Qed.

End FormFacts.

(** ** Exporters *)

Module ExporterFacts.
Import JS Exporter JSFacts JsonFacts.



Lemma wants_none_no_assessments mean st dataType t o :
  Enhanced.wantsAssessments dataType = false ->
  Enhanced.assemble mean st dataType t = Some o ->
  getOwn "risk_assessments" o = None.
Proof.
  unfold Enhanced.assemble. intros -> H.
  destruct (Enhanced.wantsStrategies dataType);
    destruct (Enhanced.wantsFactors dataType);
    repeat match type of H with
           | context [mean ?x] => destruct (mean x); [|discriminate]
           end;
    inversion H; reflexivity.
Qed.

(** C10, as amended. When at least one record set is loaded, an export
    to CSV with a data type other than "all" and "assessments" assembles
    an object without [risk_assessments], converts it to the empty
    string, downloads that empty text as a CSV file and announces
    success. *)
Theorem csv_without_assessments_is_empty
    (mean : meanFn) (st : Enhanced.state)
    (dataType : string) (t_file t_meta : Z) (o : object) :
  Enhanced.noData st = false ->
  Enhanced.wantsAssessments dataType = false ->
  Enhanced.assemble mean st dataType t_meta = Some o ->
  getOwn "risk_assessments" o = None /\
  Enhanced.convertToCSV o = Some "" /\
  Enhanced.exportData mean st "csv" dataType t_file t_meta
  = [ SetIsExporting true;
      Download (Enhanced.fileName "csv" dataType t_file) "text/csv" "";
      Toast "Export Completed"
            ("Comprehensive " ++ dataType
             ++ " data exported successfully as CSV.")%string Default;
      SetIsExporting false ].
Proof.
  intros Hnd Hw Ha.
  pose proof (wants_none_no_assessments _ _ _ _ _ Hw Ha) as Hg.
  assert (Hc : Enhanced.convertToCSV o = Some "").
  { unfold Enhanced.convertToCSV. now rewrite Hg. }
  repeat split; try assumption.
  unfold Enhanced.exportData, Enhanced.dataStr. rewrite Hnd, Ha. simpl.
  rewrite Hc. reflexivity.
Qed.

Lemma csv_without_assessments_is_empty_witness :
  Enhanced.noData strategiesOnly = false /\
  Enhanced.wantsAssessments "strategies" = false /\
  Enhanced.assemble (fun _ => Some (NumFin 8 0)) strategiesOnly "strategies" 0
  = Some [ ("mitigation_strategies", records [sampleStrategy]);
           ("strategy_summary",
            JObj [ ("total_strategies", JNum (NumFin 1 0));
                   ("average_effectiveness", JNum (NumFin 8 0));
                   ("sectors_covered", JNum (NumFin 1 0)) ]) ] /\
  Enhanced.exportData (fun _ => Some (NumFin 8 0)) strategiesOnly
                      "csv" "strategies" 0 0
  = [ SetIsExporting true;
      Download (Enhanced.fileName "csv" "strategies" 0) "text/csv" "";
      Toast "Export Completed"
            "Comprehensive strategies data exported successfully as CSV."
            Default;
      SetIsExporting false ].
Proof.
  split; [reflexivity|]. split; [reflexivity|]. split; [reflexivity|].
  exact (proj2 (proj2
    (csv_without_assessments_is_empty (fun _ => Some (NumFin 8 0))
       strategiesOnly "strategies" 0 0 _ eq_refl eq_refl eq_refl))).
Defined.

(** C10, as stated, fails when nothing is loaded: the call reports "no
    data" and downloads nothing. *)
Lemma csv_without_any_data_reports_no_data :
  Enhanced.wantsAssessments "strategies" = false /\
  Enhanced.exportData Enhanced.meanOfNone emptyState "csv" "strategies" 0 0
  = [Toast "No Data Available"
           "No data available for export. Please ensure data has been loaded."
           Destructive].
Proof. split; reflexivity. Qed.

(** *** The clock in the payload *)

Lemma assemble_clock_free mean st dataType t1 t2 :
  Enhanced.wantsAssessments dataType = false ->
  Enhanced.assemble mean st dataType t1 = Enhanced.assemble mean st dataType t2.
Proof. unfold Enhanced.assemble. intros ->. reflexivity. Qed.

Lemma csv_clock_free mean st dataType t1 t2 :
  match Enhanced.assemble mean st dataType t1 with
  | Some o => Enhanced.convertToCSV o
  | None => None
  end =
  match Enhanced.assemble mean st dataType t2 with
  | Some o => Enhanced.convertToCSV o
  | None => None
  end.
Proof.
  unfold Enhanced.assemble.
  destruct (Enhanced.wantsAssessments dataType);
    destruct (Enhanced.wantsStrategies dataType);
    destruct (Enhanced.wantsFactors dataType);
    repeat match goal with
           | |- context [mean ?x] => destruct (mean x)
           end;
    reflexivity.
Qed.

(** C3, as amended. For a fixed snapshot, format and data type the text
    payload of the enhanced exporter is determined by the instant at
    which the clock is read for [export_date]: two calls that read the
    same instant produce the same text, and so do any two calls that
    export to CSV or that export a data type other than "all" and
    "assessments", whose payloads do not contain the clock. *)
Theorem payload_determined_up_to_clock
    (mean : meanFn) (st : Enhanced.state)
    (format dataType : string) (t1 t2 : Z) :
  t1 = t2 \/ format = "csv" \/ Enhanced.wantsAssessments dataType = false ->
  Enhanced.dataStr mean st format dataType t1
  = Enhanced.dataStr mean st format dataType t2.
Proof.
  intros [-> | [-> | Hw]]; [reflexivity| |].
  - unfold Enhanced.dataStr. simpl. apply csv_clock_free.
  - unfold Enhanced.dataStr.
    now rewrite (assemble_clock_free mean st dataType t1 t2 Hw).
Qed.

Lemma payload_determined_up_to_clock_witness :
  (0 = 1 \/ "csv" = "csv" \/ Enhanced.wantsAssessments "all" = false) /\
  Enhanced.dataStr Enhanced.meanOfNone sampleState "csv" "all" 0
  = Enhanced.dataStr Enhanced.meanOfNone sampleState "csv" "all" 1.
Proof.
  split; [right; left; reflexivity|].
  apply (payload_determined_up_to_clock Enhanced.meanOfNone sampleState
           "csv" "all" 0 1).
  right; left; reflexivity.
Defined.

(** C3, as stated, fails: the same snapshot exported twice to JSON, one
    millisecond apart, gives two different texts. *)
Lemma payload_depends_on_clock :
  Enhanced.dataStr Enhanced.meanOfNone sampleState "json" "assessments"
                   1751025435123
  <> Enhanced.dataStr Enhanced.meanOfNone sampleState "json" "assessments"
                      1751025435124.
Proof. vm_compute. intros H. inversion H. Qed.

Example sample_export_date :
  toISOString 1751025435123 = "2025-06-27T11:57:15.123Z" /\
  toISOString 1751025435124 = "2025-06-27T11:57:15.124Z".
Proof. split; vm_compute; reflexivity. Qed.

(** *** The date in the file name *)

Lemma padLeft_length w : forall l,
  (List.length l <= w)%nat -> List.length (padLeft w l) = w.
Proof.
  induction w as [|w IH]; intros l H.
  - destruct l; [reflexivity|simpl in H; lia].
  - cbn [padLeft]. destruct (Nat.ltb (List.length l) (S w)) eqn:E.
    + apply Nat.ltb_lt in E. cbn [List.length]. rewrite IH; lia.
    + apply Nat.ltb_ge in E. lia.
Qed.

Lemma padLeft_isDigit w : forall l,
  forallb isDigit l = true -> forallb isDigit (padLeft w l) = true.
Proof.
  induction w as [|w IH]; intros l H.
  - cbn [padLeft]. now destruct (Nat.ltb (List.length l) 0).
  - cbn [padLeft]. destruct (Nat.ltb (List.length l) (S w)); [|assumption].
    cbn [forallb]. now rewrite IH.
Qed.

Lemma pad_digits w n :
  (0 < w)%nat -> 0 <= n < 10 ^ Z.of_nat w -> digitsOnly w (pad w n) = true.
Proof.
  intros Hw Hn. unfold digitsOnly, pad.
  rewrite padLeft_length, Nat.eqb_refl, padLeft_isDigit;
    [reflexivity|apply digits_isDigit|].
  apply digits_length; [|assumption].
  apply N2Z.inj_lt. rewrite N2Z.inj_pow, Z2N.id, nat_N_Z by lia.
  change (Z.of_N 10) with 10. lia.
Qed.

Lemma civil_month_day days :
  let '(y, m, d) := civilFromDays days in 1 <= m <= 12 /\ 1 <= d <= 31.
Proof.
  unfold civilFromDays.
  set (z := days + 719468). set (era := z / 146097).
  set (doe := z - era * 146097).
  assert (Hdoe : 0 <= doe < 146097).
  { subst doe era. Z.to_euclidean_division_equations. lia. }
  clearbody doe. clear z era.
  set (yoe := (doe - doe / 1460 + doe / 36524 - doe / 146096) / 365).
  set (doy := doe - (365 * yoe + yoe / 4 - yoe / 100)).
  assert (Hdoy : 0 <= doy <= 365).
  { subst doy yoe. Z.to_euclidean_division_equations. lia. }
  clearbody doy. clear yoe Hdoe.
  set (mp := (5 * doy + 2) / 153).
  assert (Hmp : 0 <= mp <= 11 /\ 1 <= doy - (153 * mp + 2) / 5 + 1 <= 31).
  { subst mp. Z.to_euclidean_division_equations. lia. }
  clearbody mp. destruct (mp <? 10) eqn:E;
    [apply Z.ltb_lt in E|apply Z.ltb_ge in E]; lia.
Qed.

Lemma isoDate_pattern t :
  0 <= exportYear t <= 9999 -> datePattern (isoDate t) = true.
Proof.
  unfold exportYear, isoDate. intros Hy.
  pose proof (civil_month_day (t / msPerDay)) as Hmd.
  destruct (civilFromDays (t / msPerDay)) as [[y m] d]. cbn [fst] in Hy.
  destruct Hmd as [Hm Hd].
  assert (Hyb : (0 <=? y) && (y <=? 9999) = true)
    by (apply andb_true_intro; split; apply Z.leb_le; lia).
  rewrite Hyb.
  pose proof (pad_digits 4 y ltac:(lia) ltac:(simpl; lia)) as H4.
  pose proof (pad_digits 2 m ltac:(lia) ltac:(simpl; lia)) as Hm2.
  pose proof (pad_digits 2 d ltac:(lia) ltac:(simpl; lia)) as Hd2.
  unfold digitsOnly in *.
  destruct (pad 4 y) as [|y1 [|y2 [|y3 [|y4 [|? ?]]]]]; try discriminate H4.
  destruct (pad 2 m) as [|m1 [|m2 [|? ?]]]; try discriminate Hm2.
  destruct (pad 2 d) as [|d1 [|d2 [|? ?]]]; try discriminate Hd2.
  cbn [Nat.eqb List.length forallb andb] in H4, Hm2, Hd2.
  cbn [app datePattern].
  repeat match goal with
         | H : isDigit _ && _ = true |- _ =>
             let H1 := fresh in
             apply andb_prop in H; destruct H as [H1 H]; rewrite H1; clear H1
         end.
  reflexivity.
Qed.

Lemma digit_not_T c : isDigit c = true -> Ascii.eqb c "T" = false.
Proof.
  destruct c as [[] [] [] [] [] [] [] []]; intros H; try reflexivity; discriminate H.
Qed.

Lemma beforeT_date l rest :
  datePattern l = true -> beforeT (l ++ "T"%char :: rest) = l.
Proof.
  intros H.
  destruct l as [|y1 [|y2 [|y3 [|y4 [|s1 [|m1 [|m2 [|s2 [|d1 [|d2 [|? ?]]]]]]]]]]];
    try discriminate H.
  cbn [datePattern] in H.
  do 9 (let H1 := fresh "D" in apply andb_prop in H; destruct H as [H H1]).
  repeat match goal with
         | H : Ascii.eqb _ "-" = true |- _ => apply Ascii.eqb_eq in H; subst
         end.
  cbn [app beforeT].
  change (Ascii.eqb "-" "T") with false. change (Ascii.eqb "T" "T") with true.
  rewrite (digit_not_T y1), (digit_not_T y2), (digit_not_T y3),
    (digit_not_T y4), (digit_not_T m1), (digit_not_T m2),
    (digit_not_T d1), (digit_not_T d2) by assumption.
  reflexivity.
Qed.

Lemma timestamp_is_date t :
  0 <= exportYear t <= 9999 -> Enhanced.timestamp t = str (isoDate t).
Proof.
  intros Hy. unfold Enhanced.timestamp, toISOString, chars, str.
  rewrite list_ascii_of_string_of_list_ascii.
  now rewrite beforeT_date by now apply isoDate_pattern.
Qed.

(** C7, as amended. A file downloaded by the enhanced exporter is named
    [ai-risk-comprehensive-<dataType>-<date>.<format>], where the date is
    the UTC date of the instant of export, written [YYYY-MM-DD] for the
    years 0 to 9999; a file downloaded by the legacy exporter is named
    [ai-risk-assessments.<format>], without a date. In both the MIME
    type is [application/json] for the format "json" and [text/csv]
    otherwise. *)
Theorem export_file_name_and_type
    (mean : meanFn) (st : Enhanced.state)
    (format dataType : string) (t_file t_meta : Z)
    (name mime content : string) :
  In (Download name mime content)
     (Enhanced.exportData mean st format dataType t_file t_meta) ->
  name = ("ai-risk-comprehensive-" ++ dataType ++ "-"
          ++ Enhanced.timestamp t_file ++ "." ++ format)%string /\
  mime = (if String.eqb format "json" then "application/json" else "text/csv") /\
  (0 <= exportYear t_file <= 9999 ->
   Enhanced.timestamp t_file = str (isoDate t_file) /\
   datePattern (isoDate t_file) = true) /\
  (forall assessments effects name' mime' content',
     Reports.exportData assessments format = Some effects ->
     In (Download name' mime' content') effects ->
     name' = ("ai-risk-assessments." ++ format)%string /\
     mime' = (if String.eqb format "json" then "application/json"
              else "text/csv")).
Proof.
  intros Hin.
  assert (Hmain : name = Enhanced.fileName format dataType t_file
                  /\ mime = mimeType format).
  { unfold Enhanced.exportData in Hin.
    destruct (Enhanced.noData st).
    - destruct Hin as [Hin|[]]. discriminate Hin.
    - destruct Hin as [Hin|Hin]; [discriminate Hin|].
      destruct (Enhanced.dataStr mean st format dataType t_meta).
      + destruct Hin as [Hin|[Hin|[Hin|[]]]]; try discriminate Hin.
        inversion Hin. split; reflexivity.
      + destruct Hin as [Hin|[Hin|[]]]; discriminate Hin. }
  destruct Hmain as [-> ->].
  split; [reflexivity|]. split; [reflexivity|]. split.
  - intros Hy. split; [now apply timestamp_is_date|now apply isoDate_pattern].
  - intros assessments effects name' mime' content' He Hin'.
    unfold Reports.exportData in He.
    destruct (Z.of_nat (List.length assessments) =? 0).
    + inversion He; subst effects. destruct Hin' as [H|[]]. discriminate H.
    + destruct (Reports.dataStr assessments format); [|discriminate He].
      inversion He; subst effects.
      destruct Hin' as [H|[H|[]]]; [|discriminate H].
      inversion H. split; reflexivity.
Qed.

Lemma export_file_name_and_type_witness :
  exists content,
    In (Download "ai-risk-comprehensive-all-2025-06-27.json"
                 "application/json" content)
       (Enhanced.exportData Enhanced.meanOfNone sampleState "json" "all"
          1751025435123 1751025435124) /\
    "ai-risk-comprehensive-all-2025-06-27.json"
    = ("ai-risk-comprehensive-" ++ "all" ++ "-"
       ++ Enhanced.timestamp 1751025435123 ++ "." ++ "json")%string.
Proof.
  eexists.
  assert (H : In (Download "ai-risk-comprehensive-all-2025-06-27.json"
                           "application/json" _)
                 (Enhanced.exportData Enhanced.meanOfNone sampleState "json"
                    "all" 1751025435123 1751025435124))
    by (vm_compute; right; left; reflexivity).
  exact (conj H (proj1 (export_file_name_and_type _ _ _ _ _ _ _ _ _ H))).
Defined.

(** C7, as stated, fails: neither exporter names its file
    [ai-risk-<dataType>-<YYYY-MM-DD>.<ext>]. On 2025-06-27 the enhanced
    exporter writes all data to
    "ai-risk-comprehensive-all-2025-06-27.json", and the legacy exporter
    writes the assessments to "ai-risk-assessments.json". *)
Lemma export_file_names_differ_from_pattern :
  (exists content toast,
     Enhanced.exportData Enhanced.meanOfNone sampleState "json" "all"
       1751025435123 1751025435124
     = [ SetIsExporting true;
         Download "ai-risk-comprehensive-all-2025-06-27.json"
                  "application/json" content;
         toast; SetIsExporting false ]) /\
  fileNameAsSpecified "all" "2025-06-27" "json" = "ai-risk-all-2025-06-27.json" /\
  "ai-risk-comprehensive-all-2025-06-27.json"
  <> fileNameAsSpecified "all" "2025-06-27" "json" /\
  (exists content toast,
     Reports.exportData [sampleAssessment] "json"
     = Some [ Download "ai-risk-assessments.json" "application/json" content;
              toast ]) /\
  "ai-risk-assessments.json"
  <> fileNameAsSpecified "assessments" "2025-06-27" "json".
Proof.
  split; [eexists _, _; vm_compute; reflexivity|].
  split; [reflexivity|]. split; [discriminate|].
  split; [eexists _, _; vm_compute; reflexivity|discriminate].
Qed.

(** *** Reading an export back *)

Lemma records_jsonData l : recordsOk l = true -> jsonData (records l) = true.
Proof.
  unfold recordsOk, records. intros H.
  change (forallb jsonData (map JObj l) = true).
  induction l as [|r l IH]; [reflexivity|]. cbn [forallb map] in H |- *.
  apply andb_prop in H. destruct H as [H1 H2].
  now rewrite H1, IH.
Qed.

Lemma records_wellFormed l : recordsOk l = true -> wellFormed (records l) = true.
Proof. intros H. now apply jsonData_wellFormed, records_jsonData. Qed.

Lemma records_image l : recordsOk l = true -> jsonImage (records l) = records l.
Proof. intros H. now apply jsonData_wellFormed, records_jsonData. Qed.

Lemma wellFormed_numOfZ z : wellFormed (JNum (numOfZ z)) = true.
Proof.
  unfold numOfZ. pose proof (normalize_is_canonical z 0) as H.
  destruct (normalize z 0); [exact H|reflexivity|reflexivity].
Qed.

Lemma wellFormed_lengthNum {A} (l : list A) :
  wellFormed (Enhanced.lengthNum l) = true.
Proof. apply wellFormed_numOfZ. Qed.

Lemma spread_append o more :
  inOrder (map fst o) (map fst more) = true ->
  Enhanced.spread o more = o ++ more.
Proof. apply objectOf_inOrder. Qed.

Lemma getOwn_image k props :
  getOwn k (imageProps props) = option_map jsonImage (getOwn k props).
Proof.
  unfold imageProps. induction props as [|[k' v] r IH]; [reflexivity|].
  simpl. destruct (String.eqb k k'); [reflexivity|exact IH].
Qed.

Lemma assemble_wellFormed mean st dataType t o :
  meanOk mean ->
  recordsOk (Enhanced.assessments st) = true ->
  recordsOk (Enhanced.strategies st) = true ->
  recordsOk (Enhanced.riskFactors st) = true ->
  Enhanced.assemble mean st dataType t = Some o ->
  wellFormed (JObj o) = true /\
  (Enhanced.wantsAssessments dataType = true ->
   getOwn "risk_assessments" o = Some (records (Enhanced.assessments st))).
Proof.
  intros Hm Ha Hs Hf H. unfold Enhanced.assemble in H.
  pose proof (records_wellFormed _ Ha) as Wa.
  pose proof (records_wellFormed _ Hs) as Ws.
  pose proof (records_wellFormed _ Hf) as Wf.
  destruct (Enhanced.wantsAssessments dataType);
    destruct (Enhanced.wantsStrategies dataType);
    destruct (Enhanced.wantsFactors dataType);
    repeat match type of H with
           | context [mean ?x] =>
               let E := fresh "E" in
               destruct (mean x) eqn:E; [apply Hm in E|discriminate H]
           end;
    rewrite ?spread_append in H by reflexivity;
    inversion H; subst o; clear H;
    (split; [|intros; try discriminate; reflexivity]);
    rewrite wellFormed_object;
    (apply andb_true_intro; split; [reflexivity|]);
    cbn [forallb snd app];
    rewrite ?wellFormed_object; cbn [forallb snd map fst];
    rewrite ?Wa, ?Ws, ?Wf, ?wellFormed_lengthNum, ?wellFormed_numOfZ;
    repeat match goal with
           | E : wellFormed (JNum ?n) = true |- _ => rewrite E; clear E
           end;
    reflexivity.
Qed.

(** C8, as amended. When the loaded records are JSON data, the text
    that the legacy exporter writes for the format "json" parses to the
    very list of assessments, and so does the [risk_assessments] member
    of the text that the enhanced exporter writes for the data types
    "all" and "assessments" (for other data types the assessments are
    not in the text). *)
Theorem json_export_round_trip
    (mean : meanFn) (st : Enhanced.state) :
  meanOk mean ->
  recordsOk (Enhanced.assessments st) = true ->
  recordsOk (Enhanced.strategies st) = true ->
  recordsOk (Enhanced.riskFactors st) = true ->
  (Reports.dataStr (Enhanced.assessments st) "json"
   = Some (stringify (records (Enhanced.assessments st))) /\
   parse (stringify (records (Enhanced.assessments st)))
   = Some (records (Enhanced.assessments st))) /\
  (Enhanced.assessments st <> [] ->
   Reports.exportData (Enhanced.assessments st) "json"
   = Some [ Download "ai-risk-assessments.json" "application/json"
                     (stringify (records (Enhanced.assessments st)));
            Toast "Export Complete" "Data exported as JSON file." Default ]) /\
  (forall dataType t_meta o,
     Enhanced.wantsAssessments dataType = true ->
     Enhanced.assemble mean st dataType t_meta = Some o ->
     Enhanced.dataStr mean st "json" dataType t_meta
     = Some (stringify (JObj o)) /\
     exists o',
       parse (stringify (JObj o)) = Some (JObj o') /\
       getOwn "risk_assessments" o' = Some (records (Enhanced.assessments st))).
Proof.
  intros Hm Ha Hs Hf. split; [split; [reflexivity|]|split].
  - rewrite parse_stringify by now apply records_wellFormed.
    now rewrite records_image.
  - intros Hne. unfold Reports.exportData.
    destruct (Enhanced.assessments st) as [|a l] eqn:E; [congruence|].
    reflexivity.
  - intros dataType t_meta o Hw Ho.
    destruct (assemble_wellFormed mean st dataType t_meta o Hm Ha Hs Hf Ho)
      as [Hwf Hget].
    split.
    + unfold Enhanced.dataStr. now rewrite Ho.
    + exists (imageProps o). rewrite parse_stringify by assumption.
      split; [now rewrite jsonImage_object|].
      rewrite getOwn_image, (Hget Hw). cbn [option_map].
      now rewrite records_image.
Qed.

Lemma meanOfNone_ok : meanOk Enhanced.meanOfNone.
Proof. intros xs n H. inversion H. reflexivity. Defined.

Lemma json_export_round_trip_witness :
  meanOk Enhanced.meanOfNone /\
  recordsOk (Enhanced.assessments sampleState) = true /\
  parse (stringify (records [sampleAssessment]))
  = Some (records [sampleAssessment]) /\
  (forall dataType t_meta o,
     Enhanced.wantsAssessments dataType = true ->
     Enhanced.assemble Enhanced.meanOfNone sampleState dataType t_meta = Some o ->
     Enhanced.dataStr Enhanced.meanOfNone sampleState "json" dataType t_meta
     = Some (stringify (JObj o)) /\
     exists o',
       parse (stringify (JObj o)) = Some (JObj o') /\
       getOwn "risk_assessments" o' = Some (records [sampleAssessment])).
Proof.
  split; [exact meanOfNone_ok|]. split; [reflexivity|].
  pose proof (json_export_round_trip Enhanced.meanOfNone sampleState
                meanOfNone_ok eq_refl eq_refl eq_refl) as H.
  exact (conj (proj2 (proj1 H)) (proj2 (proj2 H))).
Defined.

(** C8, as stated, fails: with an assessment loaded, the JSON export of
    the data type "strategies" parses to an object that has no list of
    assessments. *)
Lemma json_export_of_strategies_drops_assessments :
  Enhanced.assessments sampleState = [sampleAssessment] /\
  exists d o,
    Enhanced.dataStr Enhanced.meanOfNone sampleState "json" "strategies" 0
    = Some d /\
    parse d = Some (JObj o) /\
    getOwn "risk_assessments" o = None.
Proof.
  split; [reflexivity|]. eexists _, _.
  split; [reflexivity|]. split; vm_compute; reflexivity.
Qed.

Example sample_round_trip :
  parse (stringify (records [sampleAssessment])) = Some (records [sampleAssessment]).
Proof. vm_compute. reflexivity. Qed.

End ExporterFacts.

(** ** Derived data of the dashboards *)

Module ViewsFacts.
Import JS Aggregator Views JSFacts AggregatorFacts.

(** *** Filters and counts *)

Lemma filter_length_le {A} (f : A -> bool) l :
  (List.length (filter f l) <= List.length l)%nat.
Proof.
  induction l as [|x r IH]; simpl; [lia|]. destruct (f x); simpl; lia.
Qed.

Lemma filter_disjoint_length {A} (f g : A -> bool) l :
  (forall x, f x = true -> g x = false) ->
  (List.length (filter f l) + List.length (filter g l) <= List.length l)%nat.
Proof.
  intros H. induction l as [|x r IH]; simpl; [lia|].
  destruct (f x) eqn:Ef.
  - rewrite (H x Ef). simpl. lia.
  - destruct (g x); simpl; lia.
Qed.

Lemma filterThrowing_length {A} (p : A -> option bool) l : forall r,
  filterThrowing p l = Some r -> (List.length r <= List.length l)%nat.
Proof.
  induction l as [|x l IH]; simpl; intros r H.
  - inversion H. simpl. lia.
  - destruct (p x) as [b|]; [|discriminate].
    destruct (filterThrowing p l) as [r'|]; [|discriminate].
    specialize (IH r' eq_refl). inversion H. destruct b; simpl; lia.
Qed.

Lemma firstn_incl {A} n (l : list A) x : In x (firstn n l) -> In x l.
Proof.
  intros H. rewrite <- (firstn_skipn n l). apply in_or_app. now left.
Qed.

Lemma fieldIs_disjoint field k k' a :
  String.eqb k k' = false ->
  fieldIs field k a = true -> fieldIs field k' a = false.
Proof.
  unfold fieldIs. intros Hne H.
  destruct (getOwn field a) as [[| | |s| |]|]; try discriminate.
  apply String.eqb_eq in H. subst s. exact Hne.
Qed.

Lemma distinctCount_bounds xs : forall seen,
  (List.length seen <= Exporter.Enhanced.distinctCount seen xs
   <= List.length seen + List.length xs)%nat.
Proof.
  induction xs as [|x r IH]; intros seen; simpl; [lia|].
  destruct (existsb _ seen).
  - specialize (IH seen). lia.
  - specialize (IH (x :: seen)). simpl in IH. lia.
Qed.

Lemma distinctCount_nonempty x xs :
  (1 <= Exporter.Enhanced.distinctCount [] (x :: xs))%nat.
Proof.
  simpl. pose proof (distinctCount_bounds xs [x]) as H. simpl in H. lia.
Qed.

(** X1. Whenever the statistics of a dashboard are computed, the cards
    are consistent with the list they summarise: the total is the number
    of records, the critical and the high card count disjoint sets of
    records, the weekly card counts some of the records, and (in the
    black-theme dashboard) the number of tools analysed is at most the
    total, and at least one when there is a record. The statistics are
    computed whenever no date and no sum throws. *)
Theorem stats_cards_consistent (rt : runtime) (mean : meanFn)
    (field : string) (now : Z) (data strategiesData : list record) :
  (forall s, calculateStats rt field now data = Some s ->
     total s = lengthZ data /\
     0 <= critical s /\ 0 <= high s /\ critical s + high s <= total s /\
     0 <= thisWeek s <= total s) /\
  (forall s,
     calculateEnhancedStats rt mean now data strategiesData = Some s ->
     e_total s = lengthZ data /\
     0 <= e_critical s /\ 0 <= e_high s /\
     e_critical s + e_high s <= e_total s /\
     0 <= e_thisWeek s <= e_total s /\
     0 <= e_sectorsAnalyzed s <= e_total s /\
     (data <> [] -> 1 <= e_sectorsAnalyzed s)) /\
  ((forall item, In item data -> newDate rt (getOwn field item) <> None) ->
   calculateStats rt field now data <> None) /\
  ((forall item, In item data ->
      newDate rt (getOwn "created_at" item) <> None) ->
   avgEffectiveness mean strategiesData <> None ->
   calculateEnhancedStats rt mean now data strategiesData <> None).
Proof.
  pose proof (filter_disjoint_length
                (fieldIs "severity" "Critical") (fieldIs "severity" "High") data
                (fun a => fieldIs_disjoint "severity" "Critical" "High" a eq_refl))
    as Hd.
  assert (Htotal : forall f, (forall item, In item data ->
                     newDate rt (getOwn f item) <> None) ->
            weeklySubmissions rt f now data <> None).
  { intros f H. unfold weeklySubmissions.
    rewrite filterThrowing_total; [discriminate|].
    intros x Hx. unfold submittedThisWeek.
    specialize (H x Hx). now destruct (newDate rt (getOwn f x)). }
  split; [|split; [|split]].
  - intros s H. unfold calculateStats in H.
    destruct (weeklySubmissions rt field now data) as [week|] eqn:E;
      [|discriminate].
    apply filterThrowing_length in E. inversion H; subst s; clear H.
    cbn [total critical high thisWeek]. unfold lengthZ. lia.
  - intros s H. unfold calculateEnhancedStats in H.
    destruct (weeklySubmissions rt "created_at" now data) as [week|] eqn:E;
      [|discriminate].
    destruct (avgEffectiveness mean strategiesData) as [avg|]; [|discriminate].
    apply filterThrowing_length in E. inversion H; subst s; clear H.
    cbn [e_total e_critical e_high e_thisWeek e_sectorsAnalyzed].
    unfold lengthZ, sectorsAnalyzed.
    pose proof (distinctCount_bounds (map (getOwn "ai_tool") data) []) as Hb.
    rewrite length_map in Hb. simpl in Hb. destruct Hb as [_ Hb].
    apply Nat2Z.inj_le in Hb.
    repeat split; try lia; try exact Hb.
    intros Hne. destruct data as [|a l]; [congruence|].
    pose proof (distinctCount_nonempty (getOwn "ai_tool" a)
                  (map (getOwn "ai_tool") l)) as H1.
    cbn [map]. lia.
  - intros H. unfold calculateStats.
    specialize (Htotal field H).
    destruct (weeklySubmissions rt field now data); [discriminate|congruence].
  - intros H Havg. unfold calculateEnhancedStats.
    specialize (Htotal "created_at" H).
    destruct (weeklySubmissions rt "created_at" now data) eqn:E; [|congruence].
    destruct (avgEffectiveness mean strategiesData); [discriminate|congruence].
Qed.

Lemma blackSample_dated :
  forall item, In item blackSample ->
    newDate utcRuntime (getOwn "created_at" item) <> None.
Proof.
  intros item H. simpl in H.
  destruct H as [<-|[<-|[<-|[]]]]; discriminate.
Defined.

Lemma stats_cards_consistent_witness :
  calculateEnhancedStats utcRuntime Exporter.Enhanced.meanOfNone
    1751328000000 blackSample []
  = Some {| e_total := 3; e_critical := 1; e_high := 1; e_thisWeek := 1;
            e_avgEffectiveness := NumFin 0 0; e_sectorsAnalyzed := 2 |} /\
  1 + 1 <= 3 /\ 0 <= 2 <= 3 /\
  calculateStats utcRuntime "created_at" 1751328000000 blackSample <> None.
Proof.
  pose proof (stats_cards_consistent utcRuntime Exporter.Enhanced.meanOfNone
                "created_at" 1751328000000 blackSample [])
    as (_ & H2 & H3 & _).
  split; [reflexivity|].
  destruct (H2 _ eq_refl) as (_ & _ & _ & Hc & _ & Hs & _).
  exact (conj Hc (conj Hs (H3 blackSample_dated))).
Defined.

(** *** Strict equality against grouping *)

Lemma plainStrings_plainKeys field l :
  plainStrings field l -> plainKeys field l.
Proof.
  intros H r Hr. destruct (H r Hr) as (s & Hs & Hi).
  exists s. split; [|exact Hi]. unfold bucket. now rewrite Hs.
Qed.

Lemma fieldIs_occurrences field k l :
  plainStrings field l ->
  lengthZ (filter (fieldIs field k) l) = occurrences field k l.
Proof.
  intros H. unfold occurrences, lengthZ. do 2 f_equal.
  apply filter_ext_in. intros r Hr. destruct (H r Hr) as (s & Hs & _).
  unfold fieldIs, bucket. rewrite Hs. simpl. apply String.eqb_sym.
Qed.

Lemma countOf_occurrences field l acc k :
  (forall k, getOwn k acc =
             if occurrences field k l =? 0 then None
             else Some (Num (occurrences field k l))) ->
  countOf acc k = occurrences field k l.
Proof.
  intros H. unfold countOf. rewrite H.
  destruct (occurrences field k l =? 0) eqn:E; [|reflexivity].
  apply Z.eqb_eq in E. now rewrite E.
Qed.

(** X2. When every severity is a string that [Object.prototype] does
    not define, the critical and the high card show the very counts
    that the severity chart holds for "Critical" and "High" (0 when the
    chart has no such slice). *)
Theorem severity_cards_match_chart (rt : runtime) (field : string)
    (now : Z) (data : list record) (s : stats) :
  plainStrings "severity" data ->
  calculateStats rt field now data = Some s ->
  exists severityCount,
    severityData data = Some severityCount /\
    critical s = countOf severityCount "Critical" /\
    high s = countOf severityCount "High".
Proof.
  intros Hp H.
  destruct (countBy_counts "severity" data (plainStrings_plainKeys _ _ Hp))
    as (acc & Hacc & Hget & _).
  exists acc. split; [exact Hacc|].
  unfold calculateStats in H.
  destruct (weeklySubmissions rt field now data); [|discriminate].
  inversion H; subst s; clear H. cbn [critical high].
  rewrite !(countOf_occurrences "severity" data acc) by exact Hget.
  now rewrite !fieldIs_occurrences.
Qed.

Lemma weekSample_plain : plainStrings "severity" weekSample.
Proof.
  intros r Hr. simpl in Hr.
  destruct Hr as [<-|[<-|[<-|[]]]]; eexists; split; reflexivity.
Defined.

Lemma severity_cards_match_chart_witness :
  exists severityCount,
    severityData weekSample = Some severityCount /\
    1 = countOf severityCount "Critical" /\
    1 = countOf severityCount "High".
Proof.
  exact (severity_cards_match_chart utcRuntime "created_at" 1751328000000
           weekSample _ weekSample_plain eq_refl).
Defined.

(** A severity that is not a string can be charted as "Critical" and
    still be left out of the critical card. *)
Example severity_card_misses_array :
  severityData [ [("severity", JArr [JStr "Critical"])] ]
  = Some [("Critical", Num 1)] /\
  option_map critical
    (calculateStats utcRuntime "created_at" 0
       [ [("severity", JArr [JStr "Critical"])] ]) = Some 0.
Proof. split; reflexivity. Qed.

(** X3. In the black-theme dashboard, when every tool is a string that
    [Object.prototype] does not define, each charted tool carries the
    number of its reports, and its risk level is "High" exactly when
    that number exceeds 5. *)
Theorem tool_risk_level_threshold (assessments : list record) :
  plainStrings "ai_tool" assessments ->
  exists items,
    toolChartDataBlack assessments = Some items /\
    (List.length items <= 10)%nat /\
    forall it, In it items ->
      exists n, tool_value it = Num n /\ 1 <= n /\
                (risk_level it = High <-> 5 < n).
Proof.
  intros Hs. pose proof (plainStrings_plainKeys _ _ Hs) as Hp.
  destruct (countBy_counts _ _ Hp) as (acc & Hacc & Hget & _).
  pose proof (countBy_nodup _ _ _ Hacc) as Hnd.
  pose proof (counts_entries _ _ _ Hget Hnd) as Hsnd.
  unfold toolChartDataBlack, topEntries. rewrite Hacc. cbn [option_map].
  eexists. split; [reflexivity|]. split.
  { rewrite length_map. unfold slice0. apply firstn_le_length. }
  intros it Hit. apply in_map_iff in Hit. destruct Hit as (e & <- & He).
  unfold slice0 in He. apply firstn_incl in He.
  apply (Permutation_in _ (sortBy_perm byCountDesc (entries acc))) in He.
  unfold entries in He. pose proof (Hsnd e He) as Hn. unfold occ in Hn.
  exists (occurrences "ai_tool" (fst e) assessments).
  cbn [tool_value risk_level]. split; [exact Hn|].
  pose proof (fieldIs_occurrences "ai_tool" (fst e) assessments Hs) as Hf.
  unfold lengthZ in Hf.
  assert (Hpos : 1 <= occurrences "ai_tool" (fst e) assessments).
  { pose proof (Hget (fst e)) as Hg.
    pose proof (occurrences_nonneg "ai_tool" (fst e) assessments).
    destruct (occurrences "ai_tool" (fst e) assessments =? 0) eqn:E; [|lia].
    exfalso. clear - Hg He. induction acc as [|[k c] r IH]; [contradiction|].
    simpl in Hg. destruct He as [<-|He].
    - simpl in Hg. now rewrite String.eqb_refl in Hg.
    - destruct (String.eqb (fst e) k); [discriminate|]. now apply IH. }
  split; [exact Hpos|].
  destruct (Nat.ltb 5 _) eqn:E.
  - apply Nat.ltb_lt in E. split; [lia|reflexivity].
  - apply Nat.ltb_ge in E. split; [discriminate|lia].
Qed.

Lemma blackSample_tools : plainStrings "ai_tool" blackSample.
Proof.
  intros r Hr. simpl in Hr.
  destruct Hr as [<-|[<-|[<-|[]]]]; eexists; split; reflexivity.
Defined.

Lemma tool_risk_level_threshold_witness :
  exists items,
    toolChartDataBlack blackSample = Some items /\
    (List.length items <= 10)%nat /\
    forall it, In it items ->
      exists n, tool_value it = Num n /\ 1 <= n /\
                (risk_level it = High <-> 5 < n).
Proof. exact (tool_risk_level_threshold blackSample blackSample_tools). Defined.

(** A tool that is not a string is charted with its count, but its risk
    level stays "Medium" however often it is reported. *)
Example numeric_tool_never_high :
  option_map (map (fun it => (tool_name it, tool_value it, risk_level it)))
    (toolChartDataBlack (repeat [("ai_tool", JNum (NumFin 7 0))] 6))
  = Some [("7", Num 6, Medium)].
Proof. reflexivity. Qed.

(** *** Tools analysed *)

Lemma snoc_nodup {A} (l : list A) x : NoDup l -> ~ In x l -> NoDup (l ++ [x]).
Proof.
  intros Hn Hx. apply (Permutation_NoDup (l := x :: l)).
  - apply Permutation_cons_append.
  - now constructor.
Qed.

Lemma existsb_eqb_in k l : existsb (String.eqb k) l = true <-> In k l.
Proof.
  rewrite existsb_exists. split.
  - intros (x & Hx & E). apply String.eqb_eq in E. now subst.
  - intros H. exists k. split; [assumption|apply String.eqb_refl].
Qed.

Lemma firstSeen_nodup field l : NoDup (firstSeen field l).
Proof.
  induction l as [|r l IH] using rev_ind; [constructor|].
  rewrite firstSeen_snoc. destruct (bucket field r) as [k|]; [|exact IH].
  destruct (existsb (String.eqb k) (firstSeen field l)) eqn:E; [exact IH|].
  apply snoc_nodup; [exact IH|]. intros Hin.
  apply existsb_eqb_in in Hin. congruence.
Qed.

Lemma distinctCount_strings field l : forall seen seen',
  (forall r, In r l -> exists s, getOwn field r = Some (JStr s)) ->
  (forall k, existsb (Exporter.Enhanced.sameValueZero (Some (JStr k))) seen
             = existsb (String.eqb k) seen') ->
  List.length seen = List.length seen' ->
  Exporter.Enhanced.distinctCount seen (map (getOwn field) l)
  = List.length
      (fold_left
         (fun seen r =>
            match bucket field r with
            | Some k => if existsb (String.eqb k) seen then seen
                        else seen ++ [k]
            | None => seen
            end) l seen').
Proof.
  induction l as [|r l IH]; intros seen seen' Hs Hm Hl; [exact Hl|].
  destruct (Hs r (or_introl eq_refl)) as (s & Es).
  cbn [map fold_left Exporter.Enhanced.distinctCount].
  unfold bucket at 2. rewrite Es. cbn [toPropertyKey toString].
  rewrite (Hm s). destruct (existsb (String.eqb s) seen') eqn:E.
  - apply IH; auto. intros x Hx. apply Hs. now right.
  - apply IH.
    + intros x Hx. apply Hs. now right.
    + intros k. cbn [existsb]. rewrite Hm, existsb_app. cbn [existsb].
      rewrite orb_false_r. cbn [Exporter.Enhanced.sameValueZero].
      apply orb_comm.
    + rewrite length_app. simpl. lia.
Qed.

(** X4. In the black-theme dashboard, when every tool is a string that
    [Object.prototype] does not define, the number of tools analysed
    that the card shows is the number of tools of the grouped chart
    data, before the chart is cut to ten bars. *)
Theorem sectors_analyzed_counts_tools (assessments : list record) :
  plainStrings "ai_tool" assessments ->
  exists toolData,
    countBy "ai_tool" assessments = Some toolData /\
    sectorsAnalyzed assessments = lengthZ (entries toolData) /\
    (forall n items,
       (Z.to_nat (sectorsAnalyzed assessments) <= n)%nat ->
       topEntries "ai_tool" n assessments = Some items ->
       lengthZ items = sectorsAnalyzed assessments).
Proof.
  intros Hs. pose proof (plainStrings_plainKeys _ _ Hs) as Hp.
  destruct (countBy_counts _ _ Hp) as (acc & Hacc & _).
  destruct (countBy_first_seen _ _ _ Hp Hacc) as [Hhas _].
  pose proof (countBy_nodup _ _ _ Hacc) as Hnd.
  pose proof (firstSeen_nodup "ai_tool" assessments) as Hnf.
  assert (Hlen : List.length acc
                 = List.length (firstSeen "ai_tool" assessments)).
  { rewrite <- (length_map fst acc). apply Nat.le_antisymm.
    - apply NoDup_incl_length; [exact Hnd|]. intros k Hk.
      apply existsb_eqb_in. rewrite <- Hhas, hasOwn_keys.
      now apply existsb_eqb_in.
    - apply NoDup_incl_length; [exact Hnf|]. intros k Hk.
      apply existsb_eqb_in. rewrite <- hasOwn_keys, Hhas.
      now apply existsb_eqb_in. }
  assert (Hsec : sectorsAnalyzed assessments = lengthZ (entries acc)).
  { unfold sectorsAnalyzed, lengthZ, entries. f_equal.
    rewrite Hlen. unfold firstSeen.
    apply distinctCount_strings; [|reflexivity|reflexivity].
    intros r Hr. destruct (Hs r Hr) as (s & E & _). now exists s. }
  exists acc. split; [exact Hacc|]. split; [exact Hsec|].
  intros n items Hn Hi. unfold topEntries in Hi. rewrite Hacc in Hi.
  inversion Hi; subst items; clear Hi. rewrite Hsec in Hn |- *.
  unfold lengthZ, slice0, entries in *. f_equal.
  rewrite firstn_all2.
  - apply Permutation_length, sortBy_perm.
  - rewrite (Permutation_length (sortBy_perm byCountDesc acc)). lia.
Qed.

Lemma sectors_analyzed_counts_tools_witness :
  exists toolData,
    countBy "ai_tool" blackSample = Some toolData /\
    sectorsAnalyzed blackSample = lengthZ (entries toolData) /\
    (forall n items,
       (Z.to_nat (sectorsAnalyzed blackSample) <= n)%nat ->
       topEntries "ai_tool" n blackSample = Some items ->
       lengthZ items = sectorsAnalyzed blackSample).
Proof. exact (sectors_analyzed_counts_tools blackSample blackSample_tools). Defined.

(** The card counts a missing tool and the tool named "undefined"
    apart; the chart groups them in one bar. *)
Example sectors_analyzed_counts_undefined_apart :
  sectorsAnalyzed [ []; [("ai_tool", JStr "undefined")] ] = 2 /\
  countBy "ai_tool" [ []; [("ai_tool", JStr "undefined")] ]
  = Some [("undefined", Num 2)].
Proof. split; reflexivity. Qed.

(** *** The most reported tool and the most common risk *)

Lemma getOwn_in {A} k (o : list (string * A)) v :
  getOwn k o = Some v -> In (k, v) o.
Proof.
  induction o as [|[k' v'] r IH]; simpl; [discriminate|].
  destruct (String.eqb k k') eqn:E.
  - apply String.eqb_eq in E. subst. intros H. inversion H. now left.
  - intros H. right. now apply IH.
Qed.

Lemma in_getOwn {A} (o : list (string * A)) e :
  In e o -> getOwn (fst e) o <> None.
Proof.
  induction o as [|[k c] r IH]; simpl; [contradiction|].
  intros [<-|He]; simpl.
  - now rewrite String.eqb_refl.
  - destruct (String.eqb (fst e) k); [discriminate|]. now apply IH.
Qed.

Lemma topKey_maximal field l acc :
  plainKeys field l -> l <> [] -> countBy field l = Some acc ->
  1 <= occurrences field (topKey acc) l /\
  forall k, occurrences field k l <= occurrences field (topKey acc) l.
Proof.
  intros Hp Hne Hacc.
  destruct (countBy_counts _ _ Hp) as (acc' & Hacc' & Hget & _).
  rewrite Hacc in Hacc'. inversion Hacc'; subst acc'; clear Hacc'.
  pose proof (countBy_nodup _ _ _ Hacc) as Hnd.
  pose proof (counts_entries _ _ _ Hget Hnd) as Hsnd.
  assert (Hpos : forall e, In e acc -> 1 <= occurrences field (fst e) l).
  { intros e He. pose proof (in_getOwn acc e He) as Hg. rewrite Hget in Hg.
    pose proof (occurrences_nonneg field (fst e) l).
    destruct (occurrences field (fst e) l =? 0) eqn:E; [congruence|lia]. }
  assert (Hnum : Forall isNum acc).
  { rewrite Forall_forall. intros e He. eexists. now apply Hsnd. }
  assert (Hcnt : forall e, In e acc -> cnt e = occurrences field (fst e) l).
  { intros e He. unfold cnt. now rewrite (Hsnd e He). }
  pose proof (sortBy_descending acc Hnum) as Hd.
  pose proof (sortBy_perm byCountDesc acc) as Hperm.
  unfold topKey, entries.
  destruct (sortBy byCountDesc acc) as [|e rest] eqn:Es.
  - exfalso. apply Permutation_nil in Hperm. subst acc.
    destruct l as [|r l]; [congruence|].
    destruct (Hp r (or_introl eq_refl)) as (k & Hk & _).
    pose proof (Hget k) as Hg. simpl in Hg.
    destruct (occurrences field k (r :: l) =? 0) eqn:E; [|discriminate].
    apply Z.eqb_eq in E. unfold occurrences in E. simpl in E.
    rewrite Hk, String.eqb_refl in E. simpl in E. lia.
  - assert (He : In e acc) by (apply (Permutation_in _ Hperm); now left).
    split; [now apply Hpos|]. intros k.
    pose proof (Hget k) as Hg.
    destruct (occurrences field k l =? 0) eqn:E.
    + apply Z.eqb_eq in E. rewrite E. specialize (Hpos e He). lia.
    + apply getOwn_in in Hg.
      assert (Hk : In (k, Num (occurrences field k l)) (e :: rest))
        by (apply (Permutation_in _ (Permutation_sym Hperm)); exact Hg).
      destruct Hk as [Heq|Hk]; [subst e; simpl; lia|].
      unfold descending in Hd. inversion Hd as [|? ? _ Hall]; subst.
      rewrite Forall_forall in Hall. specialize (Hall _ Hk).
      rewrite (Hcnt e He) in Hall. unfold cnt in Hall. exact Hall.
Qed.

(** X5. On a non-empty list whose tools and risk types coerce to
    property keys that [Object.prototype] does not define, the most
    reported tool and the most common risk that the insights name are
    values of the input that no other value exceeds in number of
    reports. *)
Theorem most_reported_is_maximal (mean : meanFn)
    (assessments strategies riskFactors : list record) :
  (plainKeys "aiTool" assessments -> plainKeys "riskType" assessments ->
   forall i, getInsights assessments = Some (Value i) ->
     (1 <= occurrences "aiTool" (mostReportedTool i) assessments /\
      forall k, occurrences "aiTool" k assessments
                <= occurrences "aiTool" (mostReportedTool i) assessments) /\
     (1 <= occurrences "riskType" (mostCommonRisk i) assessments /\
      forall k, occurrences "riskType" k assessments
                <= occurrences "riskType" (mostCommonRisk i) assessments)) /\
  (plainKeys "ai_tool" assessments -> plainKeys "risk_type" assessments ->
   forall i,
     getAnalyticsInsights mean assessments strategies riskFactors
     = Some (Value i) ->
     (1 <= occurrences "ai_tool" (a_mostReportedTool i) assessments /\
      forall k, occurrences "ai_tool" k assessments
                <= occurrences "ai_tool" (a_mostReportedTool i) assessments) /\
     (1 <= occurrences "risk_type" (a_mostCommonRisk i) assessments /\
      forall k, occurrences "risk_type" k assessments
                <= occurrences "risk_type" (a_mostCommonRisk i) assessments)).
Proof.
  assert (Hne : (lengthZ assessments =? 0) = false -> assessments <> []).
  { intros H ->. discriminate. }
  split; intros Ht Hr i Hi.
  - unfold getInsights in Hi.
    destruct (lengthZ assessments =? 0) eqn:Hz; [discriminate|].
    destruct (countBy "severity" assessments); [|discriminate].
    destruct (countBy "aiTool" assessments) as [tools|] eqn:E1; [|discriminate].
    destruct (countBy "riskType" assessments) as [risks|] eqn:E2; [|discriminate].
    inversion Hi; subst i; clear Hi. cbn [mostReportedTool mostCommonRisk].
    split; apply topKey_maximal; auto.
  - unfold getAnalyticsInsights in Hi.
    destruct (lengthZ assessments =? 0) eqn:Hz; [discriminate|].
    destruct (countBy "severity" assessments); [|discriminate].
    destruct (countBy "ai_tool" assessments) as [tools|] eqn:E1; [|discriminate].
    destruct (countBy "risk_type" assessments) as [risks|] eqn:E2; [|discriminate].
    destruct (mean _); [|discriminate].
    inversion Hi; subst i; clear Hi. cbn [a_mostReportedTool a_mostCommonRisk].
    split; apply topKey_maximal; auto.
Qed.

Lemma insightSample_tools : plainKeys "aiTool" insightSample.
Proof.
  intros r Hr. simpl in Hr.
  destruct Hr as [<-|[<-|[<-|[]]]]; eexists; split; reflexivity.
Defined.

Lemma insightSample_risks : plainKeys "riskType" insightSample.
Proof.
  intros r Hr. simpl in Hr.
  destruct Hr as [<-|[<-|[<-|[]]]]; eexists; split; reflexivity.
Defined.

Lemma most_reported_is_maximal_witness :
  option_map (fun i => match i with
                       | Value i => (mostReportedTool i, mostCommonRisk i)
                       | Null => ("", "")
                       end) (getInsights insightSample)
  = Some ("X", "Bias") /\
  (forall k, occurrences "aiTool" k insightSample
             <= occurrences "aiTool" "X" insightSample) /\
  (forall k, occurrences "riskType" k insightSample
             <= occurrences "riskType" "Bias" insightSample).
Proof.
  split; [reflexivity|].
  pose proof (proj1 (most_reported_is_maximal Exporter.Enhanced.meanOfNone
                       insightSample [] [])
                insightSample_tools insightSample_risks _ eq_refl) as [H1 H2].
  exact (conj (proj2 H1) (proj2 H2)).
Defined.

(** X6. When every severity coerces to a property key that
    [Object.prototype] does not define, the trend that the analytics
    insights report is "increasing" exactly when more than one report
    in five is critical. *)
Theorem trend_direction_threshold (mean : meanFn)
    (assessments strategies riskFactors : list record)
    (i : analyticsInsights) :
  plainKeys "severity" assessments ->
  getAnalyticsInsights mean assessments strategies riskFactors
  = Some (Value i) ->
  (a_trendDirection i = Increasing <->
   lengthZ assessments < 5 * occurrences "severity" "Critical" assessments).
Proof.
  intros Hp Hi.
  destruct (countBy_counts _ _ Hp) as (acc & Hacc & Hget & _).
  unfold getAnalyticsInsights in Hi.
  destruct (lengthZ assessments =? 0) eqn:Hz; [discriminate|].
  apply Z.eqb_neq in Hz.
  assert (Hlen : 1 <= lengthZ assessments) by (unfold lengthZ in *; lia).
  pose proof (occurrences_le_length "severity" "Critical" assessments) as Hle.
  pose proof (occurrences_nonneg "severity" "Critical" assessments) as Hnn.
  rewrite Hacc in Hi.
  destruct (countBy "ai_tool" assessments); [|discriminate].
  destruct (countBy "risk_type" assessments); [|discriminate].
  destruct (mean _); [|discriminate].
  inversion Hi; subst i; clear Hi. cbn [a_trendDirection].
  assert (Hc : countOrZero acc "Critical"
               = Some (inject_Z (occurrences "severity" "Critical" assessments))).
  { unfold countOrZero, readCount. rewrite Hget.
    destruct (occurrences "severity" "Critical" assessments =? 0) eqn:E.
    - apply Z.eqb_eq in E. rewrite E. reflexivity.
    - reflexivity. }
  unfold criticalShare. rewrite Hc. cbn [option_map].
  destruct (share_bounds _ _ (conj Hnn Hle) Hlen) as (Hq & _).
  set (q := Qmult (Qdiv (inject_Z (occurrences "severity" "Critical" assessments))
                        (inject_Z (lengthZ assessments))) (100 # 1)) in *.
  assert (Hiff : Qle_bool q (20 # 1) = true <->
                 5 * occurrences "severity" "Critical" assessments
                 <= lengthZ assessments).
  { rewrite Qle_bool_iff, Hq. unfold Qle. cbn [Qnum Qden].
    rewrite Z2Pos.id by lia. lia. }
  destruct (Qle_bool q (20 # 1)).
  - split; [discriminate|]. intros H.
    pose proof (proj1 Hiff eq_refl). lia.
  - split; [|reflexivity]. intros _.
    destruct (Z_lt_le_dec (lengthZ assessments)
                (5 * occurrences "severity" "Critical" assessments)) as [H|H];
      [exact H|].
    apply Hiff in H. discriminate.
Qed.

Lemma insightSample_hosted :
  plainKeys "severity" (map (fun r => ("ai_tool", JStr "X") :: r) insightSample).
Proof.
  intros r Hr. simpl in Hr.
  destruct Hr as [<-|[<-|[<-|[]]]]; eexists; split; reflexivity.
Defined.

Lemma trend_direction_threshold_witness :
  exists i,
    getAnalyticsInsights Exporter.Enhanced.meanOfNone
      (map (fun r => ("ai_tool", JStr "X") :: r) insightSample) [] []
    = Some (Value i) /\
    (a_trendDirection i = Increasing <-> 3 < 5 * 2).
Proof.
  eexists. split; [reflexivity|].
  exact (trend_direction_threshold Exporter.Enhanced.meanOfNone
           (map (fun r => ("ai_tool", JStr "X") :: r) insightSample) [] []
           _ insightSample_hosted eq_refl).
Defined.

(** *** Average severity of a risk category *)










(** A severity that [Object.prototype] defines turns the sum into a
    string, and the average is not a number. *)
Example severity_average_of_inherited_name :
  option_map (map severity_avg)
    (riskTypeChartData
       [ [("risk_type", JStr "Bias"); ("severity", JStr "constructor")] ])
  = Some [None].
Proof. reflexivity. Qed.

(** *** Chart names *)

Lemma length_append s1 s2 :
  String.length (s1 ++ s2)%string = (String.length s1 + String.length s2)%nat.
Proof. induction s1 as [|c s1 IH]; simpl; [reflexivity|now rewrite IH]. Qed.

Lemma length_substring0 n : forall s,
  (n <= String.length s)%nat -> String.length (substring 0 n s) = n.
Proof.
  induction n as [|n IH]; intros [|c s] H; simpl in *; try reflexivity; try lia.
  rewrite IH; [reflexivity|lia].
Qed.

Lemma substring0_append n : forall s t,
  (n <= String.length s)%nat ->
  substring 0 n (s ++ t)%string = substring 0 n s.
Proof.
  induction n as [|n IH]; intros [|c s] t H; simpl in *;
    try reflexivity; try lia.
  - now destruct t.
  - rewrite IH; [reflexivity|lia].
Qed.

Lemma substring0_idem n : forall s,
  substring 0 n (substring 0 n s) = substring 0 n s.
Proof.
  induction n as [|n IH]; intros [|c s]; simpl; try reflexivity.
  now rewrite IH.
Qed.

Lemma substring_after n : forall s t,
  String.length s = n ->
  substring n (String.length t) (s ++ t)%string = t.
Proof.
  induction n as [|n IH]; intros [|c s] t H; simpl in *; try lia.
  - clear H. induction t as [|c t IHt]; simpl; [reflexivity|now rewrite IHt].
  - apply IH. lia.
Qed.

Lemma displayName_spec limit key :
  (String.length (displayName limit key) <= limit + 3)%nat /\
  ((String.length key <= limit)%nat -> displayName limit key = key) /\
  ((limit < String.length key)%nat ->
   String.length (displayName limit key) = (limit + 3)%nat /\
   substring 0 limit (displayName limit key) = substring 0 limit key /\
   substring limit 3 (displayName limit key) = "...").
Proof.
  unfold displayName. destruct (Nat.ltb limit (String.length key)) eqn:E.
  - apply Nat.ltb_lt in E.
    assert (Hl : String.length (substring 0 limit key) = limit)
      by (apply length_substring0; lia).
    split; [|split].
    + rewrite length_append, Hl. simpl. lia.
    + lia.
    + intros _. split; [|split].
      * rewrite length_append, Hl. reflexivity.
      * rewrite substring0_append by lia. apply substring0_idem.
      * exact (substring_after limit _ "..." Hl).
  - apply Nat.ltb_ge in E. split; [lia|]. split; [reflexivity|lia].
Qed.

Lemma topEntries_length field n l es :
  topEntries field n l = Some es -> (List.length es <= n)%nat.
Proof.
  unfold topEntries. destruct (countBy field l); [|discriminate].
  intros H. injection H as <-. apply firstn_le_length.
Qed.

(** X8. The name under which a tool is charted is the name of the tool
    when that has at most 15 characters (20 in the black-theme
    dashboard), and otherwise its first 15 (20) characters followed by
    three dots; so a chart has at most 8 (10) bars, with names of at
    most 18 (23) characters. *)
Theorem chart_names_bounded (field : string) (assessments : list record) :
  (forall limit key,
     ((String.length key <= limit)%nat -> displayName limit key = key) /\
     ((limit < String.length key)%nat ->
      String.length (displayName limit key) = (limit + 3)%nat /\
      substring 0 limit (displayName limit key) = substring 0 limit key /\
      substring limit 3 (displayName limit key) = "...")) /\
  (forall items, toolChartData field assessments = Some items ->
     (List.length items <= 8)%nat /\
     forall it, In it items -> (String.length (name it) <= 18)%nat) /\
  (forall items, toolChartDataBlack assessments = Some items ->
     (List.length items <= 10)%nat /\
     forall it, In it items -> (String.length (tool_name it) <= 23)%nat).
Proof.
  split; [intros limit key; apply displayName_spec|]. split.
  - intros items H. unfold toolChartData in H.
    destruct (topEntries field 8 assessments) as [es|] eqn:E; [|discriminate].
    cbn [option_map] in H. injection H as <-. split.
    + rewrite length_map. exact (topEntries_length _ _ _ _ E).
    + intros it Hit. apply in_map_iff in Hit. destruct Hit as (e & <- & _).
      apply (displayName_spec 15).
  - intros items H. unfold toolChartDataBlack in H.
    destruct (topEntries "ai_tool" 10 assessments) as [es|] eqn:E;
      [|discriminate].
    cbn [option_map] in H. injection H as <-. split.
    + rewrite length_map. exact (topEntries_length _ _ _ _ E).
    + intros it Hit. apply in_map_iff in Hit. destruct Hit as (e & <- & _).
      apply (displayName_spec 20).
Qed.

Lemma chart_names_bounded_witness :
  displayName 15 "Facial Recognition Systems" = "Facial Recognit..." /\
  displayName 15 "ChatGPT/OpenAI" = "ChatGPT/OpenAI" /\
  exists items,
    toolChartData "aiTool" toolSample = Some items /\
    (List.length items <= 8)%nat /\
    forall it, In it items -> (String.length (name it) <= 18)%nat.
Proof.
  split; [reflexivity|]. split.
  - apply (proj1 (chart_names_bounded "aiTool" toolSample)). simpl. lia.
  - eexists. split; [reflexivity|].
    exact (proj1 (proj2 (chart_names_bounded "aiTool" toolSample)) _ eq_refl).
Defined.

(** Two tools whose names share their first 15 characters are charted
    under one and the same name. *)
Example chart_names_collide :
  displayName 15 "Healthcare AI Diagnostics" = displayName 15 "Healthcare AI Devices".
Proof. reflexivity. Qed.

(** *** Recent submissions *)

(** X9. The recent submissions of the legacy dashboard are the last
    five records of the list (all of them when there are fewer), the
    last one first. *)
Theorem recent_submissions_newest_first {A : Type} (assessments : list A) :
  recentSubmissions assessments = firstn 5 (rev assessments) /\
  List.length (recentSubmissions assessments)
  = Nat.min 5 (List.length assessments) /\
  forall i d, (i < Nat.min 5 (List.length assessments))%nat ->
    nth i (recentSubmissions assessments) d
    = nth (List.length assessments - 1 - i) assessments d.
Proof.
  assert (H : recentSubmissions assessments = firstn 5 (rev assessments)).
  { unfold recentSubmissions, slice, lengthZ. rewrite firstn_rev.
    do 2 f_equal. cbn [Z.ltb Z.compare]. lia. }
  split; [exact H|]. rewrite H. split.
  - rewrite length_firstn, length_rev. reflexivity.
  - intros i d Hi. rewrite nth_firstn.
    assert (E : Nat.ltb i 5 = true) by (apply Nat.ltb_lt; lia).
    rewrite E, rev_nth by lia. f_equal. lia.
Qed.

Lemma recent_submissions_newest_first_witness :
  recentSubmissions [1; 2; 3; 4; 5; 6; 7] = [7; 6; 5; 4; 3] /\
  forall i d, (i < Nat.min 5 7)%nat ->
    nth i (recentSubmissions [1; 2; 3; 4; 5; 6; 7]) d
    = nth (7 - 1 - i) [1; 2; 3; 4; 5; 6; 7] d.
Proof.
  split; [reflexivity|].
  exact (proj2 (proj2 (recent_submissions_newest_first [1; 2; 3; 4; 5; 6; 7]))).
Defined.

(** *** Grouping with [find] and [push] *)

Lemma strictEquals_eq a b : strictEquals a b = true -> a = b.
Proof.
  destruct a as [[| x | [m e | | x] | x | |]|], b as [[| y | [m' e' | | y] | y | |]|];
    simpl; try discriminate; try reflexivity; intros H.
  - destruct x, y; try discriminate; reflexivity.
  - apply andb_prop in H. destruct H as [H1 H2].
    apply Z.eqb_eq in H1, H2. now subst.
  - destruct x, y; try discriminate; reflexivity.
  - apply String.eqb_eq in H. now subst.
Qed.

Lemma findAndUpdate_spec {G} (p : G -> bool) upd fresh acc : forall acc',
  findAndUpdate p upd fresh acc = Some acc' ->
  (existsb p acc = false /\ acc' = acc ++ [fresh]) \/
  (exists a g g' b,
     acc = a ++ g :: b /\ existsb p a = false /\ p g = true /\
     upd g = Some g' /\ acc' = a ++ g' :: b).
Proof.
  induction acc as [|g r IH]; intros acc' H; cbn [findAndUpdate] in H.
  - left. inversion H. split; reflexivity.
  - destruct (p g) eqn:Ep.
    + right. destruct (upd g) as [g'|] eqn:Eu; [|discriminate].
      inversion H. exists [], g, g', r. repeat split; assumption.
    + destruct (findAndUpdate p upd fresh r) as [r'|]; [|discriminate].
      inversion H; subst acc'; clear H.
      destruct (IH r' eq_refl) as [[He ->]|(a & g0 & g' & b & -> & Ha & Hg & Hu & ->)].
      * left. cbn [existsb]. rewrite Ep. split; [exact He|reflexivity].
      * right. exists (g :: a), g0, g', b. cbn [existsb]. rewrite Ep.
        repeat split; assumption.
Qed.

Lemma firstOccurrences_snoc xs x :
  firstOccurrences (xs ++ [x]) =
  if existsb (fun y => strictEquals y x) (firstOccurrences xs)
  then firstOccurrences xs else firstOccurrences xs ++ [x].
Proof. unfold firstOccurrences. now rewrite fold_left_app. Qed.

(** No value of [firstOccurrences xs] is strictly equal to one before
    it. *)
Lemma firstOccurrences_fresh xs : forall a y b,
  firstOccurrences xs = a ++ y :: b ->
  existsb (fun z => strictEquals z y) a = false.
Proof.
  induction xs as [|x xs IH] using rev_ind; intros a y b H.
  - destruct a; discriminate.
  - rewrite firstOccurrences_snoc in H.
    destruct (existsb _ (firstOccurrences xs)) eqn:E; [now apply (IH a y b)|].
    destruct b as [|z b] using rev_ind.
    + apply (app_inj_tail _ a x y) in H. destruct H as [<- <-]. exact E.
    + clear IHb. rewrite app_comm_cons, app_assoc in H.
      apply app_inj_tail in H. destruct H as [H _]. now apply (IH a y b).
Qed.

Lemma firstOccurrences_covers xs x :
  In x xs -> primitive x = true ->
  existsb (fun y => strictEquals y x) (firstOccurrences xs) = true.
Proof.
  induction xs as [|z xs IH] using rev_ind; intros Hx Hp; [contradiction|].
  rewrite firstOccurrences_snoc. apply in_app_or in Hx.
  destruct (existsb (fun y => strictEquals y z) (firstOccurrences xs)) eqn:E.
  - destruct Hx as [Hx|[<-|[]]]; [now apply IH|exact E].
  - rewrite existsb_app. destruct Hx as [Hx|[<-|[]]].
    + now rewrite IH.
    + cbn [existsb]. unfold primitive in Hp. rewrite Hp.
      now rewrite orb_true_r.
Qed.

Lemma firstOccurrences_incl xs x : In x (firstOccurrences xs) -> In x xs.
Proof.
  induction xs as [|z xs IH] using rev_ind; [contradiction|].
  rewrite firstOccurrences_snoc.
  destruct (existsb _ (firstOccurrences xs)); intros H; apply in_or_app.
  - left. now apply IH.
  - apply in_app_or in H. destruct H as [H|H]; [left; now apply IH|now right].
Qed.

Lemma existsb_false_in {A} (p : A -> bool) l x :
  existsb p l = false -> In x l -> p x = false.
Proof.
  intros H Hx. destruct (p x) eqn:E; [|reflexivity].
  assert (existsb p l = true); [|congruence].
  apply existsb_exists. now exists x.
Qed.

Lemma sequence_forall2 {A B} (f : A -> option B) l : forall r,
  Exporter.sequence (map f l) = Some r ->
  Forall2 (fun x y => f x = Some y) l r.
Proof.
  induction l as [|x l IH]; intros r H; cbn [map Exporter.sequence] in H.
  - inversion H. constructor.
  - destruct (f x) as [y|] eqn:E; [|discriminate].
    destruct (Exporter.sequence (map f l)) as [r'|]; [|discriminate].
    inversion H. constructor; [exact E|now apply IH].
Qed.

Lemma sequence_total {A B} (f : A -> option B) l :
  (forall x, In x l -> f x <> None) ->
  Exporter.sequence (map f l) <> None.
Proof.
  induction l as [|x r IH]; intros H; cbn [map Exporter.sequence];
    [discriminate|].
  pose proof (H x (or_introl eq_refl)) as Hx.
  destruct (f x); [|contradiction].
  specialize (IH (fun y Hy => H y (or_intror Hy))).
  destruct (Exporter.sequence (map f r)); [discriminate|contradiction].
Qed.

Lemma findAndUpdate_total {G} (p : G -> bool) upd fresh acc :
  (forall g, upd g <> None) -> findAndUpdate p upd fresh acc <> None.
Proof.
  intros H. induction acc as [|g r IH]; cbn [findAndUpdate]; [discriminate|].
  destruct (p g).
  - specialize (H g). destruct (upd g); [discriminate|contradiction].
  - destruct (findAndUpdate p upd fresh r); [discriminate|contradiction].
Qed.

Lemma fold_total {A B} (step : option B -> A -> option B) l :
  (forall b x, step (Some b) x <> None) ->
  forall b, fold_left step l (Some b) <> None.
Proof.
  intros H. induction l as [|x r IH]; intros b; cbn [fold_left];
    [discriminate|].
  specialize (H b x). destruct (step (Some b) x); [apply IH|contradiction].
Qed.

Lemma sum_from a l :
  fold_right Z.add a l = fold_right Z.add 0 l + a.
Proof. induction l as [|z zs IH]; cbn [fold_right]; lia. Qed.

Section Grouping.

Context {G : Type}.
Variable key : G -> option JS.value.
Variable size : G -> Z.
Variable update : record -> G -> option G.
Variable fresh : record -> G.
Variable field : string.

Hypothesis update_key : forall r g g', update r g = Some g' -> key g' = key g.
Hypothesis update_size :
  forall r g g', update r g = Some g' -> size g' = size g + 1.
Hypothesis fresh_key : forall r, key (fresh r) = getOwn field r.
Hypothesis fresh_size : forall r, size (fresh r) = 1.

Let step (acc : option (list G)) (r : record) : option (list G) :=
  match acc with
  | None => None
  | Some a =>
      findAndUpdate (fun g => strictEquals (key g) (getOwn field r))
                    (update r) (fresh r) a
  end.

Let matching (x : option JS.value) (l : list record) : Z :=
  lengthZ (filter (fun r => strictEquals x (getOwn field r)) l).

Lemma existsb_key s (acc : list G) :
  existsb (fun y => strictEquals y s) (map key acc)
  = existsb (fun g => strictEquals (key g) s) acc.
Proof.
  induction acc as [|g a IHa]; [reflexivity|].
  cbn [map existsb]. now rewrite IHa.
Qed.

(** The keys of the groups are the values of the field in the order in
    which they first occur. *)
Lemma grouping_keys l : forall gs,
  fold_left step l (Some []) = Some gs ->
  map key gs = firstOccurrences (map (getOwn field) l).
Proof.
  induction l as [|r l IH] using rev_ind; intros gs H.
  - inversion H. reflexivity.
  - rewrite fold_left_app in H. cbn [fold_left] in H.
    destruct (fold_left step l (Some [])) as [acc|] eqn:E; [|discriminate].
    pose proof (IH acc eq_refl) as Hk. clear IH.
    rewrite map_app. cbn [map]. rewrite firstOccurrences_snoc.
    change (@map record (option JS.value))
      with (@map (list (string * JS.value)) (option JS.value)).
    set (s := getOwn field r) in *.
    unfold step in H. fold s in H.
    apply findAndUpdate_spec in H.
    destruct H as [[He ->]|(a & g & g' & b & -> & Ha & Hg & Hu & ->)].
    + rewrite <- Hk, existsb_key, He. rewrite map_app. cbn [map].
      now rewrite fresh_key.
    + rewrite !map_app. cbn [map]. rewrite (update_key _ _ _ Hu).
      rewrite <- Hk, existsb_key, existsb_app. cbn [existsb]. rewrite Hg.
      rewrite orb_true_r. now rewrite map_app.
Qed.

(** The size of a group is the number of records of its key, and the
    sizes add up to the number of records. *)
Lemma grouping_sizes l : forall gs,
  fold_left step l (Some []) = Some gs ->
  (forall g, In g gs ->
     size g = if primitive (key g) then matching (key g) l else 1) /\
  fold_right Z.add 0 (map size gs) = lengthZ l.
Proof.
  induction l as [|r l IH] using rev_ind; intros gs H.
  - inversion H. split; [intros g []|reflexivity].
  - rewrite fold_left_app in H. cbn [fold_left] in H.
    destruct (fold_left step l (Some [])) as [acc|] eqn:E; [|discriminate].
    destruct (IH acc eq_refl) as (Hs & Hsum). clear IH.
    pose proof (grouping_keys l acc E) as Hk.
    set (s := getOwn field r) in *.
    assert (Hlen : lengthZ (l ++ [r]) = lengthZ l + 1).
    { unfold lengthZ. rewrite length_app. simpl. lia. }
    assert (Hm : forall x, matching x (l ++ [r])
                           = matching x l + if strictEquals x s then 1 else 0).
    { intros x. unfold matching, lengthZ. rewrite filter_app, length_app.
      cbn [filter]. fold s. rewrite Nat2Z.inj_add.
      now destruct (strictEquals x s). }
    unfold step in H. fold s in H.
    apply findAndUpdate_spec in H.
    destruct H as [[He ->]|(a & g & g' & b & -> & Ha & Hg & Hu & ->)].
    + split.
      * intros g Hin. apply in_app_or in Hin. destruct Hin as [Hin|[<-|[]]].
        -- rewrite (Hs g Hin), Hm.
           rewrite (existsb_false_in _ _ g He Hin).
           destruct (primitive (key g)); [lia|reflexivity].
        -- rewrite fresh_size, fresh_key. fold s.
           destruct (primitive s) eqn:Ep; [|reflexivity].
           rewrite Hm. unfold primitive in Ep. rewrite Ep.
           assert (H0 : matching s l = 0); [|lia].
           unfold matching, lengthZ.
           destruct (filter (fun r0 => strictEquals s (getOwn field r0)) l)
             as [|r0 rest] eqn:Ef; [reflexivity|exfalso].
           assert (Hr0 : In r0 (filter (fun r0 => strictEquals s (getOwn field r0)) l))
             by (rewrite Ef; now left).
           apply filter_In in Hr0. destruct Hr0 as [Hin Heq].
           apply strictEquals_eq in Heq.
           assert (Hc : existsb (fun y => strictEquals y s)
                          (firstOccurrences (map (getOwn field) l)) = true).
           { apply firstOccurrences_covers; [|exact Ep].
             rewrite Heq. now apply in_map. }
           rewrite <- Hk, existsb_key in Hc. congruence.
      * rewrite map_app, fold_right_app. cbn [map fold_right].
        rewrite fresh_size, Hlen, <- Hsum. rewrite sum_from. lia.
    + pose proof (update_key _ _ _ Hu) as Hkg.
      pose proof (update_size _ _ _ Hu) as Hsg.
      pose proof (strictEquals_eq _ _ Hg) as Heq.
      split.
      * intros g0 Hg0. apply in_app_or in Hg0.
        destruct Hg0 as [Hg0|[<-|Hg0]].
        -- rewrite (Hs g0) by (apply in_or_app; now left). rewrite Hm.
           rewrite (existsb_false_in _ _ g0 Ha Hg0).
           destruct (primitive (key g0)); [lia|reflexivity].
        -- rewrite Hsg, Hkg, (Hs g) by (apply in_or_app; right; now left).
           rewrite Hm, Hg.
           assert (Ep : primitive (key g) = true)
             by (unfold primitive; now rewrite Heq at 2).
           now rewrite Ep.
        -- rewrite (Hs g0) by (apply in_or_app; right; now right). rewrite Hm.
           destruct (strictEquals (key g0) s) eqn:E0;
             [exfalso|destruct (primitive (key g0)); [lia|reflexivity]].
           apply in_split in Hg0. destruct Hg0 as (b1 & b2 & ->).
           pose proof (firstOccurrences_fresh (map (getOwn field) l)
                         (map key (a ++ g :: b1)) (key g0) (map key b2)) as Hf.
           rewrite <- Hk in Hf.
           rewrite !map_app in Hf. cbn [map] in Hf.
           rewrite !map_app in Hf. cbn [map] in Hf.
           rewrite <- app_assoc in Hf. cbn [app] in Hf.
           specialize (Hf eq_refl).
           rewrite existsb_app in Hf. cbn [existsb] in Hf.
           apply orb_false_elim in Hf. destruct Hf as [_ Hf].
           apply orb_false_elim in Hf. destruct Hf as [Hf _].
           apply strictEquals_eq in E0. rewrite E0, <- Heq in Hf.
           rewrite Heq in Hf at 2. congruence.
      * rewrite Hlen, <- Hsum. rewrite !map_app, !fold_right_app.
        cbn [map fold_right]. rewrite Hsg.
        rewrite (sum_from (size g + 1 + _)), (sum_from (size g + _)). lia.
Qed.

(** The sums that the groups hold. *)

Variable total : G -> quantity.
Variable payload : string.

Hypothesis update_total :
  forall r g g', update r g = Some g' ->
                 total g' = Plus (total g) (getOwn payload r).
Hypothesis fresh_total : forall r, total (fresh r) = Given (getOwn payload r).
Hypothesis update_defined :
  forall r g, update r g <> None <->
              hasPrimitive (total g) = true /\
              convertible (getOwn payload r) = true.

Lemma sumOf_snoc vs x : vs <> [] -> sumOf (vs ++ [x]) = Plus (sumOf vs) x.
Proof.
  destruct vs as [|v vs]; [contradiction|]. intros _.
  cbn [sumOf app]. now rewrite fold_left_app.
Qed.

Lemma unmatched_fresh l (acc : list G) s :
  map key acc = firstOccurrences (map (getOwn field) l) ->
  existsb (fun g => strictEquals (key g) s) acc = false ->
  primitive s = true ->
  filter (fun r => strictEquals s (getOwn field r)) l = [].
Proof.
  intros Hk He Ep.
  destruct (filter (fun r => strictEquals s (getOwn field r)) l)
    as [|r0 rest] eqn:Ef; [reflexivity|exfalso].
  assert (Hr0 : In r0 (filter (fun r => strictEquals s (getOwn field r)) l))
    by (rewrite Ef; now left).
  apply filter_In in Hr0. destruct Hr0 as [Hin Heq].
  apply strictEquals_eq in Heq.
  assert (Hc : existsb (fun y => strictEquals y s)
                 (firstOccurrences (map (getOwn field) l)) = true).
  { apply firstOccurrences_covers; [|exact Ep].
    rewrite Heq. now apply in_map. }
  rewrite <- Hk, existsb_key in Hc. congruence.
Qed.

Lemma later_unmatched l (a b : list G) g g0 s :
  map key (a ++ g :: b) = firstOccurrences (map (getOwn field) l) ->
  strictEquals (key g) s = true -> In g0 b ->
  strictEquals (key g0) s = false.
Proof.
  intros Hk Hg Hg0.
  destruct (strictEquals (key g0) s) eqn:E0; [exfalso|reflexivity].
  pose proof (strictEquals_eq _ _ Hg) as Heq.
  apply in_split in Hg0. destruct Hg0 as (b1 & b2 & ->).
  pose proof (firstOccurrences_fresh (map (getOwn field) l)
                (map key (a ++ g :: b1)) (key g0) (map key b2)) as Hf.
  rewrite <- Hk in Hf.
  rewrite !map_app in Hf. cbn [map] in Hf.
  rewrite !map_app in Hf. cbn [map] in Hf.
  rewrite <- app_assoc in Hf. cbn [app] in Hf.
  specialize (Hf eq_refl).
  rewrite existsb_app in Hf. cbn [existsb] in Hf.
  apply orb_false_elim in Hf. destruct Hf as [_ Hf].
  apply orb_false_elim in Hf. destruct Hf as [Hf _].
  apply strictEquals_eq in E0. rewrite E0, <- Heq in Hf.
  rewrite Heq in Hf at 2. congruence.
Qed.

(** A group holds the sum of the values of its records, added from left
    to right in the order of the records. *)
Lemma grouping_totals l : forall gs,
  fold_left step l (Some []) = Some gs ->
  forall g, In g gs -> primitive (key g) = true ->
    total g
    = sumOf (map (getOwn payload)
               (filter (fun r => strictEquals (key g) (getOwn field r)) l)).
Proof.
  induction l as [|r l IH] using rev_ind; intros gs H.
  - inversion H. intros g [].
  - rewrite fold_left_app in H. cbn [fold_left] in H.
    destruct (fold_left step l (Some [])) as [acc|] eqn:E; [|discriminate].
    pose proof (IH acc eq_refl) as Ht. clear IH.
    pose proof (grouping_keys l acc E) as Hk.
    set (s := getOwn field r) in *.
    assert (Hm : forall x,
              map (getOwn payload)
                (filter (fun r0 => strictEquals x (getOwn field r0)) (l ++ [r]))
              = map (getOwn payload)
                  (filter (fun r0 => strictEquals x (getOwn field r0)) l)
                ++ if strictEquals x s then [getOwn payload r] else []).
    { intros x. rewrite filter_app, map_app. cbn [filter]. fold s.
      now destruct (strictEquals x s). }
    unfold step in H. fold s in H.
    apply findAndUpdate_spec in H.
    destruct H as [[He ->]|(a & g & g' & b & -> & Ha & Hg & Hu & ->)].
    + intros g Hin Hp. apply in_app_or in Hin. destruct Hin as [Hin|[<-|[]]].
      * rewrite Hm, (existsb_false_in _ _ g He Hin), app_nil_r.
        now apply Ht.
      * rewrite fresh_key in Hp |- *. fold s in Hp |- *.
        rewrite Hm, (unmatched_fresh l acc s Hk He Hp), fresh_total.
        unfold primitive in Hp. rewrite Hp. reflexivity.
    + pose proof (update_key _ _ _ Hu) as Hkg.
      pose proof (strictEquals_eq _ _ Hg) as Heq.
      intros g0 Hg0 Hp. apply in_app_or in Hg0.
      destruct Hg0 as [Hg0|[<-|Hg0]].
      * rewrite Hm, (existsb_false_in _ _ g0 Ha Hg0), app_nil_r.
        apply Ht; [apply in_or_app; now left|exact Hp].
      * rewrite Hkg in Hp |- *. rewrite Hm, Hg.
        rewrite (update_total _ _ _ Hu).
        rewrite (Ht g) by (try (apply in_or_app; right; now left); exact Hp).
        rewrite sumOf_snoc; [reflexivity|].
        assert (Hin : In (key g)
                        (firstOccurrences (map (getOwn field) l))).
        { rewrite <- Hk. apply in_map, in_or_app. right. now left. }
        apply firstOccurrences_incl, in_map_iff in Hin.
        destruct Hin as (r0 & Hr0 & Hin).
        intros Hnil.
        assert (Hf : In r0 (filter (fun r1 => strictEquals (key g)
                                                (getOwn field r1)) l)).
        { apply filter_In. split; [exact Hin|]. rewrite Hr0. exact Hp. }
        destruct (filter (fun r1 => strictEquals (key g) (getOwn field r1)) l);
          [contradiction|discriminate].
      * rewrite Hm, (later_unmatched l a b g g0 s Hk Hg Hg0), app_nil_r.
        apply Ht; [apply in_or_app; right; now right|exact Hp].
Qed.

Lemma findAndUpdate_defined (p : G -> bool) upd fr (acc : list G) :
  (forall g, In g acc -> upd g <> None) ->
  findAndUpdate p upd fr acc <> None.
Proof.
  induction acc as [|g r IH]; intros H; cbn [findAndUpdate]; [discriminate|].
  destruct (p g).
  - pose proof (H g (or_introl eq_refl)) as Hg.
    destruct (upd g); [discriminate|contradiction].
  - specialize (IH (fun x Hx => H x (or_intror Hx))).
    destruct (findAndUpdate p upd fr r); [discriminate|contradiction].
Qed.

(** When every value has a primitive, no addition throws, and every
    group holds a primitive. *)
Lemma grouping_defined l :
  (forall r, In r l -> convertible (getOwn payload r) = true) ->
  exists gs, fold_left step l (Some []) = Some gs /\
             forall g, In g gs -> hasPrimitive (total g) = true.
Proof.
  induction l as [|r l IH] using rev_ind; intros Hall.
  - exists []. split; [reflexivity|intros g []].
  - destruct IH as (acc & E & Hp).
    { intros x Hx. apply Hall, in_or_app. now left. }
    assert (Hr : convertible (getOwn payload r) = true)
      by (apply Hall, in_or_app; right; now left).
    rewrite fold_left_app. unfold record, object in E |- *. rewrite E.
    cbn [fold_left]. unfold step.
    destruct (findAndUpdate (fun g => strictEquals (key g) (getOwn field r))
                (update r) (fresh r) acc) as [gs|] eqn:Ef.
    + exists gs. split; [reflexivity|].
      apply findAndUpdate_spec in Ef.
      destruct Ef as [[_ ->]|(a & g & g' & b & -> & _ & _ & Hu & ->)];
        intros g0 Hg0; apply in_app_or in Hg0.
      * destruct Hg0 as [Hg0|[<-|[]]]; [now apply Hp|].
        rewrite fresh_total. exact Hr.
      * destruct Hg0 as [Hg0|[<-|Hg0]].
        -- apply Hp, in_or_app. now left.
        -- now rewrite (update_total _ _ _ Hu).
        -- apply Hp, in_or_app. right. now right.
    + exfalso. revert Ef. apply findAndUpdate_defined.
      intros g Hg. apply update_defined. split; [now apply Hp|exact Hr].
Qed.

(** A value that has no primitive either makes an addition throw or
    stays, as it is, the sum of its group. *)
Lemma grouping_converted l : forall gs,
  fold_left step l (Some []) = Some gs ->
  forall r, In r l ->
    convertible (getOwn payload r) = true \/
    exists g, In g gs /\ total g = Given (getOwn payload r).
Proof.
  induction l as [|r l IH] using rev_ind; intros gs H; [intros r []|].
  rewrite fold_left_app in H. cbn [fold_left] in H.
  destruct (fold_left step l (Some [])) as [acc|] eqn:E; [|discriminate].
  pose proof (IH acc eq_refl) as Hc. clear IH.
  unfold step in H. apply findAndUpdate_spec in H.
  destruct H as [[_ ->]|(a & g & g' & b & -> & _ & _ & Hu & ->)];
    intros x Hx; apply in_app_or in Hx.
  - destruct Hx as [Hx|[<-|[]]].
    + destruct (Hc x Hx) as [Hl|(g & Hg & Hgt)]; [now left|right].
      exists g. split; [apply in_or_app; now left|exact Hgt].
    + right. exists (fresh r). split; [apply in_or_app; right; now left|].
      apply fresh_total.
  - assert (Hd : hasPrimitive (total g) = true /\
                 convertible (getOwn payload r) = true).
    { apply update_defined. rewrite Hu. discriminate. }
    destruct Hx as [Hx|[<-|[]]]; [|left; apply Hd].
    destruct (Hc x Hx) as [Hl|(g0 & Hg0 & Hgt)]; [now left|].
    apply in_app_or in Hg0. destruct Hg0 as [Hg0|[<-|Hg0]].
    + right. exists g0. split; [apply in_or_app; now left|exact Hgt].
    + left. destruct Hd as [Hd _]. rewrite Hgt in Hd. exact Hd.
    + right. exists g0. split; [apply in_or_app; right; now right|exact Hgt].
Qed.

End Grouping.

(** *** Sector analysis *)

Lemma plus_defined a b :
  plus a b <> None <-> hasPrimitive a = true /\ convertible b = true.
Proof.
  unfold plus. rewrite <- andb_true_iff.
  destruct (hasPrimitive a && convertible b); split;
    try discriminate; try reflexivity; intros H; now contradiction H.
Qed.

Section SectorGroups.

Let update (curr : record) (existing : Sector.group) : option Sector.group :=
  match plus (Sector.frequency existing)
             (getOwn "frequency_percentage" curr) with
  | Some f' =>
      Some {| Sector.sector := Sector.sector existing;
              Sector.frequency := f';
              Sector.count := Sector.count existing + 1;
              Sector.avgFrequency := Sector.avgFrequency existing |}
  | None => None
  end.

Let fresh (curr : record) : Sector.group :=
  {| Sector.sector := getOwn "risk_type" curr;
     Sector.frequency := Given (getOwn "frequency_percentage" curr);
     Sector.count := 1;
     Sector.avgFrequency := Given (getOwn "frequency_percentage" curr) |}.

Lemma sector_update_key r g g' :
  update r g = Some g' -> Sector.sector g' = Sector.sector g.
Proof.
  unfold update. destruct (plus _ _); [|discriminate].
  intros H. now inversion H.
Qed.

Lemma sector_update_count r g g' :
  update r g = Some g' -> Sector.count g' = Sector.count g + 1.
Proof.
  unfold update. destruct (plus _ _); [|discriminate].
  intros H. now inversion H.
Qed.

Lemma sector_update_total r g g' :
  update r g = Some g' ->
  Sector.frequency g'
  = Plus (Sector.frequency g) (getOwn "frequency_percentage" r).
Proof.
  unfold update, plus.
  destruct (hasPrimitive _ && convertible _); [|discriminate].
  intros H. now inversion H.
Qed.

Lemma sector_update_defined r g :
  update r g <> None <->
  hasPrimitive (Sector.frequency g) = true /\
  convertible (getOwn "frequency_percentage" r) = true.
Proof.
  rewrite <- plus_defined. unfold update.
  destruct (plus _ _); split; try discriminate; intros H; now contradiction H.
Qed.

Lemma sector_groups riskFactors gs :
  Sector.groups riskFactors = Some gs ->
  map Sector.sector gs
  = firstOccurrences (map (getOwn "risk_type") riskFactors) /\
  (forall g, In g gs ->
     Sector.count g =
     if primitive (Sector.sector g)
     then lengthZ (filter (fun r => strictEquals (Sector.sector g)
                                      (getOwn "risk_type" r)) riskFactors)
     else 1) /\
  fold_right Z.add 0 (map Sector.count gs) = lengthZ riskFactors.
Proof.
  intros H. split.
  - exact (grouping_keys Sector.sector update fresh "risk_type"
             sector_update_key (fun _ => eq_refl) riskFactors gs H).
  - exact (grouping_sizes Sector.sector Sector.count update fresh "risk_type"
             sector_update_key sector_update_count
             (fun _ => eq_refl) (fun _ => eq_refl) riskFactors gs H).
Qed.

Lemma sector_totals riskFactors gs :
  Sector.groups riskFactors = Some gs ->
  forall g, In g gs -> primitive (Sector.sector g) = true ->
    Sector.frequency g
    = sumOf (map (getOwn "frequency_percentage")
               (filter (fun r => strictEquals (Sector.sector g)
                                   (getOwn "risk_type" r)) riskFactors)).
Proof.
  exact (grouping_totals Sector.sector update fresh "risk_type"
           sector_update_key (fun _ => eq_refl)
           Sector.frequency "frequency_percentage"
           sector_update_total (fun _ => eq_refl) riskFactors gs).
Qed.

Lemma sector_defined riskFactors :
  (forall r, In r riskFactors ->
     convertible (getOwn "frequency_percentage" r) = true) ->
  exists gs, Sector.groups riskFactors = Some gs /\
             forall g, In g gs -> hasPrimitive (Sector.frequency g) = true.
Proof.
  exact (grouping_defined Sector.sector update fresh "risk_type"
           Sector.frequency "frequency_percentage"
           sector_update_total (fun _ => eq_refl) sector_update_defined
           riskFactors).
Qed.

Lemma sector_converted riskFactors gs :
  Sector.groups riskFactors = Some gs ->
  forall r, In r riskFactors ->
    convertible (getOwn "frequency_percentage" r) = true \/
    exists g, In g gs /\
              Sector.frequency g = Given (getOwn "frequency_percentage" r).
Proof.
  exact (grouping_converted Sector.sector update fresh "risk_type"
           Sector.frequency "frequency_percentage"
           (fun _ => eq_refl) sector_update_defined riskFactors gs).
Qed.

End SectorGroups.

(** X10. The sector analysis of the black-theme dashboard throws
    exactly when the frequency of some risk factor has no primitive
    value. Otherwise it holds one entry for each distinct risk type of
    the risk factors, in the order in which the risk types first occur
    in the list (also for risk types that look like array indices); the
    count of an entry is the number of factors of its risk type, its
    frequency is the sum of their frequencies added from left to right,
    the counts add up to the number of factors, the average is the
    quotient of the summed frequency by the count, and the radar chart
    shows the first six entries. *)
Theorem sector_analysis_groups (riskFactors : list record) :
  (Sector.sectorAnalysis riskFactors <> None <->
   forall r, In r riskFactors ->
     convertible (getOwn "frequency_percentage" r) = true) /\
  forall items,
    Sector.sectorAnalysis riskFactors = Some items ->
    map Sector.i_sector items
    = firstOccurrences (map (getOwn "risk_type") riskFactors) /\
    (forall it, In it items ->
       1 <= Sector.i_count it /\
       Sector.i_count it =
       (if primitive (Sector.i_sector it)
        then lengthZ (filter (fun r => strictEquals (Sector.i_sector it)
                                         (getOwn "risk_type" r)) riskFactors)
        else 1) /\
       (primitive (Sector.i_sector it) = true ->
        Sector.i_frequency it
        = sumOf (map (getOwn "frequency_percentage")
                   (filter (fun r => strictEquals (Sector.i_sector it)
                                       (getOwn "risk_type" r)) riskFactors))) /\
       Sector.i_avgFrequency it
       = Over (Sector.i_frequency it) (Sector.i_count it)) /\
    fold_right Z.add 0 (map Sector.i_count items) = lengthZ riskFactors /\
    Sector.radarData riskFactors = Some (firstn 6 items).
Proof.
  split.
  { split.
    - intros Hsome r Hr. unfold Sector.sectorAnalysis in Hsome.
      destruct (Sector.groups riskFactors) as [gs|] eqn:E;
        [|now contradiction Hsome].
      destruct (sector_converted riskFactors gs E r Hr)
        as [Hc|(g & Hg & Hf)]; [exact Hc|].
      destruct (Exporter.sequence (map Sector.finish gs)) as [items|] eqn:Es;
        [|now contradiction Hsome].
      apply sequence_forall2 in Es.
      assert (Hfin : forall g0, In g0 gs -> Sector.finish g0 <> None).
      { clear - Es. induction Es as [|g0 it gs' items' Hf _ IH];
          intros x Hx; [contradiction|].
        destruct Hx as [<-|Hx]; [now rewrite Hf|now apply IH]. }
      specialize (Hfin g Hg). unfold Sector.finish, divide in Hfin.
      rewrite Hf in Hfin. cbn [hasPrimitive] in Hfin.
      destruct (convertible (getOwn "frequency_percentage" r));
        [reflexivity|now contradiction Hfin].
    - intros Hall. unfold Sector.sectorAnalysis.
      destruct (sector_defined riskFactors Hall) as (gs & -> & Hp).
      apply sequence_total. intros g Hg. unfold Sector.finish, divide.
      now rewrite (Hp g Hg). }
  intros items H. unfold Sector.sectorAnalysis in H.
  destruct (Sector.groups riskFactors) as [gs|] eqn:E; [|discriminate].
  destruct (sector_groups riskFactors gs E) as (Hk & Hs & Hsum).
  pose proof (sector_totals riskFactors gs E) as Ht.
  apply sequence_forall2 in H.
  assert (Hitem : forall it, In it items ->
            exists g, In g gs /\ Sector.finish g = Some it).
  { clear - H. induction H as [|g it gs' items' Hf _ IH]; intros x Hx;
      [contradiction|].
    destruct Hx as [<-|Hx].
    - exists g. split; [now left|exact Hf].
    - destruct (IH x Hx) as (g0 & Hg0 & Hf0). exists g0. split; [now right|exact Hf0]. }
  assert (Hmap : map Sector.i_sector items = map Sector.sector gs /\
                 map Sector.i_count items = map Sector.count gs).
  { clear - H. induction H as [|g it gs' items' Hf _ [IH1 IH2]];
      [split; reflexivity|].
    unfold Sector.finish in Hf.
    destruct (divide _ _); [|discriminate]. inversion Hf; subst it.
    cbn [map Sector.i_sector Sector.i_count]. now rewrite IH1, IH2. }
  destruct Hmap as [Hm1 Hm2].
  split; [now rewrite Hm1|]. split; [|split].
  - intros it Hit. destruct (Hitem it Hit) as (g & Hg & Hf).
    unfold Sector.finish, divide in Hf.
    destruct (hasPrimitive (Sector.frequency g)); [|discriminate].
    inversion Hf; subst it; clear Hf.
    cbn [Sector.i_sector Sector.i_count Sector.i_frequency Sector.i_avgFrequency].
    pose proof (Hs g Hg) as Hc.
    split; [|split; [exact Hc|split; [now apply Ht|reflexivity]]].
    destruct (primitive (Sector.sector g)) eqn:Ep; [|lia].
    rewrite Hc. unfold lengthZ.
    assert (Hin : In (Sector.sector g)
                     (firstOccurrences (map (getOwn "risk_type") riskFactors))).
    { rewrite <- Hk. now apply in_map. }
    apply firstOccurrences_incl, in_map_iff in Hin.
    destruct Hin as (r & Hr & Hin).
    match goal with |- context [List.length ?l] => set (fl := l) end.
    assert (Hf : In r fl).
    { apply filter_In. split; [exact Hin|]. rewrite Hr. exact Ep. }
    destruct fl; [contradiction|]. simpl. lia.
  - now rewrite Hm2.
  - unfold Sector.radarData, Sector.sectorAnalysis. rewrite E.
    assert (Hseq : Exporter.sequence (map Sector.finish gs) = Some items).
    { clear - H. induction H as [|g it gs' items' Hf _ IH]; [reflexivity|].
      cbn [map Exporter.sequence]. now rewrite Hf, IH. }
    rewrite Hseq. reflexivity.
Qed.

Lemma factorSample_convertible :
  forall r, In r factorSample ->
    convertible (getOwn "frequency_percentage" r) = true.
Proof.
  intros r Hr. simpl in Hr.
  destruct Hr as [<-|[<-|[<-|[]]]]; reflexivity.
Defined.

Lemma sector_analysis_groups_witness :
  Sector.sectorAnalysis factorSample <> None /\
  (Sector.sectorAnalysis factorSample
   = Some [ {| Sector.i_sector := Some (JStr "Trust Erosion");
               Sector.i_frequency :=
                 Plus (Given (Some (JNum (NumFin 452 (-1)))))
                      (Some (JNum (NumFin 321 (-1))));
               Sector.i_count := 2;
               Sector.i_avgFrequency :=
                 Over (Plus (Given (Some (JNum (NumFin 452 (-1)))))
                            (Some (JNum (NumFin 321 (-1))))) 2 |};
            {| Sector.i_sector := Some (JStr "Over-reliance");
               Sector.i_frequency := Given (Some (JNum (NumFin 387 (-1))));
               Sector.i_count := 1;
               Sector.i_avgFrequency :=
                 Over (Given (Some (JNum (NumFin 387 (-1))))) 1 |} ]) /\
  2 + (1 + 0) = lengthZ factorSample.
Proof.
  split; [|split; [vm_compute; reflexivity|]].
  - exact (proj2 (proj1 (sector_analysis_groups factorSample))
             factorSample_convertible).
  - exact (proj1 (proj2 (proj2
             (proj2 (sector_analysis_groups factorSample) _ eq_refl)))).
Defined.

(** The numbers that the engine computes for the sample: 45.2 + 32.1 is
    77.30000000000001, and half of it 38.650000000000006. *)
Example sector_frequency_numbers :
  evaluate (Plus (Given (Some (JNum (NumFin 452 (-1)))))
                 (Some (JNum (NumFin 321 (-1)))))
  = Some (numberToDouble (NumFin 7730000000000001 (-14))) /\
  evaluate (Over (Plus (Given (Some (JNum (NumFin 452 (-1)))))
                       (Some (JNum (NumFin 321 (-1))))) 2)
  = Some (numberToDouble (NumFin 38650000000000006 (-15))).
Proof. vm_compute. split; reflexivity. Qed.

(** A frequency without a primitive value makes the analysis throw,
    also when it is the only one of its risk type. *)
Example sector_analysis_throws :
  Sector.sectorAnalysis
    [ [("risk_type", JStr "Trust Erosion");
       ("frequency_percentage", JObj [("toString", JNull)])] ] = None.
Proof. reflexivity. Qed.

(** Unlike the keys of a grouped object, the sectors keep their order
    of first occurrence when they look like array indices. *)
Example sector_analysis_order :
  option_map (map Sector.i_sector)
    (Sector.sectorAnalysis
       [ [("risk_type", JStr "2"); ("frequency_percentage", JNum (NumFin 1 0))];
         [("risk_type", JStr "1"); ("frequency_percentage", JNum (NumFin 1 0))] ])
  = Some [Some (JStr "2"); Some (JStr "1")].
Proof. vm_compute. reflexivity. Qed.

(** *** Impact distribution *)

Lemma firstOccurrences_nodup xs :
  (forall x, In x xs -> primitive x = true) -> NoDup (firstOccurrences xs).
Proof.
  induction xs as [|x xs IH] using rev_ind; intros H; [constructor|].
  rewrite firstOccurrences_snoc.
  assert (IH' : NoDup (firstOccurrences xs)).
  { apply IH. intros y Hy. apply H, in_or_app. now left. }
  destruct (existsb _ (firstOccurrences xs)) eqn:E; [exact IH'|].
  apply snoc_nodup; [exact IH'|]. intros Hin.
  pose proof (existsb_false_in _ _ x E Hin) as Hx.
  assert (Hp : primitive x = true)
    by (apply H, in_or_app; right; now left).
  unfold primitive in Hp. congruence.
Qed.

Section ImpactSlices.

Let update (factor : record) (existing : Impact.slice) : option Impact.slice :=
  match plus (Impact.value existing)
             (getOwn "frequency_percentage" factor) with
  | Some v => Some {| Impact.name := Impact.name existing; Impact.value := v |}
  | None => None
  end.

Let fresh (factor : record) : Impact.slice :=
  {| Impact.name := getOwn "impact_level" factor;
     Impact.value := Given (getOwn "frequency_percentage" factor) |}.

Lemma impact_update_key r g g' :
  update r g = Some g' -> Impact.name g' = Impact.name g.
Proof.
  unfold update. destruct (plus _ _); [|discriminate].
  intros H. now inversion H.
Qed.

Lemma impact_update_total r g g' :
  update r g = Some g' ->
  Impact.value g' = Plus (Impact.value g) (getOwn "frequency_percentage" r).
Proof.
  unfold update, plus.
  destruct (hasPrimitive _ && convertible _); [|discriminate].
  intros H. now inversion H.
Qed.

Lemma impact_update_defined r g :
  update r g <> None <->
  hasPrimitive (Impact.value g) = true /\
  convertible (getOwn "frequency_percentage" r) = true.
Proof.
  rewrite <- plus_defined. unfold update.
  destruct (plus _ _); split; try discriminate; intros H; now contradiction H.
Qed.

Lemma impact_names riskFactors slices :
  Impact.impactDistribution riskFactors = Some slices ->
  map Impact.name slices
  = firstOccurrences (map (getOwn "impact_level") riskFactors).
Proof.
  exact (grouping_keys Impact.name update fresh "impact_level"
           impact_update_key (fun _ => eq_refl) riskFactors slices).
Qed.

Lemma impact_totals riskFactors slices :
  Impact.impactDistribution riskFactors = Some slices ->
  forall s, In s slices -> primitive (Impact.name s) = true ->
    Impact.value s
    = sumOf (map (getOwn "frequency_percentage")
               (filter (fun r => strictEquals (Impact.name s)
                                   (getOwn "impact_level" r)) riskFactors)).
Proof.
  exact (grouping_totals Impact.name update fresh "impact_level"
           impact_update_key (fun _ => eq_refl)
           Impact.value "frequency_percentage"
           impact_update_total (fun _ => eq_refl) riskFactors slices).
Qed.

Lemma impact_defined riskFactors :
  (forall r, In r riskFactors ->
     convertible (getOwn "frequency_percentage" r) = true) ->
  exists slices, Impact.impactDistribution riskFactors = Some slices /\
                 forall s, In s slices -> hasPrimitive (Impact.value s) = true.
Proof.
  exact (grouping_defined Impact.name update fresh "impact_level"
           Impact.value "frequency_percentage"
           impact_update_total (fun _ => eq_refl) impact_update_defined
           riskFactors).
Qed.

End ImpactSlices.

Lemma fills_distinct n :
  (n <= 5)%nat ->
  NoDup (map Impact.fill (seq 0 n)) /\ ~ In None (map Impact.fill (seq 0 n)).
Proof.
  intros Hn.
  destruct n as [|[|[|[|[|[|n]]]]]]; [| | | | | |lia];
    (split; [repeat constructor; simpl; intuition discriminate
            |simpl; intuition discriminate]).
Qed.

(** X11. The impact distribution of the mitigation dashboard is
    computed whenever the frequency of every risk factor has a
    primitive value. Its pie has one slice for each distinct impact
    level of the risk factors, in the order in which the levels first
    occur, and the value of a slice is the sum of the frequencies of the
    factors of its level, added from left to right. When the impact
    levels obey the check of the table (one of the four levels, or null)
    there are at most five slices, and no two of them have the same
    colour. *)
Theorem impact_slices_distinct_colours (riskFactors : list record) :
  ((forall r, In r riskFactors ->
      convertible (getOwn "frequency_percentage" r) = true) ->
   Impact.impactDistribution riskFactors <> None) /\
  forall slices,
    Impact.impactDistribution riskFactors = Some slices ->
    map Impact.name slices
    = firstOccurrences (map (getOwn "impact_level") riskFactors) /\
    (forall s, In s slices -> primitive (Impact.name s) = true ->
       Impact.value s
       = sumOf (map (getOwn "frequency_percentage")
                  (filter (fun r => strictEquals (Impact.name s)
                                      (getOwn "impact_level" r)) riskFactors))) /\
    ((forall r, In r riskFactors ->
        In (getOwn "impact_level" r) impactLevels) ->
     NoDup (map Impact.name slices) /\
     (List.length slices <= 5)%nat /\
     NoDup (Impact.fills slices) /\
     ~ In None (Impact.fills slices)).
Proof.
  split.
  { intros Hall. destruct (impact_defined riskFactors Hall) as (sl & -> & _).
    discriminate. }
  intros slices H. pose proof (impact_names riskFactors slices H) as Hn.
  split; [exact Hn|]. split; [exact (impact_totals riskFactors slices H)|].
  intros Hlev.
  assert (Hin : forall x, In x (map (getOwn "impact_level") riskFactors) ->
                          In x impactLevels).
  { intros x Hx. apply in_map_iff in Hx. destruct Hx as (r & <- & Hr).
    now apply Hlev. }
  assert (Hnd : NoDup (map Impact.name slices)).
  { rewrite Hn. apply firstOccurrences_nodup. intros x Hx.
    specialize (Hin x Hx). simpl in Hin.
    destruct Hin as [<-|[<-|[<-|[<-|[<-|[]]]]]]; reflexivity. }
  assert (Hlen : (List.length slices <= 5)%nat).
  { rewrite <- (length_map Impact.name).
    change 5%nat with (List.length impactLevels).
    apply NoDup_incl_length; [exact Hnd|].
    intros x Hx. rewrite Hn in Hx. apply Hin.
    now apply firstOccurrences_incl. }
  split; [exact Hnd|]. split; [exact Hlen|].
  exact (fills_distinct _ Hlen).
Qed.

Lemma factorSample_levels :
  forall r, In r factorSample -> In (getOwn "impact_level" r) impactLevels.
Proof.
  intros r Hr. simpl in Hr.
  destruct Hr as [<-|[<-|[<-|[]]]]; simpl; auto.
Defined.

Lemma impact_slices_distinct_colours_witness :
  Impact.impactDistribution factorSample <> None /\
  (Impact.impactDistribution factorSample
   = Some [ {| Impact.name := Some (JStr "High");
               Impact.value :=
                 Plus (Given (Some (JNum (NumFin 452 (-1)))))
                      (Some (JNum (NumFin 387 (-1)))) |};
            {| Impact.name := Some (JStr "Medium");
               Impact.value := Given (Some (JNum (NumFin 321 (-1)))) |} ]) /\
  NoDup [Some "#3b82f6"; Some "#8b5cf6"].
Proof.
  split; [|split; [vm_compute; reflexivity|]].
  - exact (proj1 (impact_slices_distinct_colours factorSample)
             factorSample_convertible).
  - exact (proj1 (proj2 (proj2
             (proj2 (proj2 (proj2 (impact_slices_distinct_colours
                                     factorSample) _ eq_refl))
                factorSample_levels)))).
Defined.

(** The number that the engine computes for the first slice of the
    sample: 45.2 + 38.7 is 83.9. *)
Example impact_value_number :
  evaluate (Plus (Given (Some (JNum (NumFin 452 (-1)))))
                 (Some (JNum (NumFin 387 (-1)))))
  = Some (numberToDouble (NumFin 839 (-1))).
Proof. vm_compute. reflexivity. Qed.

(** With a sixth impact level the first colour comes twice. *)
Example impact_colours_repeat :
  Impact.fill 5 = Impact.fill 0.
Proof. reflexivity. Qed.

End ViewsFacts.

(** ** The exporters, beyond the assessments *)

Module ReportsFacts.
Import JS Exporter ExportAux JSFacts JsonFacts ExporterFacts.

(** *** The CSV files *)

Lemma assemble_assessments mean st dataType t o :
  Enhanced.wantsAssessments dataType = true ->
  Enhanced.assemble mean st dataType t = Some o ->
  getOwn "risk_assessments" o = Some (records (Enhanced.assessments st)).
Proof.
  unfold Enhanced.assemble. intros -> H.
  destruct (Enhanced.wantsStrategies dataType);
    destruct (Enhanced.wantsFactors dataType);
    repeat match type of H with
           | context [mean ?x] => destruct (mean x); [|discriminate]
           end;
    rewrite ?spread_append in H by reflexivity;
    inversion H; reflexivity.
Qed.

Lemma convertToCSV_assessments o l :
  getOwn "risk_assessments" o = Some (records l) ->
  Enhanced.convertToCSV o
  = Enhanced.convertToCSV [("risk_assessments", records l)].
Proof.
  intros H. unfold Enhanced.convertToCSV. rewrite H. reflexivity.
Qed.

Lemma assemble_total mean st dataType t :
  mean (map (getOwn "effectiveness_score") (Enhanced.strategies st)) <> None ->
  mean (map (getOwn "frequency_percentage") (Enhanced.riskFactors st)) <> None ->
  Enhanced.assemble mean st dataType t <> None.
Proof.
  intros H1 H2. unfold Enhanced.assemble.
  destruct (mean (map (getOwn "effectiveness_score") _)); [|contradiction].
  destruct (mean (map (getOwn "frequency_percentage") _)); [|contradiction].
  destruct (Enhanced.wantsStrategies dataType);
    destruct (Enhanced.wantsFactors dataType); discriminate.
Qed.

(** X12. The CSV file of the enhanced exporter holds the assessments
    and nothing else: for the data types "all" and "assessments" its
    text is the CSV of the list of assessments alone, so that two
    exports of the same assessments give the same text whatever
    strategies and risk factors are loaded, and whenever the clock is
    read. *)
Theorem csv_export_only_assessments (mean : meanFn)
    (st1 st2 : Enhanced.state) (dataType1 dataType2 : string)
    (t1 t2 : Z) (d1 d2 : string) :
  Enhanced.wantsAssessments dataType1 = true ->
  Enhanced.wantsAssessments dataType2 = true ->
  Enhanced.assessments st1 = Enhanced.assessments st2 ->
  Enhanced.dataStr mean st1 "csv" dataType1 t1 = Some d1 ->
  Enhanced.dataStr mean st2 "csv" dataType2 t2 = Some d2 ->
  d1 = d2 /\
  Enhanced.convertToCSV
    [("risk_assessments", records (Enhanced.assessments st1))] = Some d1.
Proof.
  intros W1 W2 Ha H1 H2.
  assert (Hcsv : forall st dataType t d,
            Enhanced.wantsAssessments dataType = true ->
            Enhanced.dataStr mean st "csv" dataType t = Some d ->
            Enhanced.convertToCSV
              [("risk_assessments", records (Enhanced.assessments st))]
            = Some d).
  { intros st dataType t d W H. unfold Enhanced.dataStr in H.
    destruct (Enhanced.assemble mean st dataType t) as [o|] eqn:E;
      [|discriminate].
    cbn [String.eqb Ascii.eqb Bool.eqb] in H.
    now rewrite <- (convertToCSV_assessments o _
                      (assemble_assessments mean st dataType t o W E)). }
  pose proof (Hcsv _ _ _ _ W1 H1) as C1.
  pose proof (Hcsv _ _ _ _ W2 H2) as C2.
  rewrite <- Ha in C2. split; [congruence|exact C1].
Qed.

Lemma csv_export_only_assessments_witness :
  Enhanced.dataStr Enhanced.meanOfNone sampleState "csv" "assessments" 0
  = Enhanced.dataStr Enhanced.meanOfNone loadedState "csv" "all" 86400000 /\
  Enhanced.dataStr Enhanced.meanOfNone sampleState "csv" "assessments" 0
  <> None.
Proof.
  destruct (Enhanced.dataStr Enhanced.meanOfNone sampleState "csv"
              "assessments" 0) as [d1|] eqn:E1; [|vm_compute in E1; discriminate].
  destruct (Enhanced.dataStr Enhanced.meanOfNone loadedState "csv"
              "all" 86400000) as [d2|] eqn:E2; [|vm_compute in E2; discriminate].
  split; [|discriminate]. f_equal.
  exact (proj1 (csv_export_only_assessments Enhanced.meanOfNone
                  sampleState loadedState "assessments" "all" 0 86400000
                  d1 d2 eq_refl eq_refl eq_refl E1 E2)).
Defined.

(** X13. When no assessment is loaded but a strategy or a risk factor
    is, the CSV export of the data types "all" and "assessments"
    downloads a file that holds a single line feed, and reports
    success. *)
Theorem csv_export_of_no_assessments (mean : meanFn) (st : Enhanced.state)
    (dataType : string) (t_file t_meta : Z) :
  Enhanced.assessments st = [] ->
  Enhanced.noData st = false ->
  Enhanced.wantsAssessments dataType = true ->
  mean (map (getOwn "effectiveness_score") (Enhanced.strategies st)) <> None ->
  mean (map (getOwn "frequency_percentage") (Enhanced.riskFactors st)) <> None ->
  Enhanced.exportData mean st "csv" dataType t_file t_meta
  = [ SetIsExporting true;
      Download (Enhanced.fileName "csv" dataType t_file) "text/csv"
               (str [newline]);
      Toast "Export Completed"
            ("Comprehensive " ++ dataType
             ++ " data exported successfully as CSV.")%string
            Default;
      SetIsExporting false ].
Proof.
  intros Ha Hn W M1 M2. unfold Enhanced.exportData. rewrite Hn.
  pose proof (assemble_total mean st dataType t_meta M1 M2) as Ht.
  unfold Enhanced.dataStr.
  destruct (Enhanced.assemble mean st dataType t_meta) as [o|] eqn:E;
    [|contradiction].
  cbn [String.eqb Ascii.eqb Bool.eqb].
  rewrite (convertToCSV_assessments o _
             (assemble_assessments mean st dataType t_meta o W E)).
  rewrite Ha. reflexivity.
Qed.

Lemma csv_export_of_no_assessments_witness :
  Enhanced.exportData Enhanced.meanOfNone strategiesOnly "csv" "all" 0 0
  = [ SetIsExporting true;
      Download "ai-risk-comprehensive-all-1970-01-01.csv" "text/csv"
               (str [newline]);
      Toast "Export Completed"
            "Comprehensive all data exported successfully as CSV." Default;
      SetIsExporting false ].
Proof.
  exact (csv_export_of_no_assessments Enhanced.meanOfNone strategiesOnly
           "all" 0 0 eq_refl eq_refl eq_refl
           ltac:(discriminate) ltac:(discriminate)).
Defined.

(** X14. The CSV text of the legacy exporter is made of the timestamp,
    the tool, the risk type and the severity of the records and of
    nothing else: two lists of records that agree on these four fields
    export to the same text, whatever their descriptions and e-mail
    addresses are. *)
Theorem legacy_csv_reads_four_fields (l1 l2 : list record) (format : string) :
  String.eqb format "json" = false ->
  map csvFields l1 = map csvFields l2 ->
  Reports.dataStr l1 format = Reports.dataStr l2 format /\
  Reports.exportData l1 format = Reports.exportData l2 format.
Proof.
  intros Hf H.
  assert (Hl : map Reports.csvLine l1 = map Reports.csvLine l2).
  { revert l2 H. induction l1 as [|a l1 IH]; intros [|b l2] H;
      try discriminate; [reflexivity|].
    cbn [map] in H |- *. injection H as E1 E2 E3 E4 Hr.
    rewrite (IH l2 Hr). f_equal.
    unfold Reports.csvLine. now rewrite E1, E2, E3, E4. }
  assert (Hd : Reports.dataStr l1 format = Reports.dataStr l2 format).
  { unfold Reports.dataStr. now rewrite Hf, Hl. }
  split; [exact Hd|].
  unfold Reports.exportData. rewrite Hd.
  apply (f_equal (@List.length _)) in H. rewrite !length_map in H.
  now rewrite H.
Qed.

Lemma legacy_csv_reads_four_fields_witness :
  Reports.dataStr legacySample "csv"
  = Some "2025-06-27T11:57:15.123Z,ChatGPT/OpenAI,Misinformation,High" /\
  Reports.dataStr legacySample "csv" = Reports.dataStr legacySampleNoEmail "csv".
Proof.
  split; [reflexivity|].
  exact (proj1 (legacy_csv_reads_four_fields legacySample legacySampleNoEmail
                  "csv" eq_refl eq_refl)).
Defined.

(** The CSV file of the enhanced exporter, in contrast, holds every
    field of an assessment. *)
Example enhanced_csv_holds_every_field :
  Enhanced.convertToCSV [("risk_assessments", records legacySample)]
  <> Enhanced.convertToCSV [("risk_assessments", records legacySampleNoEmail)].
Proof. vm_compute. discriminate. Qed.

(** *** The JSON file *)

Lemma jsonImage_lengthNum {A} (l : list A) :
  jsonImage (Enhanced.lengthNum l) = Enhanced.lengthNum l.
Proof.
  apply jsonData_wellFormed. unfold Enhanced.lengthNum, numOfZ.
  apply normalize_is_canonical.
Qed.

Lemma member_image section k o props :
  getOwn section o = Some (JObj props) ->
  member section k (imageProps o) = option_map jsonImage (getOwn k props).
Proof.
  intros H. unfold member. rewrite getOwn_image, H. cbn [option_map].
  rewrite jsonImage_object. apply getOwn_image.
Qed.

(** X15. When the loaded records are JSON data, the JSON text of the
    enhanced exporter parses to an object that holds, for the data types
    that ask for them, the very lists of strategies and of risk factors,
    each with a summary whose totals are the lengths of these lists (and
    the number of factors of critical impact), and a metadata block
    whose total is the number of assessments and whose date is the
    instant of the export; an average that is not a finite number (as
    the average of no strategies) is read back as null. *)
Theorem json_export_sections_round_trip (mean : meanFn)
    (st : Enhanced.state) (dataType : string) (t_meta : Z) (o : object) :
  meanOk mean ->
  recordsOk (Enhanced.assessments st) = true ->
  recordsOk (Enhanced.strategies st) = true ->
  recordsOk (Enhanced.riskFactors st) = true ->
  Enhanced.assemble mean st dataType t_meta = Some o ->
  exists o',
    Enhanced.dataStr mean st "json" dataType t_meta
    = Some (stringify (JObj o)) /\
    parse (stringify (JObj o)) = Some (JObj o') /\
    (if Enhanced.wantsAssessments dataType then
       member "metadata" "total_assessments" o'
       = Some (Enhanced.lengthNum (Enhanced.assessments st)) /\
       member "metadata" "export_date" o' = Some (JStr (toISOString t_meta))
     else getOwn "metadata" o' = None) /\
    (if Enhanced.wantsStrategies dataType then
       getOwn "mitigation_strategies" o'
       = Some (records (Enhanced.strategies st)) /\
       member "strategy_summary" "total_strategies" o'
       = Some (Enhanced.lengthNum (Enhanced.strategies st)) /\
       member "strategy_summary" "average_effectiveness" o'
       = option_map (fun avg => jsonImage (JNum avg))
           (mean (map (getOwn "effectiveness_score") (Enhanced.strategies st)))
     else getOwn "mitigation_strategies" o' = None /\
          getOwn "strategy_summary" o' = None) /\
    (if Enhanced.wantsFactors dataType then
       getOwn "risk_factors" o' = Some (records (Enhanced.riskFactors st)) /\
       member "factor_analysis" "total_factors" o'
       = Some (Enhanced.lengthNum (Enhanced.riskFactors st)) /\
       member "factor_analysis" "high_impact_factors" o'
       = Some (Enhanced.lengthNum
                 (filter Enhanced.isCritical (Enhanced.riskFactors st)))
     else getOwn "risk_factors" o' = None /\
          getOwn "factor_analysis" o' = None).
Proof.
  intros Hm Ha Hs Hf Ho.
  destruct (assemble_wellFormed mean st dataType t_meta o Hm Ha Hs Hf Ho)
    as [Hwf _].
  exists (imageProps o).
  split; [unfold Enhanced.dataStr; now rewrite Ho|].
  split; [rewrite parse_stringify by assumption; now rewrite jsonImage_object|].
  unfold Enhanced.assemble in Ho.
  destruct (Enhanced.wantsAssessments dataType);
    destruct (Enhanced.wantsStrategies dataType);
    destruct (Enhanced.wantsFactors dataType);
    repeat match type of Ho with
           | context [mean ?x] =>
               let E := fresh "E" in
               destruct (mean x) eqn:E; [|discriminate Ho]
           end;
    rewrite ?spread_append in Ho by reflexivity;
    inversion Ho; subst o; clear Ho;
    repeat split;
    repeat match goal with
           | |- member ?s ?k (imageProps ?o) = _ =>
               erewrite (member_image s k o) by reflexivity
           | |- getOwn ?k (imageProps ?o) = _ => rewrite getOwn_image
           end;
    cbn [getOwn String.eqb Ascii.eqb Bool.eqb app option_map];
    rewrite ?jsonImage_lengthNum, ?records_image by assumption;
    reflexivity.
Qed.

Lemma json_export_sections_round_trip_witness :
  exists o o',
    Enhanced.assemble Enhanced.meanOfNone strategiesOnly "strategies" 0
    = Some o /\
    parse (stringify (JObj o)) = Some (JObj o') /\
    getOwn "mitigation_strategies" o' = Some (records [sampleStrategy]) /\
    member "strategy_summary" "total_strategies" o' = Some (JNum (NumFin 1 0)) /\
    member "strategy_summary" "average_effectiveness" o' = Some JNull.
Proof.
  eexists.
  destruct (json_export_sections_round_trip Enhanced.meanOfNone
              strategiesOnly "strategies" 0 _ meanOfNone_ok
              eq_refl eq_refl eq_refl eq_refl)
    as (o' & _ & Hp & _ & (H1 & H2 & H3) & _).
  exists o'. split; [reflexivity|]. split; [exact Hp|].
  split; [exact H1|]. split; [exact H2|exact H3].
Defined.

(** *** Exporting after a failed fetch *)

(** X16. When one of the three queries of the reports section fails,
    none of the record sets is loaded, also not those whose query
    succeeded: the view stops loading, an error is reported, and,
    starting from the state in which the component mounts, every export
    then reports that there is no data and downloads nothing, and there
    are no analytics insights. *)
Theorem failed_fetch_leaves_nothing_to_export (mean : meanFn)
    (v : Loader.view) (a s f : Loader.reply) :
  Loader.failed a || Loader.failed s || Loader.failed f = true ->
  let v' := fst (Loader.fetchAllData v a s f) in
  Loader.sets v' = Loader.sets v /\
  Loader.loading v' = false /\
  snd (Loader.fetchAllData v a s f)
  = [ Loader.ConsoleError;
      Loader.Toast "Data Fetch Error"
        "Failed to load analysis data. Please try again." Destructive ] /\
  (v = Loader.initialView ->
   (forall format dataType t_file t_meta,
      Enhanced.exportData mean (Loader.sets v') format dataType t_file t_meta
      = [ Toast "No Data Available"
            "No data available for export. Please ensure data has been loaded."
            Destructive ]) /\
   Aggregator.getAnalyticsInsights mean
     (Enhanced.assessments (Loader.sets v'))
     (Enhanced.strategies (Loader.sets v'))
     (Enhanced.riskFactors (Loader.sets v')) = Some Aggregator.Null).
Proof.
  intros H.
  assert (E : Loader.fetchAllData v a s f
              = ({| Loader.sets := Loader.sets v; Loader.loading := false |},
                 [ Loader.ConsoleError;
                   Loader.Toast "Data Fetch Error"
                     "Failed to load analysis data. Please try again."
                     Destructive ])).
  { destruct a as [da [|]|], s as [ds [|]|], f as [df [|]|];
      try reflexivity; discriminate H. }
  rewrite E. cbn [fst snd Loader.sets Loader.loading].
  split; [reflexivity|]. split; [reflexivity|]. split; [reflexivity|].
  intros ->. split; reflexivity.
Qed.

Lemma failed_fetch_leaves_nothing_to_export_witness :
  fst (Loader.fetchAllData Loader.initialView
         (Loader.Resolved (Some [sampleAssessment]) false)
         (Loader.Resolved None true) Loader.Rejected)
  = {| Loader.sets := emptyState; Loader.loading := false |} /\
  forall format dataType t_file t_meta,
    Enhanced.exportData Enhanced.meanOfNone emptyState
      format dataType t_file t_meta
    = [ Toast "No Data Available"
          "No data available for export. Please ensure data has been loaded."
          Destructive ].
Proof.
  split; [reflexivity|].
  exact (proj1 (proj2 (proj2 (proj2
           (failed_fetch_leaves_nothing_to_export Enhanced.meanOfNone
              Loader.initialView
              (Loader.Resolved (Some [sampleAssessment]) false)
              (Loader.Resolved None true) Loader.Rejected eq_refl)))
           eq_refl)).
Defined.

(** When all three queries succeed, the rows they return are loaded,
    and an export finds them. *)
Example successful_fetch_loads_rows :
  Loader.sets (fst (Loader.fetchAllData Loader.initialView
                      (Loader.Resolved (Some [sampleAssessment]) false)
                      (Loader.Resolved None false)
                      (Loader.Resolved (Some []) false)))
  = sampleState.
Proof. reflexivity. Qed.

End ReportsFacts.

(** ** Sessions with the submission form *)

Module SessionFacts.
Import Form Session.

Lemma run_app s events1 events2 :
  run s (events1 ++ events2) =
  let (s1, out1) := run s events1 in
  let (s2, out2) := run s1 events2 in
  (s2, out1 ++ out2).
Proof.
  revert s. induction events1 as [|e r IH]; intros s; cbn [app run].
  - now destruct (run s events2).
  - destruct (step s e) as [s1 out1]. rewrite IH.
    destruct (run s1 r) as [s2 out2]. destruct (run s2 events2) as [s3 out3].
    now rewrite app_assoc.
Qed.

(** One submission, from the click to the answer of the store, does
    what [handleSubmit] does. *)
Lemma submission_is_handleSubmit s error :
  submitDisabled (form s) = false -> pending s = [] ->
  snd (run s [Submit; StoreReply error]) = handleSubmit (form s) error.
Proof.
  intros Hd Hp. cbn [run step]. rewrite Hd. unfold begin. rewrite Hp.
  cbn [app pending]. unfold resume, handleSubmit.
  destruct error; reflexivity.
Qed.

Lemma step_settled s e : settled s -> settled (fst (step s e)).
Proof.
  intros [Hl Hs]. destruct e; try (split; assumption).
  - cbn [step]. unfold submitDisabled. rewrite Hs.
    destruct (pending s) as [|row rest] eqn:Ep.
    + destruct (isEmpty (aiTool (data (form s))) || isEmpty (riskType (data (form s)))
                || isEmpty (severity (data (form s))) || false) eqn:Ed.
      * cbn [fst]. split; [now rewrite Ep|now rewrite Ep].
      * unfold begin. cbn [fst]. rewrite Ep. split; [simpl; lia|reflexivity].
    + rewrite orb_true_r. cbn [fst]. split; [now rewrite Ep|now rewrite Ep].
  - cbn [step]. destruct (pending s) as [|row rest] eqn:Ep.
    + cbn [fst]. split; [now rewrite Ep|now rewrite Ep].
    + simpl in Hl. assert (rest = []) by (destruct rest; [reflexivity|simpl in Hl; lia]).
      subst rest. unfold resume. destruct error; split; reflexivity || (simpl; lia).
Qed.

Lemma run_settled events : forall s,
  settled s -> settled (fst (run s events)).
Proof.
  induction events as [|e r IH]; intros s H; [exact H|].
  cbn [run]. pose proof (step_settled s e H) as H1.
  destruct (step s e) as [s1 out1]. cbn [fst] in H1.
  specialize (IH s1 H1). destruct (run s1 r) as [s2 out2]. exact IH.
Qed.

Lemma inserted_app out1 out2 :
  inserted (out1 ++ out2) = inserted out1 ++ inserted out2.
Proof. unfold inserted. apply flat_map_app. Qed.

Lemma step_balance s e :
  (List.length (inserted (snd (step s e))) + List.length (pending s)
   <= (if isReply e then 1 else 0) + List.length (pending (fst (step s e))))%nat.
Proof.
  destruct e; cbn [step isReply fst snd]; try (simpl; lia).
  - destruct (submitDisabled (form s)); cbn [fst snd]; [simpl; lia|].
    unfold begin. cbn [fst snd pending]. simpl.
    rewrite length_app. simpl. lia.
  - destruct (pending s) as [|row rest]; [simpl; lia|].
    unfold resume. destruct error; simpl; lia.
Qed.

Lemma run_balance events : forall s,
  (List.length (inserted (snd (run s events))) + List.length (pending s)
   <= List.length (filter isReply events)
      + List.length (pending (fst (run s events))))%nat.
Proof.
  induction events as [|e r IH]; intros s; [simpl; lia|].
  cbn [run filter]. pose proof (step_balance s e) as H1.
  destruct (step s e) as [s1 out1]. cbn [fst snd] in H1.
  specialize (IH s1). destruct (run s1 r) as [s2 out2]. cbn [fst snd] in IH |- *.
  rewrite inserted_app, length_app.
  destruct (isReply e); simpl in *; lia.
Qed.

(** X17. Whatever the user does and whenever the store answers, at most
    one insert of the form waits for the store: the form is submitting
    exactly while one does, an attempt to submit in the meantime does
    nothing, and the form has never sent more inserts than the store has
    answered, plus one. *)
Theorem one_insert_in_flight (events : list event) :
  let s := fst (run initial events) in
  settled s /\
  (pending s <> [] -> step s Submit = (s, [])) /\
  (List.length (inserted (snd (run initial events)))
   <= List.length (filter isReply events) + 1)%nat.
Proof.
  intros s.
  assert (Hs : settled s) by (apply run_settled; split; [simpl; lia|reflexivity]).
  split; [exact Hs|]. split.
  - intros Hp. cbn [step]. unfold submitDisabled.
    destruct Hs as [_ Hs]. rewrite Hs.
    destruct (pending s); [congruence|]. now rewrite orb_true_r.
  - pose proof (run_balance events initial) as Hb.
    destruct Hs as [Hl _]. fold s in Hb. simpl in Hb. lia.
Qed.

Lemma one_insert_in_flight_witness :
  pending (fst (run initial [ SelectTool "Other"; SelectRisk "Other";
                              SelectSeverity "Low"; Submit ])) <> [] /\
  step (fst (run initial [ SelectTool "Other"; SelectRisk "Other";
                           SelectSeverity "Low"; Submit ])) Submit
  = (fst (run initial [ SelectTool "Other"; SelectRisk "Other";
                        SelectSeverity "Low"; Submit ]), []).
Proof.
  split; [discriminate|].
  apply (proj1 (proj2 (one_insert_in_flight
                         [ SelectTool "Other"; SelectRisk "Other";
                           SelectSeverity "Low"; Submit ]))).
  discriminate.
Defined.

(** The session of [sampleEvents]: two inserts, the second one after the
    store has refused the first. *)
Example sample_session_inserts :
  map aiTool (inserted (snd (run initial sampleEvents)))
  = ["ChatGPT/OpenAI"; "ChatGPT/OpenAI"] /\
  map email (inserted (snd (run initial sampleEvents))) = [""; "a@b.c"] /\
  data (form (fst (run initial sampleEvents))) = emptyForm.
Proof. repeat split. Qed.

Lemma step_fromOptions s e :
  possible e -> fromOptions (data (form s)) ->
  fromOptions (data (form (fst (step s e)))).
Proof.
  intros He (H1 & H2 & H3).
  destruct e; cbn [step fst edit form data possible] in *;
    try (repeat split; auto; fail).
  - destruct (submitDisabled (form s)); cbn [fst]; [|unfold begin; cbn [fst form data]];
      repeat split; auto.
  - destruct (pending s) as [|row rest]; cbn [fst]; [repeat split; auto|].
    unfold resume. destruct error; cbn [fst form data].
    + repeat split; auto.
    + repeat split; now left.
Qed.

Lemma step_inserts s e row :
  fromOptions (data (form s)) ->
  In row (inserted (snd (step s e))) ->
  In (aiTool row) AI_TOOLS /\ In (riskType row) RISK_TYPES /\
  In (severity row) SEVERITIES.
Proof.
  intros (H1 & H2 & H3) Hin.
  destruct e; cbn [step snd] in Hin; try contradiction.
  - destruct (submitDisabled (form s)) eqn:Ed; [contradiction|].
    unfold begin in Hin. cbn [snd inserted flat_map app] in Hin.
    destruct Hin as [<-|[]].
    unfold submitDisabled in Ed.
    apply orb_false_elim in Ed. destruct Ed as [Ed _].
    apply orb_false_elim in Ed. destruct Ed as [Ed E3].
    apply orb_false_elim in Ed. destruct Ed as [E1 E2].
    unfold isEmpty in *. apply String.eqb_neq in E1, E2, E3.
    repeat split; tauto.
  - destruct (pending s) as [|r0 rest]; [contradiction|].
    unfold resume in Hin. destruct error; simpl in Hin; contradiction.
Qed.

(** X18. Whatever the user does with the controls of the form, every
    row that the form inserts names one of the listed tools, one of the
    listed risk types and one of the four severities; so no insert of
    the form fails the check of the table on the severity. *)
Theorem inserted_rows_pass_check (events : list event) (row : formData) :
  Forall possible events ->
  In row (inserted (snd (run initial events))) ->
  In (aiTool row) AI_TOOLS /\ In (riskType row) RISK_TYPES /\
  In (severity row) SEVERITIES /\ tableAccepts row = true.
Proof.
  intros Hp Hin.
  assert (H : forall s, fromOptions (data (form s)) ->
            In row (inserted (snd (run s events))) ->
            In (aiTool row) AI_TOOLS /\ In (riskType row) RISK_TYPES /\
            In (severity row) SEVERITIES).
  { clear Hin. induction Hp as [|e r He _ IH]; intros s Hs Hin;
      [contradiction|].
    cbn [run] in Hin.
    pose proof (step_fromOptions s e He Hs) as Hs1.
    pose proof (step_inserts s e row Hs) as Hi.
    destruct (step s e) as [s1 out1]. cbn [fst snd] in Hs1, Hi.
    specialize (IH s1 Hs1). destruct (run s1 r) as [s2 out2].
    cbn [snd] in Hin, IH. rewrite inserted_app in Hin.
    apply in_app_or in Hin. destruct Hin as [Hin|Hin]; auto. }
  destruct (H initial) as (H1 & H2 & H3); [repeat split; now left|exact Hin|].
  repeat split; try assumption.
  unfold tableAccepts. apply existsb_exists. exists (severity row).
  split; [exact H3|apply String.eqb_refl].
Qed.

Lemma sampleEvents_possible : Forall possible sampleEvents.
Proof. repeat constructor; simpl; tauto. Defined.

Lemma inserted_rows_pass_check_witness :
  List.length (inserted (snd (run initial sampleEvents))) = 2%nat /\
  Forall (fun row => tableAccepts row = true)
         (inserted (snd (run initial sampleEvents))).
Proof.
  split; [reflexivity|]. apply Forall_forall. intros row H.
  exact (proj2 (proj2 (proj2
           (inserted_rows_pass_check sampleEvents row sampleEvents_possible H)))).
Defined.

(** [handleSubmit] itself sends whatever the form holds: a severity
    that is not one of the four would reach the store. *)
Example handleSubmit_sends_any_severity :
  inserted (handleSubmit
              {| data := {| aiTool := "Other"; riskType := "Other";
                            severity := "Severe"; description := "";
                            email := ""; reportRequested := false |};
                 isSubmitting := false |} false)
  = [ {| aiTool := "Other"; riskType := "Other"; severity := "Severe";
         description := ""; email := ""; reportRequested := false |} ].
Proof. reflexivity. Qed.

End SessionFacts.

(** ** The trend of the last thirty days *)

Module TrendFacts.
Import JS Aggregator Trend JSFacts AggregatorFacts JsonFacts ExporterFacts.
Import ViewsFacts.

(** *** Calendar dates *)

Lemma civil_round_trip days :
  let '(y, m, d) := civilFromDays days in daysFromCivil y m d = days.
Proof.
  unfold civilFromDays, daysFromCivil.
  set (z := days + 719468).
  set (era := z / 146097).
  set (doe := z - era * 146097).
  set (yoe := (doe - doe / 1460 + doe / 36524 - doe / 146096) / 365).
  set (doy := doe - (365 * yoe + yoe / 4 - yoe / 100)).
  set (mp := (5 * doy + 2) / 153).
  assert (Hdoe : 0 <= doe < 146097).
  { subst doe era. Z.to_euclidean_division_equations. lia. }
  assert (Hyoe : 0 <= yoe <= 399).
  { subst yoe. Z.to_euclidean_division_equations. lia. }
  assert (Hdoy : 0 <= doy <= 365).
  { subst doy yoe. Z.to_euclidean_division_equations. lia. }
  assert (Hmp : 0 <= mp <= 11).
  { subst mp. Z.to_euclidean_division_equations. lia. }
  destruct (mp <? 10) eqn:E1.
  - apply Z.ltb_lt in E1.
    destruct (mp + 3 <=? 2) eqn:E2; [apply Z.leb_le in E2; lia|].
    destruct (2 <? mp + 3) eqn:E3; [|apply Z.ltb_ge in E3; lia].
    replace (mp + 3 - 3) with mp by lia.
    assert (Hera : (yoe + era * 400 + 0) / 400 = era).
    { Z.to_euclidean_division_equations. lia. }
    rewrite Hera.
    replace (yoe + era * 400 + 0 - era * 400) with yoe by lia.
    subst doy z doe. Z.to_euclidean_division_equations. lia.
  - apply Z.ltb_ge in E1.
    destruct (mp - 9 <=? 2) eqn:E2; [|apply Z.leb_gt in E2; lia].
    destruct (2 <? mp - 9) eqn:E3; [apply Z.ltb_lt in E3; lia|].
    replace (mp - 9 + 9) with mp by lia.
    replace (yoe + era * 400 + 1 - 1) with (yoe + era * 400) by lia.
    assert (Hera : (yoe + era * 400) / 400 = era).
    { Z.to_euclidean_division_equations. lia. }
    rewrite Hera.
    replace (yoe + era * 400 - era * 400) with yoe by lia.
    subst doy z doe. Z.to_euclidean_division_equations. lia.
Qed.

Lemma civil_inj a b : civilFromDays a = civilFromDays b -> a = b.
Proof.
  intros H. pose proof (civil_round_trip a) as Ha.
  pose proof (civil_round_trip b) as Hb. rewrite H in Ha.
  destruct (civilFromDays b) as [[y m] d]. congruence.
Qed.

(** *** The text of a date *)

Lemma str_inj l1 l2 : str l1 = str l2 -> l1 = l2.
Proof.
  unfold str. intros H.
  rewrite <- (list_ascii_of_string_of_list_ascii l1),
          <- (list_ascii_of_string_of_list_ascii l2).
  now rewrite H.
Qed.

Lemma weekday_chars w :
  0 <= w < 7 ->
  exists x y z,
    chars (nth (Z.to_nat w) weekdayNames "") = [x; y; z] /\
    Ascii.eqb x "I" = false.
Proof.
  intros H. assert (Hn : (Z.to_nat w < 7)%nat) by lia.
  destruct (Z.to_nat w) as [|[|[|[|[|[|[|n]]]]]]]; [| | | | | | |lia];
    do 3 eexists; split; reflexivity.
Qed.

Lemma month_chars m :
  1 <= m <= 12 ->
  exists x y z, chars (nth (Z.to_nat (m - 1)) monthNames "") = [x; y; z].
Proof.
  intros H. assert (Hn : (Z.to_nat (m - 1) < 12)%nat) by lia.
  destruct (Z.to_nat (m - 1))
    as [|[|[|[|[|[|[|[|[|[|[|[|n]]]]]]]]]]]]; [| | | | | | | | | | | |lia];
    do 3 eexists; reflexivity.
Qed.

Lemma month_inj m1 m2 :
  1 <= m1 <= 12 -> 1 <= m2 <= 12 ->
  chars (nth (Z.to_nat (m1 - 1)) monthNames "")
  = chars (nth (Z.to_nat (m2 - 1)) monthNames "") ->
  m1 = m2.
Proof.
  intros H1 H2 H.
  assert (Hn1 : (Z.to_nat (m1 - 1) < 12)%nat) by lia.
  assert (Hn2 : (Z.to_nat (m2 - 1) < 12)%nat) by lia.
  assert (E : Z.to_nat (m1 - 1) = Z.to_nat (m2 - 1)); [|lia].
  destruct (Z.to_nat (m1 - 1))
    as [|[|[|[|[|[|[|[|[|[|[|[|n]]]]]]]]]]]]; [| | | | | | | | | | | |lia];
    destruct (Z.to_nat (m2 - 1))
      as [|[|[|[|[|[|[|[|[|[|[|[|n']]]]]]]]]]]]; try lia;
    try reflexivity; discriminate H.
Qed.

Lemma digitsValue_padLeft w : forall l,
  digitsValue 0 (padLeft w l) = digitsValue 0 l.
Proof.
  induction w as [|w IH]; intros l; cbn [padLeft].
  - now destruct (Nat.ltb (List.length l) 0).
  - destruct (Nat.ltb (List.length l) (S w)); [|reflexivity].
    cbn [digitsValue]. rewrite <- (IH l). reflexivity.
Qed.

Lemma pad_value w n : 0 <= n -> Z.of_N (digitsValue 0 (pad w n)) = n.
Proof.
  intros H. unfold pad. rewrite digitsValue_padLeft, digits_value. lia.
Qed.

Lemma padLeft_nonempty w l : l <> [] -> padLeft w l <> [].
Proof.
  intros H. destruct w as [|w]; cbn [padLeft].
  - now destruct (Nat.ltb (List.length l) 0).
  - destruct (Nat.ltb (List.length l) (S w)); [discriminate|exact H].
Qed.

Lemma pad_head w n : exists c r, pad w n = c :: r /\ isDigit c = true.
Proof.
  pose proof (padLeft_isDigit w _ (digits_isDigit (Z.to_N n))) as Hd.
  pose proof (padLeft_nonempty w _ (digits_nonempty (Z.to_N n))) as Hn.
  fold (pad w n) in Hd, Hn. destruct (pad w n) as [|c r]; [congruence|].
  exists c, r. split; [reflexivity|].
  cbn [forallb] in Hd. now apply andb_prop in Hd.
Qed.

Lemma pad2_chars d : 1 <= d <= 31 -> exists p q, pad 2 d = [p; q].
Proof.
  intros H. assert (Hp : Exporter.digitsOnly 2 (pad 2 d) = true)
    by (apply pad_digits; [lia|simpl; lia]).
  unfold Exporter.digitsOnly in Hp. apply andb_prop in Hp. destruct Hp as [Hl _].
  apply Nat.eqb_eq in Hl.
  destruct (pad 2 d) as [|p [|q [|x r]]]; try discriminate.
  now exists p, q.
Qed.

Lemma year_inj y1 y2 :
  ((if y1 <? 0 then ["-"%char] else []) ++ pad 4 (Z.abs y1)
   = (if y2 <? 0 then ["-"%char] else []) ++ pad 4 (Z.abs y2))%list ->
  y1 = y2.
Proof.
  intros H.
  destruct (pad_head 4 (Z.abs y1)) as (c1 & r1 & E1 & D1).
  destruct (pad_head 4 (Z.abs y2)) as (c2 & r2 & E2 & D2).
  pose proof (pad_value 4 (Z.abs y1) (Z.abs_nonneg y1)) as V1.
  pose proof (pad_value 4 (Z.abs y2) (Z.abs_nonneg y2)) as V2.
  destruct (y1 <? 0) eqn:S1, (y2 <? 0) eqn:S2; cbn [app] in H.
  - injection H as H. rewrite H in V1. apply Z.ltb_lt in S1, S2. lia.
  - rewrite E2 in H. injection H as Hc _. subst c2. discriminate D2.
  - rewrite E1 in H. injection H as Hc _. subst c1. discriminate D1.
  - rewrite H in V1. apply Z.ltb_ge in S1, S2. lia.
Qed.

Lemma dateChars_inj a b :
  dateChars a = dateChars b -> a / msPerDay = b / msPerDay.
Proof.
  unfold dateChars. intros H. apply civil_inj.
  pose proof (civil_month_day (a / msPerDay)) as Ca.
  pose proof (civil_month_day (b / msPerDay)) as Cb.
  destruct (civilFromDays (a / msPerDay)) as [[y1 m1] d1].
  destruct (civilFromDays (b / msPerDay)) as [[y2 m2] d2].
  destruct Ca as [Hm1 Hd1], Cb as [Hm2 Hd2].
  destruct (weekday_chars ((a / msPerDay + 4) mod 7)) as (x1 & x2 & x3 & W1 & _);
    [apply Z.mod_pos_bound; lia|].
  destruct (weekday_chars ((b / msPerDay + 4) mod 7)) as (u1 & u2 & u3 & W2 & _);
    [apply Z.mod_pos_bound; lia|].
  destruct (month_chars m1 Hm1) as (n1 & n2 & n3 & M1).
  destruct (month_chars m2 Hm2) as (v1 & v2 & v3 & M2).
  destruct (pad2_chars d1 Hd1) as (p1 & q1 & P1).
  destruct (pad2_chars d2 Hd2) as (p2 & q2 & P2).
  pose proof (pad_value 2 d1 ltac:(lia)) as V1.
  pose proof (pad_value 2 d2 ltac:(lia)) as V2.
  assert (Hm : m1 = m2 /\ pad 2 d1 = pad 2 d2 /\
               ((if y1 <? 0 then ["-"%char] else []) ++ pad 4 (Z.abs y1)
                = (if y2 <? 0 then ["-"%char] else []) ++ pad 4 (Z.abs y2))%list).
  { rewrite W1, W2, M1, M2, P1, P2 in H. cbn [app] in H.
    injection H as _ _ _ A1 A2 A3 B1 B2 Hy.
    split; [|split; [rewrite P1, P2; congruence|exact Hy]].
    apply month_inj; try assumption. rewrite M1, M2. congruence. }
  destruct Hm as (Em & Ep & Ey).
  rewrite Ep in V1. apply year_inj in Ey. congruence.
Qed.

Lemma same_day_same_text rt t1 t2 :
  String.eqb (toDateString rt (Some t1)) (toDateString rt (Some t2))
  = (localDay rt t1 =? localDay rt t2).
Proof.
  unfold toDateString, localDay.
  destruct (localTime rt t1 / msPerDay =? localTime rt t2 / msPerDay) eqn:E.
  - apply Z.eqb_eq in E. apply String.eqb_eq. f_equal.
    unfold dateChars. now rewrite E.
  - apply String.eqb_neq. intros H. apply str_inj, dateChars_inj in H.
    apply Z.eqb_neq in E. contradiction.
Qed.

Lemma invalid_date_text rt t :
  String.eqb (toDateString rt None) (toDateString rt (Some t)) = false.
Proof.
  apply String.eqb_neq. unfold toDateString, dateChars. intros H.
  destruct (civilFromDays (localTime rt t / msPerDay)) as [[y m] d].
  destruct (weekday_chars ((localTime rt t / msPerDay + 4) mod 7))
    as (x1 & x2 & x3 & W & Hx); [apply Z.mod_pos_bound; lia|].
  rewrite W in H. cbn [app str string_of_list_ascii] in H.
  injection H as Hc _. subst x1. discriminate Hx.
Qed.

Lemma sameDate_onDay rt date a :
  sameDate rt date a
  = option_map (fun _ => onDay rt (localDay rt date) a)
               (newDate rt (getOwn "timestamp" a)).
Proof.
  unfold sameDate, onDay.
  destruct (newDate rt (getOwn "timestamp" a)) as [[t|]|]; cbn [option_map].
  - now rewrite same_day_same_text.
  - now rewrite invalid_date_text.
  - reflexivity.
Qed.

(** *** Filters *)

Lemma filterThrowing_some {A} (p : A -> option bool) l : forall r,
  filterThrowing p l = Some r ->
  r = filter (fun x => match p x with Some b => b | None => false end) l.
Proof.
  induction l as [|x l IH]; cbn [filterThrowing filter]; intros r H.
  - now inversion H.
  - destruct (p x) as [b|]; [|discriminate].
    destruct (filterThrowing p l) as [r'|]; [|discriminate].
    rewrite <- (IH r' eq_refl). inversion H. now destruct b.
Qed.

Lemma one_bucket {A} (p : nat -> A -> bool) (l : list A) (indices : list nat) :
  NoDup indices ->
  (forall i j x, p i x = true -> p j x = true -> i = j) ->
  fold_right Z.add 0
    (map (fun i => lengthZ (filter (p i) l)) indices) <= lengthZ l.
Proof.
  intros Hnd Hone. unfold lengthZ.
  induction l as [|x l IH].
  - cbn [filter List.length]. induction indices as [|i r IHr]; simpl; [lia|].
    inversion Hnd; subst. specialize (IHr H2). simpl in IHr. lia.
  - assert (Hx : fold_right Z.add 0
                   (map (fun i => Z.of_nat (List.length (filter (p i) (x :: l))))
                        indices)
                 = fold_right Z.add 0
                     (map (fun i => if p i x then 1 else 0) indices)
                   + fold_right Z.add 0
                       (map (fun i => Z.of_nat (List.length (filter (p i) l)))
                            indices)).
    { clear. induction indices as [|i r IHr]; [reflexivity|].
      cbn [map fold_right]. rewrite IHr. cbn [filter].
      destruct (p i x); cbn [List.length]; lia. }
    rewrite Hx. cbn [List.length].
    assert (H1 : fold_right Z.add 0
                   (map (fun i => if p i x then 1 else 0) indices) <= 1).
    { clear IH Hx. induction Hnd as [|i r Hi Hr IHr]; [simpl; lia|].
      cbn [map fold_right]. destruct (p i x) eqn:E; [|lia].
      assert (H0 : fold_right Z.add 0
                     (map (fun i => if p i x then 1 else 0) r) = 0); [|lia].
      clear IHr. induction r as [|j r IHj]; [reflexivity|].
      cbn [map fold_right]. destruct (p j x) eqn:Ej.
      - exfalso. apply Hi. left. symmetry. exact (Hone i j x E Ej).
      - rewrite IHj; [reflexivity| |].
        + intros Hin. apply Hi. now right.
        + now inversion Hr. }
    lia.
Qed.

(** X19. The trend of the legacy dashboard is computed whenever no
    timestamp throws, and has thirty points. In each of them the
    critical and the high submissions are disjoint parts of the
    submissions of the point, which are some of the records. When the
    clock does not move between the points and local days are coherent,
    the point of index [i] counts the records whose timestamp is a valid
    date of the local day [29 - i] days before today, a record of an
    invalid timestamp is in no point, and no record is in two points. *)
Theorem trend_points_bucket_by_day (rt : runtime) (clock : nat -> Z)
    (assessments : list record) :
  ((forall a, In a assessments ->
      newDate rt (getOwn "timestamp" a) <> None) ->
   trendData rt clock assessments <> None) /\
  forall points,
    trendData rt clock assessments = Some points ->
    List.length points = 30%nat /\
    (forall p, In p points ->
       0 <= t_critical p /\ 0 <= t_high p /\
       t_critical p + t_high p <= submissions p <= lengthZ assessments) /\
    (forall now, (forall i, clock i = now) -> coherent rt now ->
       map submissions points
       = map (fun i => lengthZ (filter (onDay rt (localDay rt now
                                                  - (29 - Z.of_nat i)))
                                       assessments))
             (seq 0 30) /\
       fold_right Z.add 0 (map submissions points) <= lengthZ assessments).
Proof.
  split.
  { intros Hd. unfold trendData. apply sequence_total. intros i _.
    unfold trendPoint. rewrite filterThrowing_total; [discriminate|].
    intros a Ha. unfold sameDate. specialize (Hd a Ha).
    now destruct (newDate rt (getOwn "timestamp" a)). }
  intros points H. unfold trendData in H. apply sequence_forall2 in H.
  assert (Hlen : List.length points = 30%nat).
  { apply Forall2_length in H. now rewrite <- H, length_seq. }
  split; [exact Hlen|]. split.
  - intros p Hp.
    assert (Hi : exists i, trendPoint rt (clock i) assessments i = Some p).
    { clear - H Hp. induction H as [|i q li lq Hq _ IH]; [contradiction|].
      destruct Hp as [<-|Hp]; [now exists i|now apply IH]. }
    destruct Hi as (i & Hi). unfold trendPoint in Hi.
    destruct (filterThrowing _ assessments) as [day|] eqn:E; [|discriminate].
    inversion Hi; subst p; clear Hi.
    cbn [t_critical t_high submissions].
    apply filterThrowing_length in E.
    pose proof (filter_disjoint_length
                  (fieldIs "severity" "Critical") (fieldIs "severity" "High") day
                  (fun a => fieldIs_disjoint "severity" "Critical" "High" a eq_refl))
      as Hd.
    unfold lengthZ. lia.
  - intros now Hclock Hco.
    assert (Hmap : map submissions points
                   = map (fun i => lengthZ (filter (onDay rt (localDay rt now
                                                              - (29 - Z.of_nat i)))
                                                   assessments))
                         (seq 0 30)).
    { assert (Hin : forall i, In i (seq 0 30) -> (i < 30)%nat)
        by (intros i Hi; apply in_seq in Hi; lia).
      revert Hin. clear Hlen.
      induction H as [|i p li lp Hp _ IH]; intros Hin; [reflexivity|].
      cbn [map]. rewrite IH by (intros j Hj; apply Hin; now right).
      f_equal. unfold trendPoint in Hp. rewrite Hclock in Hp.
      destruct (filterThrowing _ assessments) as [day|] eqn:E; [|discriminate].
      inversion Hp; subst p; clear Hp. cbn [submissions].
      pose proof (filterThrowing_some _ _ _ E) as Hday. rewrite Hday.
      unfold lengthZ. do 2 f_equal. apply filter_ext. intros a.
      rewrite sameDate_onDay, Hco
        by (specialize (Hin i (or_introl eq_refl)); lia).
      unfold onDay. now destruct (newDate rt (getOwn "timestamp" a)) as [[t|]|]. }
    split; [exact Hmap|]. rewrite Hmap.
    apply (one_bucket (fun i => onDay rt (localDay rt now - (29 - Z.of_nat i)))).
    + apply seq_NoDup.
    + intros i j x Hi Hj. unfold onDay in Hi, Hj.
      destruct (newDate rt (getOwn "timestamp" x)) as [[t|]|]; try discriminate.
      apply Z.eqb_eq in Hi, Hj. lia.
Qed.

Lemma utc_coherent now : coherent utcRuntime now.
Proof.
  intros k _. unfold localDay, setDateBack, localTime. cbn [utcRuntime offsetAtUTC offsetAtLocal].
  rewrite !Z.add_0_r, Z.sub_0_r.
  replace (now - k * msPerDay) with (now + (- k) * msPerDay) by lia.
  rewrite Z.div_add by (unfold msPerDay; lia). lia.
Defined.

Lemma trend_points_bucket_by_day_witness :
  option_map (map submissions)
    (trendData utcRuntime (fun _ => 1751358600000) trendSample)
  = Some (repeat 0 18 ++ [2] ++ repeat 0 10 ++ [1]) /\
  forall points,
    trendData utcRuntime (fun _ => 1751358600000) trendSample = Some points ->
    fold_right Z.add 0 (map submissions points) <= lengthZ trendSample.
Proof.
  split; [vm_compute; reflexivity|]. intros points H.
  exact (proj2 (proj2 (proj2
           (proj2 (trend_points_bucket_by_day utcRuntime
                     (fun _ => 1751358600000) trendSample) points H))
           1751358600000 (fun _ => eq_refl) (utc_coherent 1751358600000))).
Defined.

End TrendFacts.
